(** * Airline-delay cleaning pipeline: a shallow embedding of
    [src/cleaning_pipeline.py] and the properties of its stages.

    The script is a straight-line pandas program.  Its two helpers
    ([to_snake], [safe_div]) are embedded as functions; the table it
    mutates is an ordered association list of typed columns; statements
    that can raise run in a small error monad.  Binary64 arithmetic is the
    executable IEEE-754 specification of the Standard Library
    ([SpecFloat], precision 53, emax 1024). *)

From Stdlib Require Import ZArith List String Ascii Bool Lia SpecFloat.
From Stdlib Require Import DecimalString Permutation.
From stdpp Require Import base list.
Import ListNotations.

Local Open Scope Z_scope.

(** Membership in a list that is written out. *)
Ltac in_list :=
  first [ apply list_elem_of_here | apply list_elem_of_further; in_list ].

(** Splitting a membership in a list that is written out. *)
Ltac split_in H :=
  repeat (apply elem_of_cons in H as [H|H]); [..|by apply elem_of_nil in H].

(** ** Python string methods used by [to_snake]

    Labels are ASCII text: a [string] is the sequence of its code points,
    all below 128. *)
Module PyStr.

Definition code (c : ascii) : nat := nat_of_ascii c.

(** [str.isspace] on ASCII: TAB..CR, FS..US and the blank. *)
Definition isspace (c : ascii) : bool :=
  let n := code c in
  ((9 <=? n)%nat && (n <=? 13)%nat) || ((28 <=? n)%nat && (n <=? 32)%nat).

Definition isdigit (c : ascii) : bool :=
  let n := code c in (48 <=? n)%nat && (n <=? 57)%nat.

Definition isupper (c : ascii) : bool :=
  let n := code c in (65 <=? n)%nat && (n <=? 90)%nat.

Definition islower (c : ascii) : bool :=
  let n := code c in (97 <=? n)%nat && (n <=? 122)%nat.

(** [ch.isalnum()] *)
Definition isalnum (c : ascii) : bool := isdigit c || isupper c || islower c.

Definition lower_char (c : ascii) : ascii :=
  if isupper c then ascii_of_nat (code c + 32) else c.

Fixpoint map_chars (f : ascii -> ascii) (s : string) : string :=
  match s with
  | EmptyString => EmptyString
  | String c r => String (f c) (map_chars f r)
  end.

(** [s.lower()] *)
Definition lower (s : string) : string := map_chars lower_char s.

Fixpoint lstrip (s : string) : string :=
  match s with
  | EmptyString => EmptyString
  | String c r => if isspace c then lstrip r else s
  end.

Fixpoint rev_string (acc s : string) : string :=
  match s with
  | EmptyString => acc
  | String c r => rev_string (String c acc) r
  end.

Definition rstrip (s : string) : string :=
  rev_string EmptyString (lstrip (rev_string EmptyString s)).

(** [s.strip()] *)
Definition strip (s : string) : string := rstrip (lstrip s).

(** [s.replace(old, new)] for a non-empty [old]: occurrences are replaced
    from the left and never overlap; [skip] counts the characters of an
    occurrence that are still to be passed over. *)
Fixpoint replace_from (old new : string) (skip : nat) (s : string) : string :=
  match s with
  | EmptyString => EmptyString
  | String c r =>
      match skip with
      | S k => replace_from old new k r
      | O =>
          if String.prefix old s
          then (new ++ replace_from old new (String.length old - 1) r)%string
          else String c (replace_from old new 0 r)
      end
  end.

Definition replace (old new s : string) : string := replace_from old new 0 s.

Definition flush (tok : string) : list string :=
  match tok with
  | EmptyString => []
  | _ => [rev_string EmptyString tok]
  end.

(** [tok] holds the current word, last character first. *)
Fixpoint split_from (tok : string) (s : string) : list string :=
  match s with
  | EmptyString => flush tok
  | String c r =>
      if isspace c then flush tok ++ split_from EmptyString r
      else split_from (String c tok) r
  end.

(** [s.split()]: the maximal runs of non-blank characters. *)
Definition split (s : string) : list string := split_from EmptyString s.

Definition nonempty (s : string) : bool :=
  match s with EmptyString => false | _ => true end.

(** [sep.join(parts)] *)
Definition join (sep : string) (parts : list string) : string :=
  String.concat sep parts.

End PyStr.

(** ** [to_snake] (lines 25-30) *)

Definition snake_char (ch : ascii) : ascii :=
  if PyStr.isalnum ch || Ascii.eqb ch " "%char then ch else "_"%char.

Definition to_snake (s : string) : string :=
  let s := PyStr.replace "." " "
             (PyStr.replace "-" " " (PyStr.replace "/" " " (PyStr.strip s))) in
  let s := PyStr.map_chars snake_char s in
  let parts :=
    List.filter PyStr.nonempty
      (PyStr.split (PyStr.lower (PyStr.replace "__" "_" s))) in
  PyStr.join "_" parts.

(** ** Predicates on labels *)

(** Every character of [s] satisfies [p]. *)
Fixpoint all_chars (p : ascii -> bool) (s : string) : bool :=
  match s with
  | EmptyString => true
  | String c r => p c && all_chars p r
  end.

(** A code point below 128; the string methods are embedded for text of
    such characters. *)
Definition is_ascii (c : ascii) : bool := (PyStr.code c <? 128)%nat.

(** [old in s] *)
Fixpoint occurs (old s : string) : bool :=
  match s with
  | EmptyString => String.prefix old s
  | String _ r => String.prefix old s || occurs old r
  end.

(** A character of a snake-case label: a lowercase letter, a digit or
    the underscore. *)
Definition is_snake_char (c : ascii) : bool :=
  PyStr.isdigit c || PyStr.islower c || Ascii.eqb c "_".

(** The characters left by the first steps of [to_snake]. *)
Definition is_mapped_char (c : ascii) : bool :=
  PyStr.isalnum c || Ascii.eqb c " " || Ascii.eqb c "_".

Definition is_lowered_char (c : ascii) : bool :=
  is_snake_char c || Ascii.eqb c " ".

Definition nonspace (c : ascii) : bool := negb (PyStr.isspace c).

Definition is_letter (c : ascii) : bool := PyStr.isupper c || PyStr.islower c.

(** A blank or one of the separators that [to_snake] turns into blanks. *)
Definition is_blank_or_separator (c : ascii) : bool :=
  Ascii.eqb c " " || Ascii.eqb c "/" || Ascii.eqb c "-" || Ascii.eqb c ".".

Definition is_blank (c : ascii) : bool := Ascii.eqb c " ".

(** ** Binary64 ([numpy.float64]) and [int64] scalars *)
Module F64.

Definition prec : Z := 53.
Definition emax : Z := 1024.

Definition nan : spec_float := S754_nan.
Definition zero : spec_float := S754_zero false.

Definition add : spec_float -> spec_float -> spec_float := SFadd prec emax.
Definition mul : spec_float -> spec_float -> spec_float := SFmul prec emax.
Definition div : spec_float -> spec_float -> spec_float := SFdiv prec emax.
Definition eqb : spec_float -> spec_float -> bool := SFeqb.
Definition ltb : spec_float -> spec_float -> bool := SFltb.

(** The nearest binary64 value of an integer (ties to even). *)
Definition of_int (z : Z) : spec_float := binary_normalize prec emax z 0 false.

Definition isnan (x : spec_float) : bool :=
  match x with S754_nan => true | _ => false end.

Definition is_zero (x : spec_float) : bool :=
  match x with S754_zero _ => true | _ => false end.

Definition in_int64 (z : Z) : bool := (- 2 ^ 63 <=? z) && (z <? 2 ^ 63).

(** The integer a float denotes, when it denotes one that fits [int64]. *)
Definition to_int_exact (x : spec_float) : option Z :=
  match x with
  | S754_zero _ => Some 0
  | S754_finite s m e =>
      let mag :=
        if 0 <=? e then Some (Zpos m * 2 ^ e)
        else if Zpos m mod 2 ^ (- e) =? 0 then Some (Zpos m / 2 ^ (- e))
        else None in
      match mag with
      | Some v =>
          let z := if s then - v else v in
          if in_int64 z then Some z else None
      | None => None
      end
  | _ => None
  end.

End F64.

(** Two's-complement wrap-around of [int64] arithmetic. *)
Definition wrap64 (z : Z) : Z := (z + 2 ^ 63) mod 2 ^ 64 - 2 ^ 63.

(** A numeric scalar: what [pd.to_numeric] parses a cell to, and what a
    cell of a numeric column holds. *)
Inductive num :=
  | NInt (z : Z)
  | NFloat (x : spec_float).

Definition num_to_float (n : num) : spec_float :=
  match n with
  | NInt z => F64.of_int z
  | NFloat x => x
  end.

(** ** Exceptions and the error monad *)

(** [Unmodelled] marks an operation applied to a column kind that the
    pipeline never applies it to (for instance a division of date
    columns), or an exception whose class is not modelled: no claim is
    made about what pandas does there. *)
Inductive exn := ValueError | TypeError | KeyError | Unmodelled.

Inductive result (A : Type) :=
  | Ok (a : A)
  | Raise (e : exn).
Arguments Ok {A} a.
Arguments Raise {A} e.

Definition bind {A B} (r : result A) (k : A -> result B) : result B :=
  match r with
  | Ok a => k a
  | Raise e => Raise e
  end.

Notation "'do' x <- r ; k" := (bind r (fun x => k))
  (at level 10, x name, r at level 100, k at level 200).

(** ** Columns and tables *)

Record date := mkdate { dyear : Z; dmonth : Z; dday : Z }.

(** A column with its dtype.  [Int64] holds integers of the [int64]
    range and [Float64] binary64 values, NaN standing for a missing
    cell.  Text columns ([object]) hold [None] where the cell is
    missing; [NullableInt] is pandas' [Int64] extension type with [None]
    for [pd.NA]; [Datetime] holds [None] for [NaT]. *)
Inductive series :=
  | Int64 (v : list Z)
  | Float64 (v : list spec_float)
  | Object (v : list (option string))
  | NullableInt (v : list (option Z))
  | Datetime (v : list (option date))
  | Boolean (v : list bool).

Definition series_len (s : series) : nat :=
  match s with
  | Int64 v => length v
  | Float64 v => length v
  | Object v => length v
  | NullableInt v => length v
  | Datetime v => length v
  | Boolean v => length v
  end.

(** A DataFrame: the number of rows and the labelled columns in order. *)
Record frame := mkframe { nrows : nat; cols : list (string * series) }.

Definition columns (df : frame) : list string := fmap fst (cols df).

Fixpoint assoc (c : string) (l : list (string * series)) : option series :=
  match l with
  | [] => None
  | (k, v) :: r => if String.eqb c k then Some v else assoc c r
  end.

(** Assignment to a label replaces the column in place when the label
    exists and appends a new column otherwise. *)
Fixpoint assign (c : string) (v : series) (l : list (string * series))
  : list (string * series) :=
  match l with
  | [] => [(c, v)]
  | (k, w) :: r =>
      if String.eqb c k then (k, v) :: r else (k, w) :: assign c v r
  end.

(** [c in df.columns] *)
Definition has_col (df : frame) (c : string) : bool :=
  match assoc c (cols df) with Some _ => true | None => false end.

(** [set(names).issubset(df.columns)] and [all(c in df.columns for c in names)] *)
Definition issubset (names : list string) (df : frame) : bool :=
  forallb (has_col df) names.

(** [df[c]] *)
Definition getitem (c : string) (df : frame) : result series :=
  match assoc c (cols df) with
  | Some s => Ok s
  | None => Raise KeyError
  end.

(** [df[c] = s] *)
Definition setitem (c : string) (s : series) (df : frame) : frame :=
  {| nrows := nrows df; cols := assign c s (cols df) |}.

(** The invariant of a table: its labels are distinct, so that [df[c]]
    is one column, and every column has one entry per row.  The model
    speaks of such tables only. *)
Definition wf_frame (df : frame) : Prop :=
  NoDup (columns df) /\
  Forall (fun cs => series_len (snd cs) = nrows df) (cols df).

Fixpoint mapR {A B} (f : A -> result B) (l : list A) : result (list B) :=
  match l with
  | [] => Ok []
  | a :: r => do b <- f a; do bs <- mapR f r; Ok (b :: bs)
  end.

Fixpoint all_some {A} (l : list (option A)) : option (list A) :=
  match l with
  | [] => Some []
  | Some a :: r =>
      match all_some r with Some t => Some (a :: t) | None => None end
  | None :: _ => None
  end.

(** ** numpy and pandas operations on columns *)

(** [s.astype(float)] on the numeric kinds. *)
Definition astype_float (s : series) : result (list spec_float) :=
  match s with
  | Int64 v => Ok (fmap F64.of_int v)
  | Float64 v => Ok v
  | _ => Raise Unmodelled
  end.

(** [den == c] *)
Definition eq_scalar (d : list spec_float) (c : spec_float) : list bool :=
  fmap (fun y => F64.eqb y c) d.

(** [num / den] *)
Definition true_divide (n d : list spec_float) : list spec_float :=
  zip_with F64.div n d.

(** [np.where(cond, a, b)] with a scalar [a] *)
Definition np_where (cond : list bool) (a : spec_float) (b : list spec_float)
  : list spec_float :=
  zip_with (fun (c : bool) y => if c then a else y) cond b.

(** [safe_div] (lines 32-37).  [np.errstate] only silences the warnings
    of the quotient, which is computed at every position before
    [np.where] selects. *)
Definition safe_div (num den : series) : result series :=
  do n <- astype_float num;
  do d <- astype_float den;
  Ok (Float64 (np_where (eq_scalar d F64.zero) F64.nan (true_divide n d))).

(** [a + b]: [int64] addition wraps; a float operand promotes the sum. *)
Definition series_add (a b : series) : result series :=
  match a, b with
  | Int64 x, Int64 y => Ok (Int64 (zip_with (fun p q => wrap64 (p + q)) x y))
  | _, _ =>
      do x <- astype_float a;
      do y <- astype_float b;
      Ok (Float64 (zip_with F64.add x y))
  end.

(** [a > b] *)
Definition series_gt (a b : series) : result series :=
  match a, b with
  | Int64 x, Int64 y => Ok (Boolean (zip_with Z.gtb x y))
  | _, _ =>
      do x <- astype_float a;
      do y <- astype_float b;
      Ok (Boolean (zip_with (fun p q => F64.ltb q p) x y))
  end.

Definition as_int64 (s : series) : option (list Z) :=
  match s with Int64 v => Some v | _ => None end.

Definition nan_to_zero (x : spec_float) : spec_float :=
  if F64.isnan x then F64.zero else x.

Definition row_sum_int (n : nat) (cs : list (list Z)) : list Z :=
  fold_left (fun acc c => zip_with (fun a x => wrap64 (a + x)) acc c)
            cs (replicate n 0).

Definition row_sum_float (n : nat) (cs : list (list spec_float))
  : list spec_float :=
  fold_left (fun acc c => zip_with F64.add acc (fmap nan_to_zero c))
            cs (replicate n F64.zero).

(** [df[names].sum(axis=1)] over [n] rows: an all-[int64] selection is
    summed in [int64]; otherwise the cells are cast to float and a
    missing cell counts for zero ([skipna]).  The columns are added from
    left to right. *)
Definition sum_axis1 (n : nat) (sel : list series) : result series :=
  match all_some (fmap as_int64 sel) with
  | Some cs => Ok (Int64 (row_sum_int n cs))
  | None => do fs <- mapR astype_float sel; Ok (Float64 (row_sum_float n fs))
  end.

(** [int(flag.sum())] *)
Definition count_true (s : series) : result Z :=
  match s with
  | Boolean v => Ok (Z.of_nat (length (filter (fun b => b = true) v)))
  | _ => Raise Unmodelled
  end.

(** [s.fillna(0)] *)
Definition fillna_zero (s : series) : result series :=
  match s with
  | Int64 _ => Ok s
  | Float64 v => Ok (Float64 (fmap nan_to_zero v))
  | _ => Raise Unmodelled
  end.

(** The value lies strictly between [-2^63] and [2^63]. *)
Definition within_int64 (x : spec_float) : bool :=
  F64.ltb (F64.of_int (- 2 ^ 63)) x && F64.ltb x (F64.of_int (2 ^ 63)).

(** [s.astype("Int64")]: a missing float becomes [pd.NA]; a float that
    is not an integer of the [int64] range cannot be cast.  A fractional
    value of that range cannot be cast safely ([TypeError]); on an
    infinity, or a finite value outside the range, pandas raises
    [OverflowError] or [TypeError] depending on the other values of the
    column and on its version, and the class is left unmodelled. *)
Definition nullable_cell (x : spec_float) : result (option Z) :=
  if F64.isnan x then Ok None
  else match F64.to_int_exact x with
       | Some z => Ok (Some z)
       | None => if within_int64 x then Raise TypeError else Raise Unmodelled
       end.

Definition astype_Int64 (s : series) : result series :=
  match s with
  | Int64 v => Ok (NullableInt (fmap Some v))
  | Float64 v => do l <- mapR nullable_cell v; Ok (NullableInt l)
  | _ => Raise Unmodelled
  end.

(** [s.astype("int")]: a [pd.NA] cannot be converted. *)
Definition astype_int (s : series) : result (list Z) :=
  match s with
  | Int64 v => Ok v
  | NullableInt v =>
      match all_some v with
      | Some zs => Ok zs
      | None => Raise ValueError
      end
  | _ => Raise Unmodelled
  end.

(** [str(z)] *)
Definition str_of_int (z : Z) : string :=
  NilEmpty.string_of_int (Z.to_int z).

(** [s.zfill(width)] for a string without sign *)
Definition zfill (width : nat) (s : string) : string :=
  (string_of_list_ascii (repeat "0"%char (width - String.length s)) ++ s)%string.

(** [ts.strftime("%Y-%m")] *)
Definition strftime_Ym (d : date) : string :=
  (zfill 4 (str_of_int (dyear d)) ++ "-" ++ zfill 2 (str_of_int (dmonth d)))%string.

(** ** Stand-ins for the library functions

    Small executable instances of the functions the pipeline is embedded
    over, used to run it on concrete tables. *)
Module Demo.

(** Decimal integers only: an optional sign and at least one digit. *)
Definition parse_number (s : string) : option num :=
  match s with
  | EmptyString | "-"%string => None
  | _ => option_map (fun d => NInt (Z.of_int d)) (NilEmpty.int_of_string s)
  end.

Definition digits_in (lo hi : Z) (s : string) : option Z :=
  match s with
  | EmptyString => None
  | _ =>
      match NilEmpty.uint_of_string s with
      | Some d =>
          let z := Z.of_uint d in
          if (lo <=? z) && (z <=? hi) then Some z else None
      | None => None
      end
  end.

(** Dates written [Y-M-D] with a year of the nanosecond timestamp range
    and a day every month has. *)
Definition parse_date (s : string) : option date :=
  match PyStr.split (PyStr.replace "-" " " s) with
  | [y; m; d] =>
      match digits_in 1678 2261 y, digits_in 1 12 m, digits_in 1 28 d with
      | Some y, Some m, Some d => Some (mkdate y m d)
      | _, _, _ => None
      end
  | _ => None
  end.

Definition to_datetime (texts : list string) : list (option date) :=
  parse_date <$> texts.

(** The nearest integer, ties to even, of a finite value. *)
Definition rint (x : spec_float) : spec_float :=
  match x with
  | S754_finite s m e =>
      if 0 <=? e then x
      else
        let d := 2 ^ (- e) in
        let q := Zpos m / d in
        let r := Zpos m mod d in
        let z := match 2 * r ?= d with
                 | Lt => q
                 | Gt => q + 1
                 | Eq => if Z.even q then q else q + 1
                 end in
        binary_normalize F64.prec F64.emax (if s then - z else z) 0 s
  | _ => x
  end.

(** numpy's rounding of a scalar: scale, round to an integer, scale back. *)
Definition round_ndigits (x : spec_float) (n : Z) : spec_float :=
  let p := F64.of_int (10 ^ n) in
  F64.div (rint (F64.mul x p)) p.

(** A generator that counts its draws and shuffles by rotation. *)
Definition rng : Type := nat.
Definition rng_seed (z : Z) : rng := Z.to_nat z.
Definition rng_permutation (g : rng) (n : nat) : list nat * rng :=
  (rotate g (seq 0 n), S g).

(** A table whose second row has no year. *)
Definition missing_year_table : frame :=
  mkframe 2 [("year"%string, Float64 [F64.of_int 2023; F64.nan]);
             ("month"%string, Int64 [1; 2])].

(** A table that already carries a rate column, with both of the
    columns the rate is derived from. *)
Definition rerun_table : frame :=
  mkframe 1 [("arr_del15"%string, Int64 [1]); ("arr_flights"%string, Int64 [2]);
             ("delayed_rate"%string, Object [Some "n/a"%string])].

(** A table that carries a rate column and none of its sources. *)
Definition rate_only_table : frame :=
  mkframe 1 [("delayed_rate"%string, Object [Some "n/a"%string])].

(** Count columns as type coercion leaves them. *)
Definition counts_table : frame :=
  mkframe 2
    [("arr_flights", Int64 [100; 0]); ("arr_del15", Int64 [20; 0]);
     ("arr_cancelled", Int64 [5; 0]);
     ("arr_diverted", Float64 [F64.zero; F64.zero]);
     ("carrier_ct", Int64 [10; 1]); ("weather_ct", Int64 [5; 0]);
     ("nas_ct", Int64 [3; 0]); ("security_ct", Int64 [0; 0]);
     ("late_aircraft_ct", Int64 [2; 0])]%string.

(** The five cause-count columns of [counts_table]. *)
Definition cause_counts : list series :=
  [Int64 [10; 1]; Int64 [5; 0]; Int64 [3; 0]; Int64 [0; 0]; Int64 [2; 0]].

(** The row of the end-to-end scenario, and a row without flights. *)
Definition scenario_table : frame :=
  mkframe 2
    [("Year", Int64 [2023; 2023]); ("Month", Int64 [1; 2]);
     ("arr_flights", Int64 [100; 0]); ("arr_del15", Int64 [20; 0]);
     ("arr_cancelled", Int64 [5; 0]); ("arr_diverted", Int64 [0; 0]);
     ("carrier_ct", Int64 [10; 1]); ("weather_ct", Int64 [5; 0]);
     ("nas_ct", Int64 [3; 0]); ("security_ct", Int64 [0; 0]);
     ("late_aircraft_ct", Int64 [2; 0]);
     ("arr_delay", Object [Some "500"; Some "unknown"]);
     ("carrier_delay", Int64 [200; 0]); ("weather_delay", Int64 [100; 0]);
     ("nas_delay", Int64 [100; 0]); ("security_delay", Int64 [0; 0]);
     ("late_aircraft_delay", Int64 [100; 0])]%string.

End Demo.

(** Further tables on which the stages are run. *)
Module Cases.

(** A table whose year is not a whole number. *)
Definition fractional_year_table : frame :=
  mkframe 1 [("year"%string, Float64 [F64.div (F64.of_int 4047) (F64.of_int 2)]);
             ("month"%string, Int64 [1])].

(** [year] and [month] as type coercion leaves them when the second row
    has no year. *)
Definition coerced_missing_year_table : frame :=
  mkframe 2 [("year"%string, NullableInt [Some 2023; None]);
             ("month"%string, NullableInt [Some 1; Some 2])].

(** The binary64 value nearest to the decimal [a / b], for integers
    [a] and [b] that binary64 holds exactly. *)
Definition decimal (a b : Z) : spec_float :=
  F64.div (F64.of_int a) (F64.of_int b).

(** One row of two-decimal cause counts, 2.29, 19.7, 14.93, 23.34 and
    0.74, against 61 delayed flights. *)
Definition rounding_counts : list series :=
  [Float64 [decimal 229 100]; Float64 [decimal 197 10];
   Float64 [decimal 1493 100]; Float64 [decimal 2334 100];
   Float64 [decimal 74 100]].

Definition rounding_table : frame :=
  mkframe 1
    [("carrier_ct", Float64 [decimal 229 100]);
     ("weather_ct", Float64 [decimal 197 10]);
     ("nas_ct", Float64 [decimal 1493 100]);
     ("security_ct", Float64 [decimal 2334 100]);
     ("late_aircraft_ct", Float64 [decimal 74 100]);
     ("arr_del15", Int64 [61])]%string.

End Cases.

(** ** The script

    The scalar parsers of pandas, Python's [round] and numpy's generator
    are library code: the pipeline is embedded over them. *)
Section Pipeline.

Set Default Proof Using "Type".

(** [pd.to_numeric] on one text cell; [None] when it is not a number. *)
Variable parse_number : string -> option num.
(** [pd.to_datetime(texts, errors="coerce")] on a column of text, with
    [None] where a text is not a date; it returns one entry per text. *)
Variable to_datetime : list string -> list (option date).
Hypothesis to_datetime_length :
  forall texts, length (to_datetime texts) = length texts.
(** [round(x, ndigits)] on a binary64 value. *)
Variable round_ndigits : spec_float -> Z -> spec_float.
(** [numpy.random.RandomState]: seeding, and a shuffled [range(n)]. *)
Variable rng : Type.
Variable rng_seed : Z -> rng.
Variable rng_permutation : rng -> nat -> list nat * rng.

(** *** 2) Standardize column names (line 48) *)
Definition rename_columns (df : frame) : frame :=
  {| nrows := nrows df;
     cols := fmap (fun cs : string * series => (to_snake (fst cs), snd cs)) (cols df) |}.

(** *** 3) Convert data types and handle missing values (lines 55-73) *)

Definition count_cols : list string :=
  ["arr_flights"; "arr_del15"; "carrier_ct"; "weather_ct"; "nas_ct";
   "security_ct"; "late_aircraft_ct"; "arr_cancelled"; "arr_diverted"]%string.

Definition delay_min_cols : list string :=
  ["arr_delay"; "carrier_delay"; "weather_delay"; "nas_delay";
   "security_delay"; "late_aircraft_delay"]%string.

Definition parsed_cell (o : option string) : option num :=
  match o with
  | Some s => parse_number s
  | None => None
  end.

Definition as_int (o : option num) : option Z :=
  match o with Some (NInt z) => Some z | _ => None end.

Definition cell_float (o : option num) : spec_float :=
  match o with
  | Some n => num_to_float n
  | None => F64.nan
  end.

(** [pd.to_numeric(s, errors="coerce")]: a text column becomes [int64]
    when every cell parses to an integer, and [float64] with NaN at the
    unparseable and missing cells otherwise. *)
Definition to_numeric (s : series) : result series :=
  match s with
  | Int64 _ | Float64 _ => Ok s
  | Object v =>
      let p := fmap parsed_cell v in
      match all_some (fmap as_int p) with
      | Some zs => Ok (Int64 zs)
      | None => Ok (Float64 (fmap cell_float p))
      end
  | _ => Raise Unmodelled
  end.

(** [for col in names: if col in df.columns: df[col] = f(df[col])] *)
Fixpoint for_present (f : series -> result series) (names : list string)
  (df : frame) : result frame :=
  match names with
  | [] => Ok df
  | col :: rest =>
      if has_col df col then
        do s <- getitem col df;
        do s' <- f s;
        for_present f rest (setitem col s' df)
      else for_present f rest df
  end.

Definition coerce_count (s : series) : result series :=
  do n <- to_numeric s; fillna_zero n.

Definition coerce_calendar (s : series) : result series :=
  do n <- to_numeric s; astype_Int64 n.

Definition coerce_counts (df : frame) : result frame :=
  for_present coerce_count (count_cols ++ delay_min_cols) df.

Definition coerce_year_month (df : frame) : result frame :=
  for_present coerce_calendar ["year"; "month"]%string df.

Definition type_coerce (df : frame) : result frame :=
  do df <- coerce_counts df; coerce_year_month df.

(** *** 4) Feature engineering (lines 80-111) *)

(** [.dt.strftime("%Y-%m")] *)
Definition dt_strftime_Ym (s : series) : result series :=
  match s with
  | Datetime v => Ok (Object (fmap (option_map strftime_Ym) v))
  | _ => Raise Unmodelled
  end.

Definition first_of_month (y m : Z) : string :=
  (str_of_int y ++ "-" ++ str_of_int m ++ "-01")%string.

Definition derive_year_month (df : frame) : result frame :=
  if issubset ["year"; "month"]%string df then
    do y <- getitem "year" df;
    do yi <- astype_int y;
    do m <- getitem "month" df;
    do mi <- astype_int m;
    let df := setitem "year_month"
                (Datetime (to_datetime (zip_with first_of_month yi mi))) df in
    do ym <- getitem "year_month" df;
    do key <- dt_strftime_Ym ym;
    Ok (setitem "year_month_key" key df)
  else Ok df.

Definition derive_delayed_rate (df : frame) : result frame :=
  if issubset ["arr_del15"; "arr_flights"]%string df then
    do a <- getitem "arr_del15" df;
    do b <- getitem "arr_flights" df;
    do r <- safe_div a b;
    Ok (setitem "delayed_rate" r df)
  else Ok df.

Definition derive_cancellation_rate (df : frame) : result frame :=
  if issubset ["arr_flights"; "arr_cancelled"; "arr_diverted"]%string df then
    do f <- getitem "arr_flights" df;
    do c <- getitem "arr_cancelled" df;
    do fc <- series_add f c;
    do d <- getitem "arr_diverted" df;
    do total_handled <- series_add fc d;
    do c' <- getitem "arr_cancelled" df;
    do r <- safe_div c' total_handled;
    Ok (setitem "cancellation_rate" r df)
  else Ok df.

Definition derive_avg_delay (df : frame) : result frame :=
  if issubset ["arr_delay"; "arr_del15"]%string df then
    do a <- getitem "arr_delay" df;
    do b <- getitem "arr_del15" df;
    do r <- safe_div a b;
    Ok (setitem "avg_delay_min_per_delayed_flight" r df)
  else Ok df.

Definition causes : list string :=
  ["carrier"; "weather"; "nas"; "security"; "late_aircraft"]%string.

Definition derive_cause_share_ct (cause : string) (df : frame) : result frame :=
  let ct := (cause ++ "_ct")%string in
  if issubset ["arr_del15"%string; ct] df then
    do a <- getitem ct df;
    do b <- getitem "arr_del15" df;
    do r <- safe_div a b;
    Ok (setitem (cause ++ "_cause_share_ct")%string r df)
  else Ok df.

Definition derive_cause_share_min (cause : string) (df : frame) : result frame :=
  let dmin := (cause ++ "_delay")%string in
  if issubset ["arr_delay"%string; dmin] df then
    do a <- getitem dmin df;
    do b <- getitem "arr_delay" df;
    do r <- safe_div a b;
    Ok (setitem (cause ++ "_cause_share_min")%string r df)
  else Ok df.

(** [for x in l: body(x)] on the table *)
Fixpoint for_each {A} (body : A -> frame -> result frame) (l : list A)
  (df : frame) : result frame :=
  match l with
  | [] => Ok df
  | x :: rest => do df' <- body x df; for_each body rest df'
  end.

Definition kpi_derive (df : frame) : result frame :=
  do df <- derive_year_month df;
  do df <- derive_delayed_rate df;
  do df <- derive_cancellation_rate df;
  do df <- derive_avg_delay df;
  do df <- for_each derive_cause_share_ct causes df;
  for_each derive_cause_share_min causes df.

(** *** 5) Data quality checks (lines 118-123) *)

Definition cause_ct_cols : list string :=
  ["carrier_ct"; "weather_ct"; "nas_ct"; "security_ct"; "late_aircraft_ct"]%string.

(** The table and the [checks] dictionary after the check. *)
Definition quality_check (df : frame) : result (frame * list (string * Z)) :=
  let req := cause_ct_cols ++ ["arr_del15"%string] in
  if issubset req df then
    do sel <- mapR (fun c => getitem c df) cause_ct_cols;
    do cause_sum <- sum_axis1 (nrows df) sel;
    do del <- getitem "arr_del15" df;
    do flag <- series_gt cause_sum del;
    let df := setitem "cause_counts_exceed_delayed_flag" flag df in
    do col <- getitem "cause_counts_exceed_delayed_flag" df;
    do n <- count_true col;
    Ok (df, [("rows_where_cause_counts_exceed_delayed"%string, n)])
  else Ok (df, []).

(** *** 6) Save outputs (lines 130-142) *)

(** The rows at positions [idx], in that order. *)
Definition take_at {A} (idx : list nat) (l : list A) : list A :=
  omap (fun i => l !! i) idx.

Definition take_rows (idx : list nat) (s : series) : series :=
  match s with
  | Int64 v => Int64 (take_at idx v)
  | Float64 v => Float64 (take_at idx v)
  | Object v => Object (take_at idx v)
  | NullableInt v => NullableInt (take_at idx v)
  | Datetime v => Datetime (take_at idx v)
  | Boolean v => Boolean (take_at idx v)
  end.

(** [df.sample(k, random_state=...)], without replacement: the first [k]
    entries of a shuffled [range(len(df))].  A seed builds a generator of
    its own; without one the ambient generator [g] is drawn from and
    advanced.  Asking for more rows than there are is an error. *)
Definition sample (k : nat) (random_state : option Z) (df : frame) (g : rng)
  : result frame * rng :=
  if (nrows df <? k)%nat then (Raise ValueError, g)
  else
    let '(perm, g') :=
      match random_state with
      | Some seed => (fst (rng_permutation (rng_seed seed) (nrows df)), g)
      | None => rng_permutation g (nrows df)
      end in
    let idx := firstn k perm in
    (Ok {| nrows := length idx;
           cols := fmap (fun cs : string * series =>
                          (fst cs, take_rows idx (snd cs))) (cols df) |}, g').

Inductive dtype := int64 | float64 | object | Int64_ext | datetime64 | bool_.

Definition dtype_of (s : series) : dtype :=
  match s with
  | Int64 _ => int64
  | Float64 _ => float64
  | Object _ => object
  | NullableInt _ => Int64_ext
  | Datetime _ => datetime64
  | Boolean _ => bool_
  end.

Inductive scalar :=
  | VInt (z : Z)
  | VFloat (x : spec_float)
  | VStr (s : string)
  | VDate (d : date)
  | VBool (b : bool).

Definition float_cell (x : spec_float) : option scalar :=
  if F64.isnan x then None else Some (VFloat x).

(** The cells of a column, [None] where [isna] holds. *)
Definition cells (s : series) : list (option scalar) :=
  match s with
  | Int64 v => fmap (fun z => Some (VInt z)) v
  | Float64 v => fmap float_cell v
  | Object v => fmap (option_map VStr) v
  | NullableInt v => fmap (option_map VInt) v
  | Datetime v => fmap (option_map VDate) v
  | Boolean v => fmap (fun b => Some (VBool b)) v
  end.

Definition is_none {A} (o : option A) : bool :=
  match o with None => true | Some _ => false end.

(** [df[c].isna().mean()]: the quotient of two counts, NaN on no rows. *)
Definition isna_mean (s : series) : spec_float :=
  F64.div (F64.of_int (Z.of_nat (length (filter (fun o => is_none o = true) (cells s)))))
          (F64.of_int (Z.of_nat (length (cells s)))).

(** [df[c].dropna().iloc[0] if df[c].notna().any() else None] *)
Fixpoint first_some {A} (l : list (option A)) : option A :=
  match l with
  | [] => None
  | Some a :: _ => Some a
  | None :: r => first_some r
  end.

Record dict_row := mkrow
  { d_column : string; d_dtype : dtype;
    d_null_pct : spec_float; d_example : option scalar }.

Definition describe (cs : string * series) : dict_row :=
  {| d_column := fst cs;
     d_dtype := dtype_of (snd cs);
     d_null_pct := round_ndigits (F64.mul (isna_mean (snd cs)) (F64.of_int 100)) 2;
     d_example := first_some (cells (snd cs)) |}.

Fixpoint insert_row (r : dict_row) (l : list dict_row) : list dict_row :=
  match l with
  | [] => [r]
  | x :: t =>
      if String.leb (d_column r) (d_column x) then r :: l
      else x :: insert_row r t
  end.

(** [.sort_values("column")] *)
Definition sort_by_column (l : list dict_row) : list dict_row :=
  fold_right insert_row [] l.

Definition data_dictionary (df : frame) : list dict_row :=
  sort_by_column (fmap describe (cols df)).

(** What one run leaves behind: the three files and the reported checks. *)
Record artifacts := mkartifacts
  { cleaned : frame; sampled : frame;
    dictionary : list dict_row; checks : list (string * Z) }.

(** Stages 2 to 5 on the table read from the raw file. *)
Definition clean (raw : frame) : result (frame * list (string * Z)) :=
  do df <- type_coerce (rename_columns raw);
  do df <- kpi_derive df;
  quality_check df.

(** The whole script, from the table read to the artifacts written; [g]
    is the state of numpy's global generator when the script starts. *)
Definition run (raw : frame) (g : rng) : result artifacts * rng :=
  match clean raw with
  | Raise e => (Raise e, g)
  | Ok (df, chk) =>
      match sample (Nat.min (nrows df) 500) (Some 42) df g with
      | (Ok smp, g') =>
          (Ok {| cleaned := df; sampled := smp;
                 dictionary := data_dictionary df; checks := chk |}, g')
      | (Raise e, g') => (Raise e, g')
      end
  end.

(** ** Row-wise reading of a table

    The specification speaks of the value of a column at a row; these
    definitions read a typed column cell by cell. *)

Definition is_numeric (s : series) : bool :=
  match s with Int64 _ | Float64 _ => true | _ => false end.

(** The numeric value of row [i] of a numeric column. *)
Definition cell_num (s : series) (i : nat) : option num :=
  match s with
  | Int64 v => NInt <$> v !! i
  | Float64 v => NFloat <$> v !! i
  | _ => None
  end.

(** The cell is exactly zero: the integer 0, or a float zero of either
    sign. *)
Definition num_is_zero (b : num) : bool :=
  match b with
  | NInt z => z =? 0
  | NFloat x => F64.is_zero x
  end.

(** SafeRatio on one pair of values, in the words of the specification:
    undefined on a zero denominator, the floating-point quotient
    otherwise. *)
Definition safe_ratio (a b : num) : spec_float :=
  if F64.is_zero (num_to_float b) then F64.nan
  else F64.div (num_to_float a) (num_to_float b).

(** The sum of two cells: [int64] with wrap-around when both are
    integers, binary64 otherwise. *)
Definition num_add (a b : num) : num :=
  match a, b with
  | NInt x, NInt y => NInt (wrap64 (x + y))
  | _, _ => NFloat (F64.add (num_to_float a) (num_to_float b))
  end.

Definition num_int (n : num) : option Z :=
  match n with NInt z => Some z | NFloat _ => None end.

(** The sum of the cells of one row: in [int64] when all are integers,
    in binary64 otherwise, a missing cell counting for zero. *)
Definition sum_cells (vals : list num) : num :=
  match all_some (num_int <$> vals) with
  | Some zs => NInt (fold_left (fun a x => wrap64 (a + x)) zs 0)
  | None =>
      NFloat (fold_left (fun a x => F64.add a (nan_to_zero (num_to_float x)))
                        vals F64.zero)
  end.

(** [a > b] on two cells. *)
Definition num_gt (a b : num) : bool :=
  match a, b with
  | NInt x, NInt y => Z.gtb x y
  | _, _ => F64.ltb (num_to_float b) (num_to_float a)
  end.

(** The cells of row [i] in a selection of columns. *)
Definition row_cells (sel : list series) (i : nat) : option (list num) :=
  all_some ((fun s => cell_num s i) <$> sel).

(** Row [i] is inconsistent: its cause counts sum to strictly more than
    its count of delayed flights. *)
Definition exceeds_at (cts : list series) (del : series) (i : nat) : bool :=
  match row_cells cts i, cell_num del i with
  | Some vals, Some d => num_gt (sum_cells vals) d
  | _, _ => false
  end.

(** The number of rows among the first [n] that satisfy [p]. *)
Definition count_rows (n : nat) (p : nat -> bool) : nat :=
  length (List.filter p (seq 0 n)).

(** The same flag in exact arithmetic, as the specification words it:
    the five cause counts of the row, added without rounding or
    wrap-around, exceed its count of delayed flights.  An integer or a
    finite binary64 value is the dyadic number [m * 2^e]. *)
Definition dyadic : Type := (Z * Z)%type.

Definition dyadic_of_num (n : num) : option dyadic :=
  match n with
  | NInt z => Some (z, 0)
  | NFloat (S754_zero _) => Some (0, 0)
  | NFloat (S754_finite s m e) => Some (if s then Zneg m else Zpos m, e)
  | NFloat _ => None
  end.

Definition dyadic_add (a b : dyadic) : dyadic :=
  let e := Z.min (snd a) (snd b) in
  (fst a * 2 ^ (snd a - e) + fst b * 2 ^ (snd b - e), e).

Definition dyadic_ltb (a b : dyadic) : bool :=
  let e := Z.min (snd a) (snd b) in
  fst a * 2 ^ (snd a - e) <? fst b * 2 ^ (snd b - e).

Definition exact_sum (vals : list num) : option dyadic :=
  option_map (fun ds => fold_left dyadic_add ds (0, 0))
             (all_some (dyadic_of_num <$> vals)).

Definition exceeds_exactly_at (cts : list series) (del : series) (i : nat)
  : bool :=
  match row_cells cts i, cell_num del i with
  | Some vals, Some d =>
      match exact_sum vals, dyadic_of_num d with
      | Some s, Some t => dyadic_ltb t s
      | _, _ => false
      end
  | _, _ => false
  end.

(** A column as [read_csv] types it: integers, floats or text. *)
Definition is_raw (s : series) : bool :=
  match s with Int64 _ | Float64 _ | Object _ => true | _ => false end.

(** Row [i] of a raw column is missing or is not a number. *)
Definition unparseable_at (s : series) (i : nat) : bool :=
  match s with
  | Float64 v => match v !! i with Some x => F64.isnan x | None => false end
  | Object v =>
      match v !! i with Some o => is_none (parsed_cell o) | None => false end
  | _ => false
  end.

(** The column is numeric and none of its entries is missing. *)
Definition holds_numbers (s : series) : Prop :=
  match s with
  | Int64 _ => True
  | Float64 v => Forall (fun x => F64.isnan x = false) v
  | _ => False
  end.

(** A numeric column of [n] rows. *)
Definition numeric_of_len (n : nat) (s : series) : Prop :=
  is_numeric s = true /\ series_len s = n.

(** *** The enrichment passes as a family

    Each [if]-guarded block of stages 4 and 5 is one pass, with the
    columns it reads and the columns it assigns. *)
Inductive pass :=
  | YearMonth
  | DelayedRate
  | CancellationRate
  | AvgDelay
  | CauseShareCt (cause : string)
  | CauseShareMin (cause : string)
  | Quality.

Definition run_pass (p : pass) (df : frame) : result frame :=
  match p with
  | YearMonth => derive_year_month df
  | DelayedRate => derive_delayed_rate df
  | CancellationRate => derive_cancellation_rate df
  | AvgDelay => derive_avg_delay df
  | CauseShareCt cause => derive_cause_share_ct cause df
  | CauseShareMin cause => derive_cause_share_min cause df
  | Quality => do r <- quality_check df; Ok (fst r)
  end.

Definition sources (p : pass) : list string :=
  match p with
  | YearMonth => ["year"; "month"]
  | DelayedRate => ["arr_del15"; "arr_flights"]
  | CancellationRate => ["arr_flights"; "arr_cancelled"; "arr_diverted"]
  | AvgDelay => ["arr_delay"; "arr_del15"]
  | CauseShareCt cause => ["arr_del15"; cause ++ "_ct"]
  | CauseShareMin cause => ["arr_delay"; cause ++ "_delay"]
  | Quality => (cause_ct_cols ++ ["arr_del15"])%list
  end%string.

Definition derived (p : pass) : list string :=
  match p with
  | YearMonth => ["year_month"; "year_month_key"]
  | DelayedRate => ["delayed_rate"]
  | CancellationRate => ["cancellation_rate"]
  | AvgDelay => ["avg_delay_min_per_delayed_flight"]
  | CauseShareCt cause => [cause ++ "_cause_share_ct"]
  | CauseShareMin cause => [cause ++ "_cause_share_min"]
  | Quality => ["cause_counts_exceed_delayed_flag"]
  end%string.

(** The rules of the KPI stage in the order the script runs them. *)
Definition kpi_passes : list pass :=
  [YearMonth; DelayedRate; CancellationRate; AvgDelay]
  ++ (CauseShareCt <$> causes) ++ (CauseShareMin <$> causes).

(** Stages 4 and 5 together. *)
Definition enrich (df : frame) : result (frame * list (string * Z)) :=
  do df <- kpi_derive df; quality_check df.

(** [df'] is [df] with columns labelled in [names] assigned: the row
    count and every other column are those of [df], and the labels of
    [df] keep their places, new ones coming after them. *)
Definition assigns (names : list string) (df df' : frame) : Prop :=
  nrows df' = nrows df /\
  (forall c, c ∉ names -> assoc c (cols df') = assoc c (cols df)) /\
  exists new, columns df' = columns df ++ new /\
    forall c, c ∈ new -> c ∈ names /\ c ∉ columns df.

(** ** Further readings of the stages *)

(** The rules that are one [safe_div] of two columns (lines 89-90, 98-99,
    102-105 and 108-111): the label of the numerator, of the denominator
    and the label assigned. *)
Definition ratio_rule (p : pass) : option (string * string * string) :=
  match p with
  | DelayedRate => Some ("arr_del15", "arr_flights", "delayed_rate")
  | AvgDelay =>
      Some ("arr_delay", "arr_del15", "avg_delay_min_per_delayed_flight")
  | CauseShareCt cause =>
      Some (cause ++ "_ct", "arr_del15", cause ++ "_cause_share_ct")
  | CauseShareMin cause =>
      Some (cause ++ "_delay", "arr_delay", cause ++ "_cause_share_min")
  | _ => None
  end%string.

(** The number that row [i] of a raw column holds or parses to. *)
Definition parsed_at (s : series) (i : nat) : option num :=
  match s with
  | Int64 v => NInt <$> v !! i
  | Float64 v => NFloat <$> v !! i
  | Object v => v !! i ≫= parsed_cell
  | _ => None
  end.

(** The value is an infinity of either sign. *)
Definition is_infinite (x : spec_float) : bool :=
  match x with S754_infinity _ => true | _ => false end.

(** The labels are in ascending order: each is at most the next. *)
Fixpoint labels_ascend (l : list string) : bool :=
  match l with
  | a :: t =>
      match t with
      | b :: _ => String.leb a b && labels_ascend t
      | [] => true
      end
  | [] => true
  end.

(** Labels are compared by decidable equality. *)
#[local] Instance string_eq_dec : EqDecision string := String.string_dec.

Local Close Scope Z_scope.

(** ** Properties *)

(** *** Column labels *)

Example to_snake_spaces :
  to_snake "  Arr Flights "%string = "arr_flights"%string.
Proof. reflexivity. Qed.

Example to_snake_separators :
  to_snake "carrier-ct/Total.Min"%string = "carrier_ct_total_min"%string.
Proof. reflexivity. Qed.

Example to_snake_fixed_point :
  to_snake "late_aircraft_delay"%string = "late_aircraft_delay"%string.
Proof. reflexivity. Qed.

(** C3 (NameNormalizer is idempotent) fails on the label [Delay (%)]: the
    three punctuation marks become three underscores, the single pass of
    [replace("__", "_")] leaves two of them, and joining the words then
    yields [delay___]; a second normalization shortens that run again, so
    the normalized label is not a fixed point. *)
Theorem to_snake_not_idempotent_at_delay_pct :
  to_snake "Delay (%)"%string = "delay___"%string /\
  to_snake (to_snake "Delay (%)"%string) = "delay__"%string /\
  to_snake (to_snake "Delay (%)"%string) <> to_snake "Delay (%)"%string.
Proof. repeat split; try reflexivity. vm_compute. discriminate. Qed.

Example str_of_int_samples :
  str_of_int 2023 = "2023"%string /\ str_of_int 0 = "0"%string /\
  str_of_int (-7) = "-7"%string /\
  strftime_Ym (mkdate 2023 1 1) = "2023-01"%string.
Proof. repeat split; reflexivity. Qed.

(** *** Integers cast to binary64

    Rounding an integer to binary64 never yields a zero unless the
    integer is zero: the mantissa keeps at least its leading bit. *)

Local Open Scope Z_scope.

Lemma shr_m_shr_1 (mrs : shr_record) :
  0 <= shr_m mrs -> shr_m (shr_1 mrs) = shr_m mrs / 2.
Proof.
  destruct mrs as [m r s]. simpl. intros Hm. rewrite <- Z.div2_div.
  destruct m as [|[p|p|]|p]; try reflexivity; lia.
Qed.

Lemma shr_m_iter (p : positive) (mrs : shr_record) :
  0 <= shr_m mrs ->
  shr_m (SpecFloat.iter_pos shr_1 p mrs) = shr_m mrs / 2 ^ Zpos p.
Proof.
  revert mrs. induction p as [p IH|p IH|]; intros mrs Hm; simpl.
  - assert (H1 : 0 <= shr_m (shr_1 mrs))
      by (rewrite shr_m_shr_1 by done; apply Z.div_pos; lia).
    assert (H2 : 0 <= shr_m (SpecFloat.iter_pos shr_1 p (shr_1 mrs)))
      by (rewrite IH by done; apply Z.div_pos; lia).
    rewrite IH, IH, shr_m_shr_1 by done.
    rewrite !Z.div_div by lia. f_equal.
    replace (Z.pos p~1) with (1 + Z.pos p + Z.pos p) by lia.
    rewrite !Z.pow_add_r by lia. lia.
  - assert (H2 : 0 <= shr_m (SpecFloat.iter_pos shr_1 p mrs))
      by (rewrite IH by done; apply Z.div_pos; lia).
    rewrite IH, IH by done. rewrite !Z.div_div by lia. f_equal.
    replace (Z.pos p~0) with (Z.pos p + Z.pos p) by lia.
    rewrite !Z.pow_add_r by lia. lia.
  - by apply shr_m_shr_1.
Qed.

Lemma digits2_lower (p : positive) :
  2 ^ (Zpos (digits2_pos p) - 1) <= Zpos p.
Proof.
  induction p as [p IH|p IH|]; simpl digits2_pos;
    rewrite ?Pos2Z.inj_succ.
  - replace (Z.succ (Z.pos (digits2_pos p)) - 1)
      with (Z.succ (Z.pos (digits2_pos p) - 1)) by lia.
    rewrite Z.pow_succ_r by lia. lia.
  - replace (Z.succ (Z.pos (digits2_pos p)) - 1)
      with (Z.succ (Z.pos (digits2_pos p) - 1)) by lia.
    rewrite Z.pow_succ_r by lia. lia.
  - simpl. lia.
Qed.

Lemma shr_m_of_loc m l : shr_m (shr_record_of_loc m l) = m.
Proof. by destruct l as [|[]]. Qed.

Lemma shr_fexp_pos (m e : Z) (l : location) :
  0 < m -> -1074 <= e ->
  0 < shr_m (fst (shr_fexp F64.prec F64.emax m e l)) /\
  -1074 <= snd (shr_fexp F64.prec F64.emax m e l).
Proof.
  intros Hm He. destruct m as [|p|p]; try lia.
  unfold shr_fexp, shr, fexp, emin, F64.prec, F64.emax. simpl Zdigits2.
  pose proof (digits2_lower p) as Hd.
  set (d := Z.pos (digits2_pos p)) in *.
  destruct (Z.max (d + e - 53) (3 - 1024 - 53) - e) as [|q|q] eqn:En; simpl.
  - rewrite shr_m_of_loc. lia.
  - rewrite shr_m_iter by (rewrite shr_m_of_loc; lia).
    rewrite shr_m_of_loc. split; [|lia].
    apply Z.div_str_pos. split; [apply Z.pow_pos_nonneg; lia|].
    etransitivity; [|exact Hd]. apply Z.pow_le_mono_r; lia.
  - rewrite shr_m_of_loc. lia.
Qed.

Lemma round_nearest_even_ge (m : Z) (l : location) :
  m <= round_nearest_even m l.
Proof. destruct l as [|[]]; simpl; try lia. destruct (Z.even m); lia. Qed.

Lemma binary_round_aux_nonzero (s : bool) (m e : Z) (l : location) :
  0 < m -> -1074 <= e ->
  F64.is_zero (binary_round_aux F64.prec F64.emax s m e l) = false.
Proof.
  intros Hm He. unfold binary_round_aux.
  destruct (shr_fexp_pos m e l Hm He) as [H1 H2].
  destruct (shr_fexp F64.prec F64.emax m e l) as [mrs' e']. simpl in H1, H2.
  pose proof (round_nearest_even_ge (shr_m mrs') (loc_of_shr_record mrs')) as Hr.
  destruct (shr_fexp_pos (round_nearest_even (shr_m mrs') (loc_of_shr_record mrs'))
              e' loc_Exact) as [H3 _]; [lia|lia|].
  destruct (shr_fexp F64.prec F64.emax _ e' loc_Exact) as [mrs'' e''].
  simpl in H3. destruct (shr_m mrs''); try lia.
  by destruct (_ <=? _).
Qed.

Lemma binary_round_nonzero (s : bool) (m : positive) :
  F64.is_zero (binary_round F64.prec F64.emax s m 0) = false.
Proof.
  unfold binary_round.
  destruct (shl_align m 0 _) as [mz ez] eqn:E.
  apply binary_round_aux_nonzero; [lia|].
  unfold shl_align in E.
  destruct (_ - 0) eqn:D; injection E as <- <-; try lia.
  unfold fexp, emin, F64.prec, F64.emax. lia.
Qed.

(** A cast integer is a zero exactly when the integer is. *)
Lemma of_int_is_zero (z : Z) : F64.is_zero (F64.of_int z) = (z =? 0).
Proof.
  destruct z as [|p|p]; simpl; [reflexivity| |];
    apply binary_round_nonzero.
Qed.

Local Close Scope Z_scope.

Lemma num_to_float_is_zero (b : num) :
  F64.is_zero (num_to_float b) = num_is_zero b.
Proof. destruct b as [z|x]; simpl; [apply of_int_is_zero | reflexivity]. Qed.

(** *** Columns as lists of cells *)

Lemma eqb_zero_is_zero (y : spec_float) : F64.eqb y F64.zero = F64.is_zero y.
Proof. destruct y as [s|s| |s m e]; try destruct s; reflexivity. Qed.

Lemma astype_float_cells (s : series) :
  is_numeric s = true ->
  exists l, astype_float s = Ok l /\ length l = series_len s /\
            forall i, l !! i = num_to_float <$> cell_num s i.
Proof.
  destruct s as [v|v|v|v|v|v]; simpl; try discriminate; intros _.
  - exists (F64.of_int <$> v). rewrite length_fmap. repeat split.
    intros i. rewrite list_lookup_fmap. by destruct (v !! i).
  - exists v. repeat split. intros i. by destruct (v !! i).
Qed.

Lemma cell_num_is_Some (s : series) (i : nat) :
  is_numeric s = true -> i < series_len s -> is_Some (cell_num s i).
Proof.
  destruct s as [v|v|v|v|v|v]; simpl; try discriminate; intros _ Hi;
    apply lookup_lt_is_Some_2 in Hi as [x Hx]; rewrite Hx; by eexists.
Qed.

Lemma lookup_np_where (d n : list spec_float) (i : nat) (x y : spec_float) :
  n !! i = Some x -> d !! i = Some y ->
  np_where (eq_scalar d F64.zero) F64.nan (true_divide n d) !! i
  = Some (if F64.is_zero y then F64.nan else F64.div x y).
Proof.
  intros Hx Hy. unfold np_where, eq_scalar, true_divide.
  rewrite !lookup_zip_with, list_lookup_fmap, Hx, Hy. simpl.
  by rewrite eqb_zero_is_zero.
Qed.

Lemma length_np_where (d n : list spec_float) :
  length n = length d ->
  length (np_where (eq_scalar d F64.zero) F64.nan (true_divide n d)) = length d.
Proof.
  intros H. unfold np_where, eq_scalar, true_divide.
  rewrite !length_zip_with, length_fmap. lia.
Qed.

(** [safe_div] on numeric columns row by row. *)
Lemma safe_div_rows (num den : series) :
  is_numeric num = true -> is_numeric den = true ->
  series_len num = series_len den ->
  exists out, safe_div num den = Ok (Float64 out) /\
    length out = series_len den /\
    forall i a b, cell_num num i = Some a -> cell_num den i = Some b ->
      out !! i = Some (safe_ratio a b).
Proof.
  intros Hn Hd Hlen.
  destruct (astype_float_cells num Hn) as (n & En & Ln & Cn).
  destruct (astype_float_cells den Hd) as (d & Ed & Ld & Cd).
  unfold safe_div. rewrite En, Ed. simpl. eexists. split; [reflexivity|].
  split.
  - rewrite length_np_where; lia.
  - intros i a b Ha Hb. unfold safe_ratio.
    apply lookup_np_where.
    + by rewrite Cn, Ha.
    + by rewrite Cd, Hb.
Qed.

(** C1.  On two numeric columns of the same length [safe_div] returns a
    float column of that length without raising; at every row it holds
    NaN when the denominator of that row is exactly zero, and the
    binary64 quotient of the two operands cast to float when it is not. *)
Theorem safe_div_nan_on_zero_else_quotient (num den : series) :
  is_numeric num = true -> is_numeric den = true ->
  series_len num = series_len den ->
  exists out, safe_div num den = Ok (Float64 out) /\
    length out = series_len den /\
    forall i, i < series_len den ->
      exists a b, cell_num num i = Some a /\ cell_num den i = Some b /\
        (num_is_zero b = true -> out !! i = Some F64.nan) /\
        (num_is_zero b = false ->
           out !! i = Some (F64.div (num_to_float a) (num_to_float b))).
Proof.
  intros Hn Hd Hlen.
  destruct (safe_div_rows num den Hn Hd Hlen) as (out & E & L & R).
  exists out. repeat split; try assumption.
  intros i Hi.
  destruct (cell_num_is_Some num i Hn) as [a Ha]; [lia|].
  destruct (cell_num_is_Some den i Hd) as [b Hb]; [lia|].
  exists a, b. repeat split; try assumption.
  - intros Hz. rewrite (R i a b Ha Hb). unfold safe_ratio.
    by rewrite num_to_float_is_zero, Hz.
  - intros Hz. rewrite (R i a b Ha Hb). unfold safe_ratio.
    by rewrite num_to_float_is_zero, Hz.
Qed.

(** *** Assignment to a label *)

Lemma assoc_assign_eq c v l : assoc c (assign c v l) = Some v.
Proof.
  induction l as [|[k w] l IH]; simpl.
  - by rewrite String.eqb_refl.
  - destruct (String.eqb c k) eqn:E; simpl; rewrite E; auto.
Qed.

Lemma assoc_assign_ne c d v l : c <> d -> assoc c (assign d v l) = assoc c l.
Proof.
  intros Hne. induction l as [|[k w] l IH]; simpl.
  - apply String.eqb_neq in Hne. by rewrite Hne.
  - destruct (String.eqb d k) eqn:E; simpl.
    + apply String.eqb_eq in E. subst k.
      apply String.eqb_neq in Hne. by rewrite Hne.
    + by rewrite IH.
Qed.

Lemma assoc_None c l : assoc c l = None <-> c ∉ l.*1.
Proof.
  induction l as [|[k w] l IH]; simpl.
  - split; [intros _; apply not_elem_of_nil | done].
  - rewrite not_elem_of_cons. destruct (String.eqb c k) eqn:E.
    + apply String.eqb_eq in E. split; [done | intros [? _]; done].
    + apply String.eqb_neq in E. rewrite IH.
      split; [intros H; by split | by intros [_ H]].
Qed.

Lemma assoc_Some_elem c l s : assoc c l = Some s -> c ∈ l.*1.
Proof.
  intros H. destruct (assoc c l) eqn:E; [|done].
  induction l as [|[k w] l IH]; simpl in *; [done|].
  destruct (String.eqb c k) eqn:Ek.
  - apply String.eqb_eq in Ek. subst. apply elem_of_cons. by left.
  - apply elem_of_cons. right. by apply IH.
Qed.

Lemma keys_assign c v l :
  (assign c v l).*1 = match assoc c l with
                      | Some _ => l.*1
                      | None => l.*1 ++ [c]
                      end.
Proof.
  induction l as [|[k w] l IH]; csimpl; [done|].
  destruct (String.eqb c k) eqn:E; csimpl; [done|].
  rewrite IH. by destruct (assoc c l).
Qed.

Lemma has_col_true df c : has_col df c = true <-> c ∈ columns df.
Proof.
  unfold has_col, columns. destruct (assoc c (cols df)) eqn:E.
  - split; [intros _; by eapply assoc_Some_elem | done].
  - apply assoc_None in E. split; [done | intros; done].
Qed.

Lemma issubset_true names df :
  issubset names df = true <-> forall c, c ∈ names -> c ∈ columns df.
Proof.
  unfold issubset. rewrite forallb_forall. split.
  - intros H c Hc. apply has_col_true, H. by apply list_elem_of_In.
  - intros H c Hc. apply has_col_true, H. by apply list_elem_of_In.
Qed.

Lemma issubset_false names df s :
  s ∈ names -> s ∉ columns df -> issubset names df = false.
Proof.
  intros Hs Hn. destruct (issubset names df) eqn:E; [|done].
  destruct Hn. by eapply issubset_true.
Qed.

Lemma getitem_Ok c df s : getitem c df = Ok s <-> assoc c (cols df) = Some s.
Proof. unfold getitem. destruct (assoc c (cols df)); split; congruence. Qed.

Lemma getitem_setitem c s df : getitem c (setitem c s df) = Ok s.
Proof. unfold getitem, setitem. simpl. by rewrite assoc_assign_eq. Qed.

(** *** The frame of an assignment *)

Lemma assigns_refl names df : assigns names df df.
Proof.
  repeat split. exists []. split; [by rewrite app_nil_r|].
  intros c Hc. by apply elem_of_nil in Hc.
Qed.

Lemma assigns_setitem names c s df :
  c ∈ names -> assigns names df (setitem c s df).
Proof.
  intros Hc. split; [done|]. split.
  - intros d Hd. simpl. apply assoc_assign_ne. intros ->. done.
  - unfold columns. simpl. rewrite keys_assign.
    destruct (assoc c (cols df)) eqn:E.
    + exists []. split; [by rewrite app_nil_r|].
      intros x Hx. by apply elem_of_nil in Hx.
    + exists [c]. split; [done|]. intros x Hx.
      apply list_elem_of_singleton in Hx. subst x. split; [done|].
      by apply assoc_None.
Qed.

Lemma assigns_trans names df1 df2 df3 :
  assigns names df1 df2 -> assigns names df2 df3 -> assigns names df1 df3.
Proof.
  intros (N1 & F1 & new1 & C1 & P1) (N2 & F2 & new2 & C2 & P2).
  split; [congruence|]. split.
  - intros c Hc. rewrite F2, F1; auto.
  - exists (new1 ++ new2). split; [by rewrite C2, C1, app_assoc|].
    intros c Hc. apply elem_of_app in Hc as [Hc|Hc].
    + by apply P1.
    + destruct (P2 c Hc) as [? Hn]. split; [done|].
      intros Hin. apply Hn. rewrite C1. apply elem_of_app. by left.
Qed.

Lemma assigns_mono names names' df df' :
  (forall c, c ∈ names -> c ∈ names') ->
  assigns names df df' -> assigns names' df df'.
Proof.
  intros Hsub (N & F & new & C & P). split; [done|]. split.
  - intros c Hc. apply F. intros Hin. apply Hc. by apply Hsub.
  - exists new. split; [done|]. intros c Hc.
    destruct (P c Hc). split; auto.
Qed.

(** *** The passes *)

(** Case analysis on the steps of a block that returned. *)
Ltac bind_inv H :=
  repeat match type of H with
    | bind ?r _ = Ok _ =>
        let E := fresh "E" in
        destruct r eqn:E; simpl in H; [|discriminate H]
    | (if ?b then _ else _) = Ok _ =>
        let E := fresh "G" in destruct b eqn:E
    end.

Lemma run_pass_skipped p df :
  issubset (sources p) df = false -> run_pass p df = Ok df.
Proof.
  destruct p; simpl; intros H;
    unfold derive_year_month, derive_delayed_rate, derive_cancellation_rate,
      derive_avg_delay, derive_cause_share_ct, derive_cause_share_min,
      quality_check; simpl in H |- *; by rewrite H.
Qed.

Lemma quality_check_assigns df df' chk :
  quality_check df = Ok (df', chk) ->
  assigns ["cause_counts_exceed_delayed_flag"%string] df df'.
Proof.
  unfold quality_check. intros H. bind_inv H.
  - injection H as <- _. apply assigns_setitem. in_list.
  - injection H as <- _. apply assigns_refl.
Qed.

Lemma run_pass_assigns p df df' :
  run_pass p df = Ok df' -> assigns (derived p) df df'.
Proof.
  destruct p; simpl; intros H.
  - unfold derive_year_month in H. bind_inv H; injection H as <-.
    + eapply assigns_trans; apply assigns_setitem; in_list.
    + apply assigns_refl.
  - unfold derive_delayed_rate in H. bind_inv H; injection H as <-;
      [apply assigns_setitem; in_list | apply assigns_refl].
  - unfold derive_cancellation_rate in H. bind_inv H; injection H as <-;
      [apply assigns_setitem; in_list | apply assigns_refl].
  - unfold derive_avg_delay in H. bind_inv H; injection H as <-;
      [apply assigns_setitem; in_list | apply assigns_refl].
  - unfold derive_cause_share_ct in H. bind_inv H; injection H as <-;
      [apply assigns_setitem; in_list | apply assigns_refl].
  - unfold derive_cause_share_min in H. bind_inv H; injection H as <-;
      [apply assigns_setitem; in_list | apply assigns_refl].
  - destruct (quality_check df) as [[d c]|] eqn:E; simpl in H; [|discriminate].
    injection H as <-. by eapply quality_check_assigns.
Qed.

Lemma assigns_absent names df df' c :
  assigns names df df' -> c ∉ names -> c ∉ columns df -> c ∉ columns df'.
Proof.
  intros (_ & _ & new & C & P) Hn Hc. rewrite C. intros Hin.
  apply elem_of_app in Hin as [Hin|Hin]; [done|].
  destruct (P c Hin). done.
Qed.

Lemma assigns_present names df df' c :
  assigns names df df' -> c ∈ columns df -> c ∈ columns df'.
Proof.
  intros (_ & _ & new & C & _) Hc. rewrite C. apply elem_of_app. by left.
Qed.


(** *** The KPI stage as a sequence of passes *)

Lemma for_each_app {A} (body : A -> frame -> result frame) l1 l2 df :
  for_each body (l1 ++ l2) df = do d <- for_each body l1 df; for_each body l2 d.
Proof.
  revert df. induction l1 as [|x l1 IH]; intros df; simpl; [done|].
  destruct (body x df); simpl; [apply IH | done].
Qed.

Lemma for_each_fmap {A B} (g : A -> B) (body : B -> frame -> result frame) l df :
  for_each body (g <$> l) df = for_each (fun x => body (g x)) l df.
Proof.
  revert df. induction l as [|x l IH]; intros df; simpl; [done|].
  destruct (body (g x) df); simpl; [apply IH | done].
Qed.

Lemma kpi_derive_passes df : kpi_derive df = for_each run_pass kpi_passes df.
Proof.
  unfold kpi_derive, kpi_passes. simpl.
  destruct (derive_year_month df) as [d1|]; simpl; [|done].
  destruct (derive_delayed_rate d1) as [d2|]; simpl; [|done].
  destruct (derive_cancellation_rate d2) as [d3|]; simpl; [|done].
  destruct (derive_avg_delay d3) as [d4|]; simpl; [|done].
  repeat match goal with
    | |- context [derive_cause_share_ct ?c ?d] =>
        destruct (derive_cause_share_ct c d); simpl; [|done]
    | |- context [derive_cause_share_min ?c ?d] =>
        destruct (derive_cause_share_min c d); simpl; [|done]
    end.
  done.
Qed.

Lemma for_each_invariant (P : frame -> Prop) (L : list pass) :
  (forall q df df', q ∈ L -> P df -> run_pass q df = Ok df' -> P df') ->
  forall df out, P df -> for_each run_pass L df = Ok out -> P out.
Proof.
  induction L as [|q L IH]; intros Hstep df out HP H; simpl in H.
  - by injection H as <-.
  - destruct (run_pass q df) as [d|] eqn:E; simpl in H; [|done].
    eapply IH; [| |exact H].
    + intros q' ? ? Hq'. apply Hstep. by apply list_elem_of_further.
    + eapply Hstep; [apply list_elem_of_here|exact HP|exact E].
Qed.

Ltac each_pass H :=
  unfold kpi_passes, causes in H; simpl in H; split_in H; subst.

(** No label is derived by two rules of the KPI stage, nor by a rule
    and the quality check, and no rule reads a derived label. *)
Lemma kpi_derived_unique p q d :
  p ∈ kpi_passes -> q ∈ kpi_passes ++ [Quality] ->
  d ∈ derived p -> d ∈ derived q -> p = q.
Proof.
  intros Hp Hq. each_pass Hp; each_pass Hq; simpl; intros H1 H2;
    try reflexivity; exfalso; split_in H1; split_in H2; subst; discriminate.
Qed.

Lemma source_never_derived p q s :
  p ∈ kpi_passes ++ [Quality] -> q ∈ kpi_passes ++ [Quality] ->
  s ∈ sources p -> s ∉ derived q.
Proof.
  intros Hp Hq. each_pass Hp; each_pass Hq; simpl; intros H1 H2;
    split_in H1; split_in H2; subst; discriminate.
Qed.

Lemma enrich_passes df out chk :
  enrich df = Ok (out, chk) ->
  for_each run_pass (kpi_passes ++ [Quality]) df = Ok out.
Proof.
  unfold enrich. rewrite kpi_derive_passes, for_each_app. intros H.
  destruct (for_each run_pass kpi_passes df) as [mid|]; simpl in *; [|done].
  unfold quality_check in *. rewrite H. done.
Qed.

Lemma source_absent_skips p df s :
  s ∈ sources p -> s ∉ columns df -> run_pass p df = Ok df.
Proof. intros Hs Hn. apply run_pass_skipped. by eapply issubset_false. Qed.

(** C6, as amended.  When a column that a rule of the KPI stage reads is
    absent, the rule returns the table as it was, without raising; after
    the whole enrichment a label the rule derives is then among the
    columns exactly when the input table already had a column of that
    label, so it is absent from the output of every table that did not
    bring it. *)
Theorem rule_skipped_when_source_absent (p : pass) (df : frame) (s : string) :
  wf_frame df -> p ∈ kpi_passes -> s ∈ sources p -> s ∉ columns df ->
  run_pass p df = Ok df /\
  forall out chk, enrich df = Ok (out, chk) ->
    forall d, d ∈ derived p -> (d ∈ columns out <-> d ∈ columns df).
Proof.
  intros _ Hp Hs Hn. split; [by eapply source_absent_skips|].
  intros out chk H d Hd. apply enrich_passes in H.
  assert (Hp' : p ∈ kpi_passes ++ [Quality]) by (apply elem_of_app; by left).
  split.
  - intros Hout. destruct (decide (d ∈ columns df)) as [|Habs]; [done|].
    exfalso.
    assert (HP : (s ∉ columns out) /\ (d ∉ columns out)); [|by destruct HP].
    eapply (for_each_invariant (fun t => (s ∉ columns t) /\ (d ∉ columns t)));
      [|split; [exact Hn|exact Habs]|exact H].
    intros q t t' Hq [Hs' Hd'] Hrun.
    destruct (decide (d ∈ derived q)) as [Hdq|Hdq].
    + assert (p = q) as <- by (by eapply kpi_derived_unique).
      rewrite (source_absent_skips p t s Hs Hs') in Hrun.
      by injection Hrun as <-.
    + pose proof (run_pass_assigns q t t' Hrun) as A. split.
      * eapply assigns_absent; [exact A| |exact Hs'].
        exact (source_never_derived p q s Hp' Hq Hs).
      * by eapply assigns_absent.
  - intros Hin.
    eapply (for_each_invariant (fun t => d ∈ columns t)); [|exact Hin|exact H].
    intros q t t' _ Ht Hrun.
    eapply assigns_present; [by eapply run_pass_assigns|done].
Qed.

(** *** The cancellation rate *)

Lemma wf_assoc df c s :
  wf_frame df -> assoc c (cols df) = Some s -> series_len s = nrows df.
Proof.
  unfold wf_frame. intros [_ Hwf]. induction Hwf as [|[k w] l Hk Hl IH]; simpl.
  - discriminate.
  - destruct (String.eqb c k); [|exact IH]. intros [= <-]. exact Hk.
Qed.

Lemma series_add_rows (a b : series) :
  is_numeric a = true -> is_numeric b = true -> series_len a = series_len b ->
  exists r, series_add a b = Ok r /\ is_numeric r = true /\
    series_len r = series_len a /\
    forall i x y, cell_num a i = Some x -> cell_num b i = Some y ->
      cell_num r i = Some (num_add x y).
Proof.
  intros Ha Hb Hlen.
  destruct a as [u|u|u|u|u|u], b as [w|w|w|w|w|w]; simpl in *;
    try discriminate;
    eexists; (split; [reflexivity|]); (split; [reflexivity|]); simpl;
    (split; [rewrite length_zip_with, ?length_fmap; lia|]);
    intros i x y Hx Hy; rewrite lookup_zip_with, ?list_lookup_fmap;
    destruct (u !! i); simpl in *; try discriminate;
    destruct (w !! i); simpl in *; try discriminate;
    by injection Hx as <-; injection Hy as <-.
Qed.

Lemma cancellation_column (f c d : series) (n : nat) :
  is_numeric f = true -> is_numeric c = true -> is_numeric d = true ->
  series_len f = n -> series_len c = n -> series_len d = n ->
  exists rate,
    (do fc <- series_add f c; do t <- series_add fc d; safe_div c t)
    = Ok (Float64 rate) /\
    length rate = n /\
    forall i, i < n ->
      exists x y z, cell_num f i = Some x /\ cell_num c i = Some y /\
        cell_num d i = Some z /\
        rate !! i = Some (safe_ratio y (num_add (num_add x y) z)).
Proof.
  intros Hf Hc Hd Lf Lc Ld.
  destruct (series_add_rows f c Hf Hc) as (fc & E1 & N1 & L1 & R1); [lia|].
  destruct (series_add_rows fc d N1 Hd) as (t & E2 & N2 & L2 & R2); [lia|].
  destruct (safe_div_rows c t Hc N2) as (rate & E3 & L3 & R3); [lia|].
  exists rate. rewrite E1. simpl. rewrite E2. simpl. split; [exact E3|].
  split; [lia|]. intros i Hi.
  destruct (cell_num_is_Some f i Hf) as [x Hx]; [lia|].
  destruct (cell_num_is_Some c i Hc) as [y Hy]; [lia|].
  destruct (cell_num_is_Some d i Hd) as [z Hz]; [lia|].
  exists x, y, z. repeat split; try assumption.
  apply R3; [exact Hy|]. eapply R2; [|exact Hz]. by eapply R1.
Qed.

Lemma derive_cancellation_rate_eq df f c d :
  assoc "arr_flights" (cols df) = Some f ->
  assoc "arr_cancelled" (cols df) = Some c ->
  assoc "arr_diverted" (cols df) = Some d ->
  derive_cancellation_rate df
  = (do fc <- series_add f c; do t <- series_add fc d; do r <- safe_div c t;
     Ok (setitem "cancellation_rate" r df)).
Proof.
  intros Hf Hc Hd. unfold derive_cancellation_rate, issubset, has_col, getitem.
  simpl. rewrite Hf, Hc, Hd. simpl.
  destruct (series_add f c); simpl; [|done].
  destruct (series_add _ d); simpl; done.
Qed.

Lemma for_each_keeps (L : list pass) (c : string) df out :
  (forall q, q ∈ L -> c ∉ derived q) ->
  for_each run_pass L df = Ok out ->
  assoc c (cols out) = assoc c (cols df).
Proof.
  intros Hc H.
  eapply (for_each_invariant (fun t => assoc c (cols t) = assoc c (cols df)));
    [|reflexivity|exact H].
  intros q t t' Hq Ht Hrun.
  destruct (run_pass_assigns q t t' Hrun) as (_ & F & _).
  rewrite F; [exact Ht|]. by apply Hc.
Qed.

(** C2.  On a table whose [arr_flights], [arr_cancelled] and
    [arr_diverted] columns are present and numeric (type coercion leaves
    them so, [type_coerce_numeric]), the cancellation rule assigns to
    [cancellation_rate], without raising, the column that holds at every
    row SafeRatio of the cancelled count over the sum of the three counts
    of that row; that column is the [cancellation_rate] of the table the
    enrichment returns. *)
Theorem cancellation_rate_over_total_handled (df : frame) (f c d : series) :
  wf_frame df ->
  assoc "arr_flights" (cols df) = Some f ->
  assoc "arr_cancelled" (cols df) = Some c ->
  assoc "arr_diverted" (cols df) = Some d ->
  is_numeric f = true -> is_numeric c = true -> is_numeric d = true ->
  exists rate,
    derive_cancellation_rate df
    = Ok (setitem "cancellation_rate" (Float64 rate) df) /\
    length rate = nrows df /\
    (forall i, i < nrows df ->
       exists x y z, cell_num f i = Some x /\ cell_num c i = Some y /\
         cell_num d i = Some z /\
         rate !! i = Some (safe_ratio y (num_add (num_add x y) z))) /\
    (forall out chk, enrich df = Ok (out, chk) ->
       assoc "cancellation_rate" (cols out) = Some (Float64 rate)).
Proof.
  intros Hwf Af Ac Ad Hf Hc Hd.
  destruct (cancellation_column f c d (nrows df) Hf Hc Hd)
    as (rate & E & L & R); try by eapply wf_assoc.
  assert (Hrule : forall t,
    assoc "arr_flights" (cols t) = Some f ->
    assoc "arr_cancelled" (cols t) = Some c ->
    assoc "arr_diverted" (cols t) = Some d ->
    derive_cancellation_rate t = Ok (setitem "cancellation_rate" (Float64 rate) t)).
  { intros t Tf Tc Td. rewrite (derive_cancellation_rate_eq t f c d Tf Tc Td).
    destruct (series_add f c) as [fc|]; simpl in *; [|done].
    destruct (series_add fc d) as [t'|]; simpl in *; [|done].
    by rewrite E. }
  exists rate. repeat split; try assumption; [by apply Hrule|].
  intros out chk H. apply enrich_passes in H.
  change (kpi_passes ++ [Quality]) with
    ([YearMonth; DelayedRate] ++ CancellationRate ::
       (AvgDelay :: (CauseShareCt <$> causes) ++ (CauseShareMin <$> causes)
                 ++ [Quality])) in H.
  remember (AvgDelay :: (CauseShareCt <$> causes) ++ (CauseShareMin <$> causes)
                     ++ [Quality]) as rest eqn:Hrest.
  rewrite for_each_app in H.
  destruct (for_each run_pass [YearMonth; DelayedRate] df) as [t1|] eqn:E1;
    simpl in H; [|done].
  assert (K : forall s, s ∈ sources CancellationRate ->
            assoc s (cols t1) = assoc s (cols df)).
  { intros s Hs. eapply for_each_keeps; [|exact E1].
    intros q Hq. eapply (source_never_derived CancellationRate); [| |exact Hs].
    - unfold kpi_passes; simpl; in_list.
    - split_in Hq; subst; unfold kpi_passes; simpl; in_list. }
  rewrite Hrule in H; simpl in H.
  2: rewrite K; [exact Af | simpl; in_list].
  2: rewrite K; [exact Ac | simpl; in_list].
  2: rewrite K; [exact Ad | simpl; in_list].
  erewrite for_each_keeps; [| |exact H].
  - simpl. apply assoc_assign_eq.
  - intros q Hq Hin. subst rest. simpl in Hq. split_in Hq; subst;
      simpl in Hin; split_in Hin; discriminate.
Qed.

(** *** The quality check *)

Lemma all_some_Forall2 {A} (l : list (option A)) (r : list A) :
  all_some l = Some r <-> Forall2 (fun o a => o = Some a) l r.
Proof.
  revert r. induction l as [|[a|] l IH]; intros r; simpl.
  - split; [intros [= <-]; constructor | by inversion 1].
  - destruct (all_some l) as [t|].
    + split.
      * intros [= <-]. constructor; [done | by apply IH].
      * inversion 1 as [|? b ? t' Hb Ht]; subst. injection Hb as <-.
        apply IH in Ht. by injection Ht as <-.
    + split; [done|]. inversion 1 as [|? b ? t' Hb Ht]; subst.
      apply IH in Ht. done.
  - split; [done|]. by inversion 1.
Qed.

Lemma all_some_None_exists {A} (l : list (option A)) :
  all_some l = None <-> exists i, l !! i = Some None.
Proof.
  induction l as [|[a|] l IH]; simpl.
  - split; [done | by intros [i ?]].
  - destruct (all_some l) as [t|].
    + split; [done|]. intros [[|i] Hi]; simpl in Hi; [done|].
      destruct IH as [_ IH]. by discriminate IH; [exists i].
    + split; [|done]. intros _. destruct IH as [IH _].
      destruct IH as [i Hi]; [done|]. by exists (S i).
  - split; [|done]. intros _. by exists 0.
Qed.

(** A column-wise fold reads, at one row, as the fold over that row. *)
Lemma lookup_fold_columns {A B V}
  (step : list A -> list B -> list A) (g : A -> B -> A) (h : V -> B) (i : nat) :
  (forall acc c a x, acc !! i = Some a -> c !! i = Some x ->
                     step acc c !! i = Some (g a x)) ->
  forall cs vs acc a,
    Forall2 (fun (c : list B) v => c !! i = Some (h v)) cs vs ->
    acc !! i = Some a ->
    fold_left step cs acc !! i = Some (fold_left (fun a v => g a (h v)) vs a).
Proof.
  intros Hstep cs vs acc a HF. revert acc a.
  induction HF as [|c x cs xs Hc HF IH]; intros acc a Ha; simpl; [done|].
  apply IH. by apply Hstep.
Qed.

Lemma length_fold_columns {A B}
  (step : list A -> list B -> list A) (n : nat) :
  (forall acc c, length acc = n -> length c = n -> length (step acc c) = n) ->
  forall cs acc,
    Forall (fun c : list B => length c = n) cs -> length acc = n ->
    length (fold_left step cs acc) = n.
Proof.
  intros Hstep cs. induction cs as [|c cs IH]; intros acc HF Ha; simpl; [done|].
  inversion HF; subst. apply IH; [done|]. by apply Hstep.
Qed.

Lemma row_cells_exist (n : nat) (sel : list series) (i : nat) :
  Forall (numeric_of_len n) sel -> i < n ->
  exists vals, Forall2 (fun s v => cell_num s i = Some v) sel vals.
Proof.
  intros HF Hi. induction HF as [|s sel [Hs Hl] _ [vals IH]].
  - exists []. constructor.
  - destruct (cell_num_is_Some s i Hs) as [v Hv]; [lia|].
    exists (v :: vals). by constructor.
Qed.

Lemma row_cells_Forall2 (sel : list series) (vals : list num) (i : nat) :
  Forall2 (fun s v => cell_num s i = Some v) sel vals ->
  row_cells sel i = Some vals.
Proof.
  intros H. unfold row_cells. apply all_some_Forall2.
  apply Forall2_fmap_l. exact H.
Qed.

(** An all-integer selection has integer cells, read off its columns. *)
Lemma int_selection_row (sel : list series) (vals : list num) (i : nat) :
  Forall2 (fun s v => cell_num s i = Some v) sel vals ->
  match all_some (as_int64 <$> sel) with
  | Some cs =>
      exists zs, all_some (num_int <$> vals) = Some zs /\
        Forall2 (fun (c : list Z) z => c !! i = Some (id z)) cs zs
  | None => all_some (num_int <$> vals) = None
  end.
Proof.
  induction 1 as [|s v sel vals Hv _ IH]; csimpl.
  - exists []. split; [done|constructor].
  - destruct s as [c|c|c|c|c|c]; simpl in Hv; try discriminate.
    + destruct (c !! i) as [z|] eqn:Ez; simpl in Hv; [|done].
      injection Hv as <-. csimpl.
      destruct (all_some (as_int64 <$> sel)) as [cs|].
      * destruct IH as (zs & Ezs & HF). rewrite Ezs. exists (z :: zs).
        split; [done|]. by constructor.
      * by rewrite IH.
    + destruct (c !! i) as [x|] eqn:Ex; simpl in Hv; [|done].
      by injection Hv as <-.
Qed.

Lemma float_selection_row (sel : list series) (vals : list num) (i : nat) :
  Forall2 (fun s v => cell_num s i = Some v) sel vals ->
  exists fs, mapR astype_float sel = Ok fs /\
    Forall2 (fun (f : list spec_float) v => f !! i = Some (num_to_float v)) fs vals /\
    Forall2 (fun s (f : list spec_float) => length f = series_len s) sel fs.
Proof.
  induction 1 as [|s v sel vals Hv _ (fs & E & HF & HL)]; simpl.
  - exists []. repeat split; constructor.
  - destruct s as [c|c|c|c|c|c]; simpl in *; try discriminate; rewrite E; simpl.
    + destruct (c !! i) as [z|] eqn:Ez; simpl in Hv; [|done].
      injection Hv as <-. eexists. split; [reflexivity|]. split.
      * constructor; [|done]. by rewrite list_lookup_fmap, Ez.
      * constructor; [|done]. by rewrite length_fmap.
    + destruct (c !! i) as [x|] eqn:Ex; simpl in Hv; [|done].
      injection Hv as <-. eexists. split; [reflexivity|]. split.
      * by constructor.
      * by constructor.
Qed.

Lemma mapR_astype_float (n : nat) (sel : list series) :
  Forall (numeric_of_len n) sel ->
  exists fs, mapR astype_float sel = Ok fs /\
             Forall (fun f : list spec_float => length f = n) fs.
Proof.
  induction 1 as [|s sel [Hs Hl] _ (fs & E & HF)]; simpl.
  - exists []. split; [done|constructor].
  - destruct (astype_float_cells s Hs) as (f & Ef & Lf & _).
    rewrite Ef, E. simpl. eexists. split; [reflexivity|].
    constructor; [lia|done].
Qed.

Lemma int_selection_lengths (n : nat) (sel : list series) (cs : list (list Z)) :
  Forall (numeric_of_len n) sel ->
  all_some (as_int64 <$> sel) = Some cs ->
  Forall (fun c : list Z => length c = n) cs.
Proof.
  intros HF. revert cs. induction HF as [|s sel [Hs Hl] _ IH]; intros cs; csimpl.
  - intros [= <-]. constructor.
  - destruct s as [c|c|c|c|c|c]; simpl; try discriminate.
    destruct (all_some (as_int64 <$> sel)) as [t|]; [|discriminate].
    intros [= <-]. constructor; [exact Hl | by apply IH].
Qed.

Lemma sum_axis1_rows (n : nat) (sel : list series) :
  Forall (numeric_of_len n) sel ->
  exists r, sum_axis1 n sel = Ok r /\ numeric_of_len n r /\
    forall i vals, i < n ->
      Forall2 (fun s v => cell_num s i = Some v) sel vals ->
      cell_num r i = Some (sum_cells vals).
Proof.
  intros HF. unfold sum_axis1.
  destruct (all_some (as_int64 <$> sel)) as [cs|] eqn:E.
  - eexists. split; [reflexivity|]. split.
    + split; [done|]. simpl. unfold row_sum_int.
      apply length_fold_columns.
      * intros acc c Ha Hc. rewrite length_zip_with. lia.
      * by eapply int_selection_lengths.
      * apply length_replicate.
    + intros i vals Hi Hrow. pose proof (int_selection_row sel vals i Hrow) as R.
      rewrite E in R. destruct R as (zs & Ezs & Hzs). simpl.
      unfold row_sum_int.
      erewrite (lookup_fold_columns _ (fun a x => wrap64 (a + x)%Z) id i);
        [| |exact Hzs|by apply lookup_replicate_2].
      * unfold sum_cells. by rewrite Ezs.
      * intros acc c a x Ha Hx. by rewrite lookup_zip_with, Ha, Hx.
  - destruct (mapR_astype_float n sel HF) as (fs & Efs & Lfs). rewrite Efs.
    simpl. eexists. split; [reflexivity|]. split.
    + split; [done|]. simpl. unfold row_sum_float.
      apply length_fold_columns.
      * intros acc c Ha Hc. rewrite length_zip_with, length_fmap. lia.
      * exact Lfs.
      * apply length_replicate.
    + intros i vals Hi Hrow.
      destruct (float_selection_row sel vals i Hrow) as (fs' & Efs' & Hfs & _).
      rewrite Efs in Efs'. injection Efs' as <-.
      pose proof (int_selection_row sel vals i Hrow) as R. rewrite E in R.
      simpl. unfold row_sum_float.
      erewrite (lookup_fold_columns _
                  (fun a x => F64.add a (nan_to_zero x)) num_to_float i);
        [| |exact Hfs|by apply lookup_replicate_2].
      * unfold sum_cells. by rewrite R.
      * intros acc c a x Ha Hx.
        by rewrite lookup_zip_with, list_lookup_fmap, Ha, Hx.
Qed.

Lemma series_gt_rows (a b : series) (n : nat) :
  numeric_of_len n a -> numeric_of_len n b ->
  exists flags, series_gt a b = Ok (Boolean flags) /\ length flags = n /\
    forall i x y, cell_num a i = Some x -> cell_num b i = Some y ->
      flags !! i = Some (num_gt x y).
Proof.
  intros [Ha La] [Hb Lb].
  destruct a as [u|u|u|u|u|u], b as [w|w|w|w|w|w]; simpl in *;
    try discriminate;
    eexists; (split; [reflexivity|]);
    (split; [rewrite length_zip_with, ?length_fmap; lia|]);
    intros i x y Hx Hy; rewrite lookup_zip_with, ?list_lookup_fmap;
    destruct (u !! i); simpl in *; try discriminate;
    destruct (w !! i); simpl in *; try discriminate;
    by injection Hx as <-; injection Hy as <-.
Qed.

Lemma count_flags (p : nat -> bool) (l : list nat) :
  length (filter (fun b : bool => b = true) (p <$> l))
  = length (List.filter p l).
Proof.
  induction l as [|i l IH]; csimpl; [done|].
  destruct (p i) eqn:E.
  - rewrite filter_cons_True by done. simpl. by rewrite IH.
  - rewrite filter_cons_False by (by intros ?). exact IH.
Qed.

Lemma flags_as_rows (flags : list bool) (p : nat -> bool) (n : nat) :
  length flags = n -> (forall i, i < n -> flags !! i = Some (p i)) ->
  flags = p <$> seq 0 n.
Proof.
  intros L H. apply list_eq. intros i. rewrite list_lookup_fmap.
  destruct (decide (i < n)) as [Hi|Hi].
  - rewrite H by done. by rewrite lookup_seq_lt.
  - rewrite lookup_ge_None_2 by lia. by rewrite lookup_seq_ge by lia.
Qed.

Lemma mapR_getitem df (names : list string) (sel : list series) :
  Forall2 (fun c s => assoc c (cols df) = Some s) names sel ->
  mapR (fun c => getitem c df) names = Ok sel.
Proof.
  induction 1 as [|c s names sel Hc _ IH]; simpl; [done|].
  apply getitem_Ok in Hc. by rewrite Hc, IH.
Qed.

Lemma quality_check_eq df (cts : list series) (del : series) :
  Forall2 (fun c s => assoc c (cols df) = Some s) cause_ct_cols cts ->
  assoc "arr_del15" (cols df) = Some del ->
  quality_check df
  = (do cause_sum <- sum_axis1 (nrows df) cts;
     do flag <- series_gt cause_sum del;
     do n <- count_true flag;
     Ok (setitem "cause_counts_exceed_delayed_flag" flag df,
         [("rows_where_cause_counts_exceed_delayed"%string, n)])).
Proof.
  intros Hcts Hdel. unfold quality_check.
  assert (Hsub : issubset (cause_ct_cols ++ ["arr_del15"%string]) df = true).
  { apply issubset_true. intros c Hc. apply elem_of_app in Hc as [Hc|Hc].
    - apply list_elem_of_lookup in Hc as [i Hi].
      destruct (Forall2_lookup_l _ _ _ _ _ Hcts Hi) as (s & _ & Hs).
      by eapply assoc_Some_elem.
    - apply list_elem_of_singleton in Hc. subst c. by eapply assoc_Some_elem. }
  rewrite Hsub, (mapR_getitem df _ _ Hcts). cbn [bind].
  destruct (sum_axis1 (nrows df) cts) as [cause_sum|]; cbn [bind]; [|done].
  apply getitem_Ok in Hdel. rewrite Hdel. cbn [bind].
  destruct (series_gt cause_sum del) as [flag|]; cbn [bind]; [|done].
  by rewrite getitem_setitem.
Qed.

Lemma ltb_irrefl (x : spec_float) : F64.ltb x x = false.
Proof.
  unfold F64.ltb, SFltb. destruct x as [s|s| |s m e]; try destruct s; simpl;
    try reflexivity; rewrite Z.compare_refl, Pos.compare_cont_refl; reflexivity.
Qed.

Lemma num_gt_irrefl (a : num) : num_gt a a = false.
Proof.
  destruct a as [z|x]; simpl.
  - rewrite Z.gtb_ltb. apply Z.ltb_irrefl.
  - apply ltb_irrefl.
Qed.

(** On a row of integers that are far from the ends of the [int64]
    range, the sum the check computes is the exact sum. *)
Lemma wrap64_small (z : Z) :
  (- 2 ^ 63 <= z < 2 ^ 63)%Z -> wrap64 z = z.
Proof.
  intros H. unfold wrap64.
  change (2 ^ 63)%Z with 9223372036854775808%Z in *.
  change (2 ^ 64)%Z with 18446744073709551616%Z.
  rewrite Z.mod_small by lia. lia.
Qed.

Lemma dyadic_add_int (x y : Z) :
  dyadic_add (x, 0%Z) (y, 0%Z) = ((x + y)%Z, 0%Z).
Proof.
  unfold dyadic_add. cbn [fst snd].
  change (2 ^ (0 - Z.min 0 0))%Z with 1%Z. f_equal. lia.
Qed.

Lemma dyadic_ltb_int (x y : Z) :
  dyadic_ltb (x, 0%Z) (y, 0%Z) = (x <? y)%Z.
Proof.
  unfold dyadic_ltb. cbn [fst snd].
  change (2 ^ (0 - Z.min 0 0))%Z with 1%Z. f_equal; lia.
Qed.

Lemma int_row_exceeds_exactly
  (cts : list series) (del : series) (i : nat) (zs : list Z) (d : Z) :
  length cts = 5 ->
  Forall2 (fun s z => cell_num s i = Some (NInt z)) cts zs ->
  cell_num del i = Some (NInt d) ->
  Forall (fun z => - 2 ^ 60 <= z < 2 ^ 60)%Z zs ->
  exceeds_at cts del i = exceeds_exactly_at cts del i.
Proof.
  intros L Hz Hd Hb.
  assert (Hv : row_cells cts i = Some (NInt <$> zs)).
  { apply row_cells_Forall2. by apply Forall2_fmap_r. }
  unfold exceeds_at, exceeds_exactly_at. rewrite Hv, Hd.
  apply Forall2_length in Hz. rewrite L in Hz.
  destruct zs as [|a [|b [|c [|e [|f [|]]]]]]; try discriminate Hz.
  repeat match goal with
    | Hf : Forall _ (_ :: _) |- _ => apply Forall_cons in Hf as [? Hf]
    end.
  unfold sum_cells, exact_sum. cbn [fmap list_fmap num_int dyadic_of_num all_some
    option_map fold_left].
  rewrite !dyadic_add_int, dyadic_ltb_int.
  change (2 ^ 60)%Z with 1152921504606846976%Z in *.
  assert (W : forall z,
            (- 5764607523034234880 <= z < 5764607523034234880)%Z ->
            wrap64 z = z).
  { intros z Hzb. apply wrap64_small.
    change (2 ^ 63)%Z with 9223372036854775808%Z. lia. }
  rewrite (W (0 + a)%Z) by lia.
  rewrite (W (0 + a + b)%Z) by lia.
  rewrite (W (0 + a + b + c)%Z) by lia.
  rewrite (W (0 + a + b + c + e)%Z) by lia.
  rewrite (W (0 + a + b + c + e + f)%Z) by lia.
  cbn [num_gt]. apply Z.gtb_ltb.
Qed.

(** C5, as amended.  When the five cause-count columns and [arr_del15]
    are present (and numeric: type coercion leaves them so,
    [type_coerce_numeric]), the check returns without raising; the flag
    column it assigns is true at a row exactly when the sum of the five
    cause counts of that row, as pandas computes it, is strictly greater
    than its [arr_del15], and the reported count is the number of such
    rows.  The sum is taken in [int64] with wrap-around when the five
    columns hold integers, and in binary64 otherwise, from left to right
    with a rounding after each addition.  A row whose computed sum equals
    its [arr_del15] is not flagged.  On a row of integers below [2^60] in
    magnitude the computed sum is the exact sum, and the flag is the
    comparison the specification words. *)
Theorem quality_flag_counts_exceeding_rows
  (df : frame) (cts : list series) (del : series) :
  wf_frame df ->
  Forall2 (fun c s => assoc c (cols df) = Some s) cause_ct_cols cts ->
  assoc "arr_del15" (cols df) = Some del ->
  Forall (fun s => is_numeric s = true) cts -> is_numeric del = true ->
  exists flags,
    quality_check df
    = Ok (setitem "cause_counts_exceed_delayed_flag" (Boolean flags) df,
          [("rows_where_cause_counts_exceed_delayed"%string,
            Z.of_nat (count_rows (nrows df) (exceeds_at cts del)))]) /\
    length flags = nrows df /\
    (forall i, i < nrows df -> flags !! i = Some (exceeds_at cts del i)) /\
    (forall i vals, i < nrows df ->
       row_cells cts i = Some vals -> cell_num del i = Some (sum_cells vals) ->
       flags !! i = Some false) /\
    (forall i zs d, i < nrows df ->
       Forall2 (fun s z => cell_num s i = Some (NInt z)) cts zs ->
       cell_num del i = Some (NInt d) ->
       Forall (fun z => - 2 ^ 60 <= z < 2 ^ 60)%Z zs ->
       flags !! i = Some (exceeds_exactly_at cts del i)).
Proof.
  intros Hwf Hcts Hdel Ncts Ndel.
  assert (HF : Forall (numeric_of_len (nrows df)) cts).
  { apply Forall_lookup. intros j s Hs. split.
    - by eapply (proj1 (Forall_lookup _ _) Ncts).
    - destruct (Forall2_lookup_r _ _ _ _ _ Hcts Hs) as (c & _ & Hc).
      by eapply wf_assoc. }
  assert (HD : numeric_of_len (nrows df) del).
  { split; [done | by eapply wf_assoc]. }
  destruct (sum_axis1_rows _ _ HF) as (r & Er & Nr & Rr).
  destruct (series_gt_rows r del _ Nr HD) as (flags & Eg & Lg & Rg).
  assert (Hrow : forall i, i < nrows df -> flags !! i = Some (exceeds_at cts del i)).
  { intros i Hi. destruct (row_cells_exist _ _ i HF Hi) as [vals Hv].
    destruct (cell_num_is_Some del i) as [d Hd]; [done|by destruct HD; lia|].
    unfold exceeds_at. rewrite (row_cells_Forall2 _ _ _ Hv), Hd.
    eapply Rg; [|exact Hd]. by apply Rr. }
  exists flags. repeat split; try assumption.
  - rewrite (quality_check_eq df cts del Hcts Hdel), Er. cbn [bind].
    rewrite Eg. cbn [bind count_true]. do 3 f_equal.
    unfold count_rows.
    rewrite (flags_as_rows flags (exceeds_at cts del) (nrows df) Lg Hrow).
    by rewrite count_flags.
  - intros i vals Hi Hv Hd. rewrite Hrow by done. f_equal.
    unfold exceeds_at. rewrite Hv, Hd. apply num_gt_irrefl.
  - intros i zs d Hi Hz Hd Hb. rewrite Hrow by done. f_equal.
    apply (int_row_exceeds_exactly cts del i zs d); try assumption.
    apply Forall2_length in Hcts. by rewrite <- Hcts.
Qed.

(** *** Type coercion *)

Lemma nan_to_zero_not_nan (x : spec_float) : F64.isnan (nan_to_zero x) = false.
Proof. unfold nan_to_zero. by destruct x. Qed.

Lemma all_some_length {A} (l : list (option A)) (r : list A) :
  all_some l = Some r -> length r = length l.
Proof. intros H. apply all_some_Forall2 in H. symmetry. by eapply Forall2_length. Qed.

Lemma holds_numbers_numeric (s : series) :
  holds_numbers s -> is_numeric s = true.
Proof. by destruct s. Qed.

Lemma coerce_count_raw (s : series) :
  is_raw s = true ->
  exists s', coerce_count s = Ok s' /\ holds_numbers s' /\
    series_len s' = series_len s /\
    forall i, unparseable_at s i = true -> cell_num s' i = Some (NFloat F64.zero).
Proof.
  destruct s as [v|v|v|v|v|v]; simpl; try discriminate; intros _;
    unfold coerce_count; simpl.
  - eexists. repeat split. discriminate.
  - eexists. split; [reflexivity|]. simpl. split; [|split].
    + apply Forall_fmap, Forall_forall. intros x _. apply nan_to_zero_not_nan.
    + apply length_fmap.
    + intros i. rewrite list_lookup_fmap. destruct (v !! i) as [x|]; [|done].
      simpl. intros Hx. unfold nan_to_zero. by rewrite Hx.
  - destruct (all_some (as_int <$> (parsed_cell <$> v))) as [zs|] eqn:E; simpl.
    + eexists. split; [reflexivity|]. simpl. split; [done|]. split.
      * apply all_some_length in E. by rewrite E, !length_fmap.
      * intros i Hi. exfalso. destruct (v !! i) as [o|] eqn:Eo; [|done].
        apply all_some_Forall2 in E.
        assert (Hl : (as_int <$> (parsed_cell <$> v)) !! i
                     = Some (as_int (parsed_cell o)))
          by (by rewrite !list_lookup_fmap, Eo).
        destruct (Forall2_lookup_l _ _ _ _ _ E Hl) as (z & _ & Hz).
        destruct (parsed_cell o); simpl in *; done.
    + eexists. split; [reflexivity|]. simpl. split; [|split].
      * apply Forall_fmap, Forall_forall. intros x _. apply nan_to_zero_not_nan.
      * by rewrite !length_fmap.
      * intros i. rewrite !list_lookup_fmap. destruct (v !! i) as [o|]; [|done].
        simpl. by destruct (parsed_cell o).
Qed.

Lemma for_present_inv f names df df' :
  NoDup names -> for_present f names df = Ok df' ->
  nrows df' = nrows df /\ columns df' = columns df /\
  (forall c, c ∉ names -> assoc c (cols df') = assoc c (cols df)) /\
  (forall c s, c ∈ names -> assoc c (cols df) = Some s ->
     exists s', f s = Ok s' /\ assoc c (cols df') = Some s').
Proof.
  intros ND. revert df. induction ND as [|col rest Hcol ND IH]; intros df H.
  - injection H as <-. repeat split; try done. intros c s Hc.
    by apply elem_of_nil in Hc.
  - simpl in H. unfold has_col, getitem in H.
    destruct (assoc col (cols df)) as [s0|] eqn:E0.
    + simpl in H. destruct (f s0) as [s0'|] eqn:Ef; simpl in H; [|done].
      destruct (IH _ H) as (N & C & K & S). split; [done|]. split; [|split].
      * rewrite C. unfold columns. simpl. by rewrite keys_assign, E0.
      * intros c Hc. apply not_elem_of_cons in Hc as [Hne Hc].
        rewrite K by done. simpl. by apply assoc_assign_ne.
      * intros c s Hc Hs. apply elem_of_cons in Hc as [->|Hc].
        -- exists s0'. rewrite K by done. simpl. rewrite assoc_assign_eq.
           split; [congruence|done].
        -- apply S; [done|]. simpl. rewrite assoc_assign_ne; [done|].
           intros ->. done.
    + destruct (IH _ H) as (N & C & K & S). repeat split; try done.
      * intros c Hc. apply not_elem_of_cons in Hc as [_ Hc]. by apply K.
      * intros c s Hc Hs. apply elem_of_cons in Hc as [->|Hc]; [congruence|].
        by apply S.
Qed.

Lemma for_present_total f names df :
  NoDup names ->
  (forall c s, c ∈ names -> assoc c (cols df) = Some s -> exists s', f s = Ok s') ->
  exists df', for_present f names df = Ok df'.
Proof.
  intros ND. revert df. induction ND as [|col rest Hcol ND IH]; intros df Hf.
  - by eexists.
  - simpl. unfold has_col, getitem.
    destruct (assoc col (cols df)) as [s0|] eqn:E0; simpl.
    + destruct (Hf col s0) as [s0' Es]; [apply list_elem_of_here|done|].
      rewrite Es. simpl. apply IH. intros c s Hc Hs.
      simpl in Hs. rewrite assoc_assign_ne in Hs by (intros ->; done).
      eapply Hf; [by apply list_elem_of_further|done].
    + apply IH. intros c s Hc. apply Hf. by apply list_elem_of_further.
Qed.

Lemma designated_NoDup : NoDup (count_cols ++ delay_min_cols).
Proof.
  unfold count_cols, delay_min_cols. simpl.
  repeat (constructor; [intros H; split_in H; discriminate|]). constructor.
Qed.

Lemma calendar_NoDup : NoDup ["year"; "month"]%string.
Proof.
  repeat (constructor; [intros H; split_in H; discriminate|]). constructor.
Qed.

(** C7.  On a table as read from the file, type coercion of the count
    and delay-minute columns returns without raising; every such column
    that is present comes out numeric with no missing entry and the same
    number of rows, each entry that was missing or did not parse as a
    number is exactly zero, and the coercion of [year] and [month]
    leaves the column as it is. *)
Theorem type_coercer_zero_fills (df : frame) (c : string) (s : series) :
  wf_frame df ->
  (forall k t, k ∈ count_cols ++ delay_min_cols ->
               assoc k (cols df) = Some t -> is_raw t = true) ->
  c ∈ count_cols ++ delay_min_cols -> assoc c (cols df) = Some s ->
  exists df' s',
    coerce_counts df = Ok df' /\ assoc c (cols df') = Some s' /\
    holds_numbers s' /\ series_len s' = series_len s /\
    (forall i, unparseable_at s i = true ->
               cell_num s' i = Some (NFloat F64.zero)) /\
    (forall df'', type_coerce df = Ok df'' -> assoc c (cols df'') = Some s').
Proof.
  intros _ Hraw Hc Hs.
  destruct (for_present_total coerce_count _ df designated_NoDup) as [df' E].
  { intros k t Hk Ht. destruct (coerce_count_raw t) as (t' & Et & _); [|by eexists].
    by eapply Hraw. }
  destruct (for_present_inv _ _ _ _ designated_NoDup E) as (_ & _ & _ & S).
  destruct (S c s Hc Hs) as (s' & Es & As).
  destruct (coerce_count_raw s) as (s2 & Es2 & Hn & Hl & Hz); [by eapply Hraw|].
  rewrite Es in Es2. injection Es2 as <-.
  exists df', s'. repeat split; try assumption.
  intros df'' H. unfold type_coerce in H. unfold coerce_counts in H.
  rewrite E in H. simpl in H. unfold coerce_year_month in H.
  destruct (for_present_inv _ _ _ _ calendar_NoDup H) as (_ & _ & K & _).
  rewrite K; [done|]. intros Hin. unfold count_cols, delay_min_cols in Hc.
  simpl in Hc. split_in Hin; subst; split_in Hc; discriminate.
Qed.

(** After type coercion the count and delay-minute columns are the
    numeric columns that the rules of the later stages read. *)
Lemma type_coerce_numeric (df t : frame) (c : string) (s : series) :
  (forall k x, k ∈ count_cols ++ delay_min_cols ->
               assoc k (cols df) = Some x -> is_raw x = true) ->
  type_coerce df = Ok t ->
  c ∈ count_cols ++ delay_min_cols -> assoc c (cols t) = Some s ->
  holds_numbers s /\ is_numeric s = true.
Proof.
  intros Hraw H Hc Hs. unfold type_coerce, coerce_counts, coerce_year_month in H.
  destruct (for_present coerce_count _ df) as [t0|] eqn:E0; simpl in H; [|done].
  destruct (for_present_inv _ _ _ _ designated_NoDup E0) as (_ & C0 & _ & S0).
  destruct (for_present_inv _ _ _ _ calendar_NoDup H) as (_ & _ & K & _).
  rewrite K in Hs.
  2: { intros Hin. unfold count_cols, delay_min_cols in Hc. simpl in Hc.
       split_in Hin; subst; split_in Hc; discriminate. }
  destruct (assoc c (cols df)) as [s0|] eqn:A0.
  - destruct (S0 c s0 Hc A0) as (s' & Es & As).
    rewrite Hs in As. injection As as <-.
    destruct (coerce_count_raw s0) as (s2 & E2 & Hn & _); [by eapply Hraw|].
    rewrite Es in E2. injection E2 as <-.
    split; [exact Hn | by apply holds_numbers_numeric].
  - apply assoc_None in A0. exfalso. apply A0.
    change ((cols df).*1) with (columns df). rewrite <- C0.
    by eapply assoc_Some_elem.
Qed.

(** *** Every stage keeps one entry per row in every column *)

Lemma wf_setitem df c s :
  wf_frame df -> series_len s = nrows df -> wf_frame (setitem c s df).
Proof.
  unfold wf_frame, setitem, columns. simpl. intros [ND Hwf] Hs. split.
  - rewrite keys_assign. destruct (assoc c (cols df)) eqn:E; [done|].
    apply NoDup_app. split; [done|]. split; [|apply NoDup_singleton].
    intros x Hx Hc. apply list_elem_of_singleton in Hc. subst x.
    by apply assoc_None in E.
  - clear ND. induction Hwf as [|[k w] l Hk Hl IH]; simpl.
    + by repeat constructor.
    + destruct (String.eqb c k); constructor; done.
Qed.

Lemma rename_columns_rows df :
  nrows (rename_columns df) = nrows df /\
  (snd <$> cols (rename_columns df)) = (snd <$> cols df).
Proof.
  split; [done|]. unfold rename_columns. simpl.
  rewrite <- list_fmap_compose. by apply list_fmap_ext.
Qed.

Lemma astype_float_len s l : astype_float s = Ok l -> length l = series_len s.
Proof.
  destruct s; simpl; try discriminate; intros [= <-];
    [apply length_fmap | done].
Qed.

Lemma safe_div_len a b r :
  safe_div a b = Ok r -> series_len r = Nat.min (series_len a) (series_len b).
Proof.
  unfold safe_div. intros H. bind_inv H. injection H as <-.
  apply astype_float_len in E, E0. simpl.
  unfold np_where, eq_scalar, true_divide.
  rewrite !length_zip_with, length_fmap. lia.
Qed.

Lemma series_add_len a b r :
  series_add a b = Ok r -> series_len r = Nat.min (series_len a) (series_len b).
Proof.
  unfold series_add. intros H.
  destruct a as [u|u|u|u|u|u], b as [w|w|w|w|w|w]; simpl in H;
    try discriminate; injection H as <-; simpl;
    rewrite length_zip_with, ?length_fmap; lia.
Qed.

Lemma series_gt_len a b r :
  series_gt a b = Ok r -> series_len r = Nat.min (series_len a) (series_len b).
Proof.
  unfold series_gt. intros H.
  destruct a as [u|u|u|u|u|u], b as [w|w|w|w|w|w]; simpl in H;
    try discriminate; injection H as <-; simpl;
    rewrite length_zip_with, ?length_fmap; lia.
Qed.

Lemma mapR_Forall2 {A B} (f : A -> result B) l r :
  mapR f l = Ok r -> Forall2 (fun a b => f a = Ok b) l r.
Proof.
  revert r. induction l as [|a l IH]; intros r H; simpl in H.
  - injection H as <-. constructor.
  - bind_inv H. injection H as <-. constructor; [done | by apply IH].
Qed.

Lemma sum_axis1_len n sel r :
  Forall (fun s => series_len s = n) sel ->
  sum_axis1 n sel = Ok r -> series_len r = n.
Proof.
  intros HF. unfold sum_axis1.
  destruct (all_some (as_int64 <$> sel)) as [cs|] eqn:E.
  - intros [= <-]. simpl. unfold row_sum_int. apply length_fold_columns.
    + intros acc c Ha Hc. rewrite length_zip_with. lia.
    + apply all_some_Forall2, Forall2_fmap_l in E.
      apply Forall_lookup. intros j c Hc.
      destruct (Forall2_lookup_r _ _ _ _ _ E Hc) as (s & Hs & Hsc).
      destruct s; simpl in Hsc; try discriminate. injection Hsc as ->.
      by apply (proj1 (Forall_lookup _ _) HF j _ Hs).
    + apply length_replicate.
  - intros H. bind_inv H. injection H as <-. simpl. unfold row_sum_float.
    apply length_fold_columns.
    + intros acc c Ha Hc. rewrite length_zip_with, length_fmap. lia.
    + apply mapR_Forall2 in E0. apply Forall_lookup. intros j f Hf.
      destruct (Forall2_lookup_r _ _ _ _ _ E0 Hf) as (s & Hs & Hsf).
      apply astype_float_len in Hsf. rewrite Hsf.
      by apply (proj1 (Forall_lookup _ _) HF j _ Hs).
    + apply length_replicate.
Qed.

Lemma astype_int_len s l : astype_int s = Ok l -> length l = series_len s.
Proof.
  destruct s as [v|v|v|v|v|v]; simpl; try discriminate.
  - by intros [= <-].
  - destruct (all_some v) as [zs|] eqn:E; [|discriminate].
    intros [= <-]. by apply all_some_length.
Qed.

Lemma getitem_len df c s :
  wf_frame df -> getitem c df = Ok s -> series_len s = nrows df.
Proof. intros Hwf H. apply getitem_Ok in H. by eapply wf_assoc. Qed.

Ltac lengths Hwf :=
  repeat match goal with
    | E : getitem _ _ = Ok _ |- _ => apply (getitem_len _ _ _ Hwf) in E
    | E : safe_div _ _ = Ok _ |- _ => apply safe_div_len in E
    | E : series_add _ _ = Ok _ |- _ => apply series_add_len in E
    | E : series_gt _ _ = Ok _ |- _ => apply series_gt_len in E
    | E : astype_int _ = Ok _ |- _ => apply astype_int_len in E
    end.

Lemma wf_quality_check df df' chk :
  wf_frame df -> quality_check df = Ok (df', chk) -> wf_frame df'.
Proof.
  intros Hwf H. unfold quality_check in H. bind_inv H.
  - injection H as <- _. apply wf_setitem; [done|].
    apply sum_axis1_len in E0.
    + lengths Hwf. lia.
    + apply mapR_Forall2 in E. apply Forall_lookup. intros j s Hs.
      destruct (Forall2_lookup_r _ _ _ _ _ E Hs) as (c & _ & Hc).
      by eapply getitem_len.
  - by injection H as <- _.
Qed.

Lemma wf_run_pass p df df' :
  wf_frame df -> run_pass p df = Ok df' -> wf_frame df'.
Proof using to_datetime_length.
  intros Hwf H. destruct p; simpl in H.
  - unfold derive_year_month in H. bind_inv H; injection H as <-; [|done].
    rewrite getitem_setitem in E3. injection E3 as <-.
    simpl in E4. injection E4 as <-. lengths Hwf.
    assert (L : length (to_datetime (zip_with first_of_month a0 a2)) = nrows df)
      by (rewrite to_datetime_length, length_zip_with; lia).
    apply wf_setitem; [apply wf_setitem; [done|exact L]|].
    simpl. by rewrite length_fmap.
  - unfold derive_delayed_rate in H. bind_inv H; injection H as <-; [|done].
    apply wf_setitem; [done|]. lengths Hwf. lia.
  - unfold derive_cancellation_rate in H. bind_inv H; injection H as <-; [|done].
    apply wf_setitem; [done|]. lengths Hwf. lia.
  - unfold derive_avg_delay in H. bind_inv H; injection H as <-; [|done].
    apply wf_setitem; [done|]. lengths Hwf. lia.
  - unfold derive_cause_share_ct in H. bind_inv H; injection H as <-; [|done].
    apply wf_setitem; [done|]. lengths Hwf. lia.
  - unfold derive_cause_share_min in H. bind_inv H; injection H as <-; [|done].
    apply wf_setitem; [done|]. lengths Hwf. lia.
  - destruct (quality_check df) as [[d c]|] eqn:E; simpl in H; [|done].
    injection H as <-. by eapply wf_quality_check.
Qed.

(** C10, as amended.  A pass that returns leaves the row count as it
    was and the table well formed, leaves every column whose label is
    not one of the labels it derives with the same values in the same
    row order, keeps the existing labels in their places and puts the
    labels it adds after them.  A column that already bears a derived
    label is overwritten; on a table without such a column every
    existing column is unchanged. *)
Theorem pass_changes_only_its_derived_columns (p : pass) (df df' : frame) :
  wf_frame df -> run_pass p df = Ok df' ->
  nrows df' = nrows df /\ wf_frame df' /\
  (forall c, c ∉ derived p -> assoc c (cols df') = assoc c (cols df)) /\
  (exists new, columns df' = columns df ++ new /\
     forall c, c ∈ new -> c ∈ derived p /\ c ∉ columns df) /\
  ((forall d, d ∈ derived p -> d ∉ columns df) ->
   forall c s, assoc c (cols df) = Some s -> assoc c (cols df') = Some s).
Proof using to_datetime_length.
  intros Hwf H. destruct (run_pass_assigns p df df' H) as (N & F & A).
  split; [exact N|]. split; [by eapply wf_run_pass|].
  split; [exact F|]. split; [exact A|].
  intros Hfresh c s Hc. rewrite F; [done|].
  intros Hd. apply (Hfresh c Hd). by eapply assoc_Some_elem.
Qed.

Lemma to_numeric_len s s' : to_numeric s = Ok s' -> series_len s' = series_len s.
Proof.
  destruct s as [v|v|v|v|v|v]; simpl; try discriminate; try by intros [= <-].
  destruct (all_some (as_int <$> (parsed_cell <$> v))) as [zs|] eqn:E;
    intros [= <-]; simpl.
  - apply all_some_length in E. by rewrite E, !length_fmap.
  - by rewrite !length_fmap.
Qed.

Lemma coerce_count_len s s' :
  coerce_count s = Ok s' -> series_len s' = series_len s.
Proof.
  unfold coerce_count. intros H. bind_inv H. apply to_numeric_len in E.
  rewrite <- E. destruct a; simpl in H; try discriminate; injection H as <-;
    simpl; by rewrite ?length_fmap.
Qed.

Lemma coerce_calendar_len s s' :
  coerce_calendar s = Ok s' -> series_len s' = series_len s.
Proof.
  unfold coerce_calendar. intros H. bind_inv H. apply to_numeric_len in E.
  rewrite <- E. destruct a as [v|v|v|v|v|v]; simpl in H; try discriminate.
  - injection H as <-. simpl. by rewrite length_fmap.
  - bind_inv H. injection H as <-. simpl.
    apply mapR_Forall2 in E0. symmetry. by eapply Forall2_length.
Qed.

Lemma wf_for_present f names df df' :
  (forall s s', f s = Ok s' -> series_len s' = series_len s) ->
  wf_frame df -> for_present f names df = Ok df' ->
  wf_frame df' /\ nrows df' = nrows df.
Proof.
  intros Hf. revert df. induction names as [|col rest IH]; intros df Hwf H.
  - by injection H as <-.
  - simpl in H. destruct (has_col df col).
    + bind_inv H. destruct (IH _ (wf_setitem df col a0 Hwf ltac:(
        rewrite (Hf _ _ E0); by eapply getitem_len)) H) as [W N].
      by split.
    + by apply IH.
Qed.

Lemma for_each_nrows (L : list pass) df out :
  wf_frame df -> for_each run_pass L df = Ok out ->
  wf_frame out /\ nrows out = nrows df.
Proof using to_datetime_length.
  intros Hwf H.
  eapply (for_each_invariant (fun t => wf_frame t /\ nrows t = nrows df));
    [|by split|exact H].
  intros q t t' _ [Wt Nt] Hrun. split; [by eapply wf_run_pass|].
  destruct (run_pass_assigns q t t' Hrun) as (N & _). congruence.
Qed.

(** Cleaning keeps the number of rows and the shape of the table. *)
Lemma clean_rows raw df chk :
  wf_frame (rename_columns raw) -> clean raw = Ok (df, chk) ->
  wf_frame df /\ nrows df = nrows raw.
Proof using to_datetime_length.
  intros Hwf H. unfold clean in H.
  destruct (type_coerce (rename_columns raw)) as [t1|] eqn:E1; simpl in H; [|done].
  destruct (kpi_derive t1) as [t2|] eqn:E2; simpl in H; [|done].
  unfold type_coerce in E1.
  destruct (coerce_counts (rename_columns raw)) as [t0|] eqn:E0; simpl in E1; [|done].
  apply wf_for_present in E0 as [W0 N0];
    [|exact coerce_count_len|exact Hwf].
  apply wf_for_present in E1 as [W1 N1]; [|exact coerce_calendar_len|done].
  rewrite kpi_derive_passes in E2. apply for_each_nrows in E2 as [W2 N2]; [|done].
  split; [by eapply wf_quality_check|].
  destruct (quality_check_assigns _ _ _ H) as (N & _).
  rewrite N, N2, N1, N0. apply rename_columns_rows.
Qed.

(** *** The year-month rule on a missing year *)

(** C4 fails on a table in which one row has no year: coercion turns the
    missing year into [pd.NA], and [astype("int")] then raises before any
    date is built, so the rule, and with it the whole cleaning, ends in a
    [ValueError] instead of an undefined date for that row. *)
Theorem year_month_raises_on_missing_year :
  type_coerce (rename_columns Demo.missing_year_table)
  = Ok (mkframe 2 [("year"%string, NullableInt [Some 2023%Z; None]);
                   ("month"%string, NullableInt [Some 1%Z; Some 2%Z])]) /\
  derive_year_month
    (mkframe 2 [("year"%string, NullableInt [Some 2023%Z; None]);
                ("month"%string, NullableInt [Some 1%Z; Some 2%Z])])
  = Raise ValueError /\
  clean Demo.missing_year_table = Raise ValueError.
Proof. repeat split; vm_compute; reflexivity. Qed.

(** *** The artifacts *)

Lemma take_at_length {A} (idx : list nat) (l : list A) :
  Forall (fun i => i < length l) idx -> length (take_at idx l) = length idx.
Proof.
  unfold take_at. induction 1 as [|i idx Hi _ IH]; csimpl; [done|].
  apply lookup_lt_is_Some_2 in Hi as [x Hx]. rewrite Hx. csimpl. by rewrite IH.
Qed.

Lemma take_rows_len (idx : list nat) (s : series) :
  Forall (fun i => i < series_len s) idx ->
  series_len (take_rows idx s) = length idx.
Proof. destruct s; simpl; apply take_at_length. Qed.

(** C9.  The artifacts of a run are a function of the table read alone:
    two runs that start from any two states of the ambient random
    generator write the same cleaned table, sample and dictionary and
    report the same checks, the sample being drawn from a generator
    seeded afresh with 42; a run leaves the ambient generator untouched. *)
Theorem run_independent_of_ambient_generator (raw : frame) (g1 g2 : rng) :
  fst (run raw g1) = fst (run raw g2) /\ snd (run raw g1) = g1.
Proof.
  unfold run. destruct (clean raw) as [[df chk]|]; simpl; [|done].
  unfold sample. destruct (nrows df <? Nat.min (nrows df) 500); simpl; done.
Qed.

(** [RandomState.permutation(n)] returns the numbers below [n] in some
    order. *)
Hypothesis rng_permutation_shuffles :
  forall g n, Permutation (fst (rng_permutation g n)) (seq 0 n).

Lemma sample_seeded (seed : Z) (k : nat) (df : frame) (g : rng) :
  wf_frame df -> k <= nrows df ->
  exists smp, sample k (Some seed) df g = (Ok smp, g) /\
    nrows smp = k /\ wf_frame smp /\ columns smp = columns df.
Proof using rng_permutation_shuffles.
  intros Hwf Hk. unfold sample.
  destruct (Nat.ltb_spec (nrows df) k) as [?|_]; [lia|].
  set (perm := fst (rng_permutation (rng_seed seed) (nrows df))).
  assert (Hperm : Permutation perm (seq 0 (nrows df)))
    by apply rng_permutation_shuffles.
  assert (Hlen : length (firstn k perm) = k).
  { rewrite length_take, (Permutation_length Hperm), length_seq. lia. }
  assert (Hidx : Forall (fun i => i < nrows df) (firstn k perm)).
  { apply Forall_forall. intros i Hi.
    assert (Hin : i ∈ perm).
    { apply elem_of_take in Hi as (j & Hj & _). by eapply list_elem_of_lookup_2. }
    rewrite Hperm in Hin. apply elem_of_seq in Hin. lia. }
  eexists. split; [reflexivity|]. simpl. split; [exact Hlen|]. split.
  - assert (C : forall l : list (string * series),
              ((fun cs : string * series =>
                  (fst cs, take_rows (firstn k perm) (snd cs))) <$> l).*1 = l.*1).
    { intros l. rewrite <- list_fmap_compose. by apply list_fmap_ext. }
    destruct Hwf as [ND HF]. split; unfold columns; simpl.
    + by rewrite C.
    + apply Forall_fmap. eapply Forall_impl; [exact HF|].
      intros [c s] Hs. simpl in *. apply take_rows_len. by rewrite Hs.
  - unfold columns. simpl. rewrite <- list_fmap_compose.
    by apply list_fmap_ext.
Qed.

(** C8.  When cleaning returns, the run returns its artifacts, and the
    sample among them has exactly [min(n, 500)] rows, [n] being the
    number of rows of the table read: that is its row count and the
    number of entries of each of its columns, which are the columns of
    the cleaned table. *)
Theorem sample_has_min_rows_500
  (raw df : frame) (chk : list (string * Z)) (g : rng) :
  wf_frame (rename_columns raw) -> clean raw = Ok (df, chk) ->
  exists smp,
    run raw g = (Ok {| cleaned := df; sampled := smp;
                       dictionary := data_dictionary df; checks := chk |}, g) /\
    nrows smp = Nat.min (nrows raw) 500 /\
    Forall (fun cs => series_len (snd cs) = Nat.min (nrows raw) 500) (cols smp) /\
    columns smp = columns df.
Proof using to_datetime_length rng_permutation_shuffles.
  intros Hwf Hclean. destruct (clean_rows raw df chk Hwf Hclean) as [W N].
  destruct (sample_seeded 42%Z (Nat.min (nrows df) 500) df g W)
    as (smp & E & Ns & Ws & Cs); [lia|].
  exists smp. unfold run. rewrite Hclean, E. rewrite <- N.
  split; [reflexivity|]. split; [exact Ns|]. split; [|exact Cs].
  rewrite <- Ns. apply Ws.
Qed.

(** ** Further properties of the stages *)

(** *** Normalized labels *)

(** Case analysis on the eight bits of a character. *)
Ltac each_char c := destruct c as [[] [] [] [] [] [] [] []].

Lemma all_chars_app p s t :
  all_chars p (s ++ t)%string = all_chars p s && all_chars p t.
Proof. induction s as [|c s IH]; simpl; [done|]. by rewrite IH, andb_assoc. Qed.

Lemma all_chars_impl (p q : ascii -> bool) s :
  (forall c, p c = true -> q c = true) ->
  all_chars p s = true -> all_chars q s = true.
Proof.
  intros H. induction s as [|c s IH]; simpl; [done|].
  intros [Hc Hs]%andb_true_iff. by rewrite (H c Hc), IH.
Qed.

Lemma all_chars_map p f s :
  (forall c, p (f c) = true) -> all_chars p (PyStr.map_chars f s) = true.
Proof. intros H. induction s as [|c s IH]; simpl; [done|]. by rewrite H, IH. Qed.

Lemma all_chars_map_impl (p q : ascii -> bool) f s :
  (forall c, p c = true -> q (f c) = true) ->
  all_chars p s = true -> all_chars q (PyStr.map_chars f s) = true.
Proof.
  intros H. induction s as [|c s IH]; simpl; [done|].
  intros [Hc Hs]%andb_true_iff. by rewrite (H c Hc), IH.
Qed.

Lemma all_chars_rev p acc s :
  all_chars p (PyStr.rev_string acc s) = all_chars p acc && all_chars p s.
Proof.
  revert acc. induction s as [|c s IH]; intros acc; simpl.
  - by rewrite andb_true_r.
  - rewrite IH. simpl. destruct (p c), (all_chars p acc), (all_chars p s); done.
Qed.

Lemma replace_from_cons old new k c s :
  PyStr.replace_from old new k (String c s)
  = match k with
    | S k' => PyStr.replace_from old new k' s
    | O =>
        if String.prefix old (String c s)
        then (new ++ PyStr.replace_from old new (String.length old - 1) s)%string
        else String c (PyStr.replace_from old new 0 s)
    end.
Proof. reflexivity. Qed.

Lemma all_chars_replace p old new k s :
  all_chars p new = true -> all_chars p s = true ->
  all_chars p (PyStr.replace_from old new k s) = true.
Proof.
  intros Hn. revert k. induction s as [|c s IH]; intros k Hs; [done|].
  simpl in Hs. apply andb_true_iff in Hs as [Hc Hs].
  rewrite replace_from_cons.
  destruct k as [|k]; [|by apply IH].
  destruct (String.prefix old (String c s)).
  - rewrite all_chars_app, Hn. simpl. by apply IH.
  - simpl. rewrite Hc. simpl. by apply IH.
Qed.

Lemma all_chars_lstrip p s :
  all_chars p s = true -> all_chars p (PyStr.lstrip s) = true.
Proof.
  induction s as [|c s IH]; simpl; [done|].
  intros H. destruct (PyStr.isspace c); [|done].
  apply andb_true_iff in H as [_ H]. by apply IH.
Qed.

Lemma Forall_flush q tok :
  all_chars q tok = true ->
  Forall (fun w => all_chars q w = true) (PyStr.flush tok).
Proof.
  intros H. destruct tok as [|c tok]; simpl; [constructor|].
  constructor; [|constructor].
  change (all_chars q (PyStr.rev_string EmptyString (String c tok)) = true).
  by rewrite all_chars_rev.
Qed.

Lemma Forall_split_from (p q : ascii -> bool) tok s :
  (forall c, p c = true -> PyStr.isspace c = false -> q c = true) ->
  all_chars q tok = true -> all_chars p s = true ->
  Forall (fun w => all_chars q w = true) (PyStr.split_from tok s).
Proof.
  intros H. revert tok. induction s as [|c s IH]; intros tok Ht Hs; simpl.
  - by apply Forall_flush.
  - simpl in Hs. apply andb_true_iff in Hs as [Hc Hs].
    destruct (PyStr.isspace c) eqn:E.
    + apply Forall_app. split; [by apply Forall_flush | by apply IH].
    + apply IH; [|done]. simpl. by rewrite (H c Hc E), Ht.
Qed.

Lemma all_chars_concat q sep l :
  all_chars q sep = true -> Forall (fun w => all_chars q w = true) l ->
  all_chars q (String.concat sep l) = true.
Proof.
  intros Hsep. induction 1 as [|w l Hw Hl IH]; simpl; [done|].
  destruct l as [|w' l]; [done|].
  by rewrite !all_chars_app, Hw, Hsep, IH.
Qed.

Lemma Forall_list_filter {A} (P : A -> Prop) (f : A -> bool) l :
  Forall P l -> Forall P (List.filter f l).
Proof.
  induction 1 as [|x l Hx Hl IH]; simpl; [constructor|].
  destruct (f x); [by constructor | done].
Qed.

Lemma snake_char_mapped c : is_mapped_char (snake_char c) = true.
Proof. each_char c; reflexivity. Qed.

Lemma lower_char_lowered c :
  is_mapped_char c = true -> is_lowered_char (PyStr.lower_char c) = true.
Proof. each_char c; vm_compute; congruence. Qed.

Lemma lowered_nonspace_snake c :
  is_lowered_char c = true -> PyStr.isspace c = false -> is_snake_char c = true.
Proof. each_char c; vm_compute; congruence. Qed.

Lemma to_snake_chars (s : string) :
  all_chars is_snake_char (to_snake s) = true.
Proof.
  unfold to_snake, PyStr.join.
  apply all_chars_concat; [reflexivity|].
  apply Forall_list_filter.
  apply (Forall_split_from is_lowered_char); [exact lowered_nonspace_snake|done|].
  apply (all_chars_map_impl is_mapped_char); [exact lower_char_lowered|].
  apply all_chars_replace; [reflexivity|].
  apply all_chars_map. exact snake_char_mapped.
Qed.

Lemma rev_string_rev s a b :
  PyStr.rev_string a (PyStr.rev_string b s) = PyStr.rev_string (s ++ a)%string b.
Proof.
  revert a b. induction s as [|c s IH]; intros a b; simpl; [done|].
  by rewrite IH.
Qed.

Lemma rev_string_involutive s :
  PyStr.rev_string EmptyString (PyStr.rev_string EmptyString s) = s.
Proof.
  rewrite rev_string_rev. simpl.
  induction s as [|c s IH]; simpl; [done|]. by rewrite IH.
Qed.

Lemma lstrip_nonspace s : all_chars nonspace s = true -> PyStr.lstrip s = s.
Proof.
  destruct s as [|c s]; simpl; [done|]. unfold nonspace.
  intros [Hc _]%andb_true_iff. by destruct (PyStr.isspace c).
Qed.

Lemma strip_nonspace s : all_chars nonspace s = true -> PyStr.strip s = s.
Proof.
  intros H. unfold PyStr.strip, PyStr.rstrip. rewrite (lstrip_nonspace s H).
  rewrite lstrip_nonspace; [apply rev_string_involutive|].
  by rewrite all_chars_rev.
Qed.

Lemma replace_absent old new s :
  occurs old s = false -> PyStr.replace old new s = s.
Proof.
  unfold PyStr.replace. induction s as [|c s IH]; [done|].
  intros H. change (String.prefix old (String c s) || occurs old s = false) in H.
  apply orb_false_iff in H as [Hp Ho].
  rewrite replace_from_cons, Hp. by rewrite IH.
Qed.

Lemma occurs_absent (p : ascii -> bool) x rest s :
  p x = false -> all_chars p s = true -> occurs (String x rest) s = false.
Proof.
  intros Hx. induction s as [|c s IH]; [done|].
  simpl. intros [Hc Hs]%andb_true_iff. rewrite (IH Hs), orb_false_r.
  destruct (Ascii.ascii_dec x c) as [->|]; [congruence|done].
Qed.

Lemma map_chars_fixed (p : ascii -> bool) f s :
  (forall c, p c = true -> f c = c) ->
  all_chars p s = true -> PyStr.map_chars f s = s.
Proof.
  intros H. induction s as [|c s IH]; simpl; [done|].
  intros [Hc Hs]%andb_true_iff. by rewrite (H c Hc), IH.
Qed.

Lemma split_from_nonspace tok s :
  all_chars nonspace s = true ->
  PyStr.split_from tok s = PyStr.flush (PyStr.rev_string tok s).
Proof.
  revert tok. induction s as [|c s IH]; intros tok; simpl; [done|].
  unfold nonspace at 1. intros [Hc Hs]%andb_true_iff.
  destruct (PyStr.isspace c); [done|]. by apply IH.
Qed.

Lemma rev_string_nonempty acc s :
  PyStr.nonempty acc = true -> PyStr.nonempty (PyStr.rev_string acc s) = true.
Proof.
  revert acc. induction s as [|c s IH]; intros acc H; simpl; [done|].
  by apply IH.
Qed.

(** A string without blanks is its own single word. *)
Lemma join_split_nonspace sep t :
  all_chars nonspace t = true ->
  PyStr.join sep (List.filter PyStr.nonempty (PyStr.split t)) = t.
Proof.
  intros H. unfold PyStr.split. rewrite split_from_nonspace by done.
  destruct t as [|c t]; [done|].
  pose proof (rev_string_nonempty (String c EmptyString) t eq_refl) as Hne.
  change (PyStr.rev_string EmptyString (String c t))
    with (PyStr.rev_string (String c EmptyString) t).
  destruct (PyStr.rev_string (String c EmptyString) t) as [|c' r] eqn:E;
    [done|].
  unfold PyStr.flush. rewrite <- E.
  change (PyStr.rev_string (String c EmptyString) t)
    with (PyStr.rev_string EmptyString (String c t)).
  rewrite rev_string_involutive. reflexivity.
Qed.

Lemma snake_nonspace c : is_snake_char c = true -> nonspace c = true.
Proof. each_char c; vm_compute; congruence. Qed.

Lemma snake_char_fixed c : is_snake_char c = true -> snake_char c = c.
Proof. each_char c; vm_compute; congruence. Qed.

Lemma lower_char_fixed c : is_snake_char c = true -> PyStr.lower_char c = c.
Proof. each_char c; vm_compute; congruence. Qed.

(** On a label over the snake alphabet only the collapsing step acts. *)
Lemma to_snake_on_snake s :
  all_chars is_snake_char s = true -> to_snake s = PyStr.replace "__" "_" s.
Proof.
  intros H. unfold to_snake.
  rewrite strip_nonspace by (eapply all_chars_impl; [exact snake_nonspace|done]).
  rewrite !(replace_absent _ " " s)
    by (by apply (occurs_absent is_snake_char)).
  rewrite (map_chars_fixed is_snake_char) by (done || exact snake_char_fixed).
  assert (Ht : all_chars is_snake_char (PyStr.replace "__" "_" s) = true)
    by (by apply all_chars_replace).
  unfold PyStr.lower.
  rewrite (map_chars_fixed is_snake_char) by (done || exact lower_char_fixed).
  apply join_split_nonspace.
  eapply all_chars_impl; [exact snake_nonspace|done].
Qed.

Lemma occurs_cons old c s :
  occurs old (String c s) = String.prefix old (String c s) || occurs old s.
Proof. reflexivity. Qed.

(** Collapsing never lengthens a label and shortens it when a doubled
    underscore occurs. *)
Lemma collapse_length (n : nat) (s : string) :
  String.length s <= n ->
  String.length (PyStr.replace "__" "_" s) <= String.length s /\
  (occurs "__" s = true ->
   String.length (PyStr.replace "__" "_" s) < String.length s).
Proof.
  unfold PyStr.replace. revert s.
  induction n as [|n IH]; intros s Hn.
  - destruct s; simpl in Hn; [|lia]. split; [done|].
    intros H. vm_compute in H. discriminate H.
  - destruct s as [|c r].
    { split; [done|]. intros H. vm_compute in H. discriminate H. }
    rewrite replace_from_cons, occurs_cons.
    destruct (String.prefix "__" (String c r)) eqn:Ep.
    + destruct r as [|c2 r'].
      { cbn [String.prefix] in Ep.
        destruct (Ascii.ascii_dec _ c) in Ep; discriminate Ep. }
      rewrite replace_from_cons.
      change (String.length "__" - 1) with 1.
      destruct (IH r') as [Hle _]; [simpl in Hn; lia|].
      cbn [String.append String.length]. simpl String.length in *. lia.
    + destruct (IH r) as [Hle Hlt]; [simpl in Hn; lia|].
      cbn [String.length orb]. split; [lia|].
      intros Ho. specialize (Hlt Ho). lia.
Qed.

Lemma to_snake_fixed_iff (s : string) :
  to_snake s = s <->
  all_chars is_snake_char s = true /\ occurs "__" s = false.
Proof.
  split.
  - intros H.
    assert (A : all_chars is_snake_char s = true)
      by (rewrite <- H; apply to_snake_chars).
    split; [exact A|].
    destruct (occurs "__" s) eqn:Eo; [|done]. exfalso.
    rewrite (to_snake_on_snake s A) in H.
    destruct (collapse_length (String.length s) s) as [_ Hlt]; [done|].
    specialize (Hlt Eo). rewrite H in Hlt. lia.
  - intros [A Ho]. rewrite (to_snake_on_snake s A). by apply replace_absent.
Qed.

(** X1.  A normalized ASCII label is made of lowercase letters, digits
    and underscores only: it holds no blank, no uppercase letter and none
    of the separators. *)
Theorem to_snake_alphabet (s : string) :
  all_chars is_ascii s = true ->
  all_chars is_snake_char (to_snake s) = true.
Proof. intros _. apply to_snake_chars. Qed.

(** X2.  The ASCII labels that [to_snake] returns unchanged are exactly
    those made of lowercase letters, digits and underscores in which no
    two underscores are adjacent. *)
Theorem to_snake_fixed_points (s : string) :
  all_chars is_ascii s = true ->
  (to_snake s = s <->
   all_chars is_snake_char s = true /\ occurs "__" s = false).
Proof. intros _. apply to_snake_fixed_iff. Qed.

(** X3.  Normalizing a normalized ASCII label changes nothing exactly
    when the normalized label holds no doubled underscore. *)
Theorem to_snake_twice (s : string) :
  all_chars is_ascii s = true ->
  (to_snake (to_snake s) = to_snake s <-> occurs "__" (to_snake s) = false).
Proof.
  intros _. rewrite to_snake_fixed_iff. split; [by intros [_ H]|].
  intros H. split; [apply to_snake_chars | exact H].
Qed.

Lemma map_chars_app f a b :
  PyStr.map_chars f (a ++ b)%string
  = (PyStr.map_chars f a ++ PyStr.map_chars f b)%string.
Proof. induction a as [|c a IH]; simpl; [done|]. by rewrite IH. Qed.

Lemma map_chars_rev f acc s :
  PyStr.rev_string (PyStr.map_chars f acc) (PyStr.map_chars f s)
  = PyStr.map_chars f (PyStr.rev_string acc s).
Proof.
  revert acc. induction s as [|c s IH]; intros acc; simpl; [done|].
  by rewrite <- IH.
Qed.

Lemma lstrip_map f s :
  (forall c, PyStr.isspace (f c) = PyStr.isspace c) ->
  PyStr.lstrip (PyStr.map_chars f s) = PyStr.map_chars f (PyStr.lstrip s).
Proof.
  intros H. induction s as [|c s IH]; simpl; [done|].
  rewrite H. by destruct (PyStr.isspace c).
Qed.

Lemma strip_map f s :
  (forall c, PyStr.isspace (f c) = PyStr.isspace c) ->
  PyStr.strip (PyStr.map_chars f s) = PyStr.map_chars f (PyStr.strip s).
Proof.
  intros H. unfold PyStr.strip, PyStr.rstrip.
  rewrite (lstrip_map f s H).
  change EmptyString with (PyStr.map_chars f EmptyString).
  by rewrite map_chars_rev, (lstrip_map f _ H), map_chars_rev.
Qed.

Lemma prefix_map f old s :
  (forall x c, (x = f c <-> x = c) \/
               all_chars (fun y => negb (Ascii.eqb y x)) old = true) ->
  String.prefix old (PyStr.map_chars f s) = String.prefix old s.
Proof.
  revert s. induction old as [|x old IH]; intros s H; [by destruct s|].
  destruct s as [|c s]; [reflexivity|]. simpl.
  assert (IH' : String.prefix old (PyStr.map_chars f s) = String.prefix old s).
  { apply IH. intros y d. destruct (H y d) as [?|Hy]; [by left|right].
    simpl in Hy. by apply andb_true_iff in Hy as [_ ?]. }
  destruct (H x c) as [Hx|Hx].
  - destruct (Ascii.ascii_dec x (f c)) as [E|E], (Ascii.ascii_dec x c) as [E'|E'];
      try done.
    + by apply Hx in E.
    + by apply Hx in E'.
  - simpl in Hx. by rewrite Ascii.eqb_refl in Hx.
Qed.

Lemma replace_from_map f old new k s :
  (forall x c, (x = f c <-> x = c) \/
               all_chars (fun y => negb (Ascii.eqb y x)) old = true) ->
  PyStr.map_chars f new = new ->
  PyStr.replace_from old new k (PyStr.map_chars f s)
  = PyStr.map_chars f (PyStr.replace_from old new k s).
Proof.
  intros H Hn. revert k. induction s as [|c s IH]; intros k; [done|].
  change (PyStr.map_chars f (String c s))
    with (String (f c) (PyStr.map_chars f s)).
  rewrite !replace_from_cons.
  destruct k as [|k]; [|apply IH].
  change (String (f c) (PyStr.map_chars f s))
    with (PyStr.map_chars f (String c s)).
  rewrite (prefix_map f old (String c s) H).
  destruct (String.prefix old (String c s)).
  - by rewrite map_chars_app, Hn, IH.
  - simpl. by rewrite IH.
Qed.

Lemma lower_isspace c : PyStr.isspace (PyStr.lower_char c) = PyStr.isspace c.
Proof. each_char c; reflexivity. Qed.

Lemma lower_snake_char c :
  snake_char (PyStr.lower_char c) = PyStr.lower_char (snake_char c).
Proof. each_char c; reflexivity. Qed.

Lemma lower_lower_char c :
  PyStr.lower_char (PyStr.lower_char c) = PyStr.lower_char c.
Proof. each_char c; reflexivity. Qed.

Lemma lower_char_letter c :
  PyStr.lower_char c = c \/ is_letter (PyStr.lower_char c) = true.
Proof. each_char c; vm_compute; auto. Qed.

Lemma lower_keeps_nonletter x c :
  is_letter x = false -> (x = PyStr.lower_char c <-> x = c).
Proof.
  intros Hx. split; intros ->.
  - destruct (lower_char_letter c) as [E|E]; [done|congruence].
  - unfold PyStr.lower_char. unfold is_letter in Hx.
    apply orb_false_iff in Hx as [-> _]. done.
Qed.

Lemma lower_keeps old :
  all_chars (fun y => negb (is_letter y)) old = true ->
  forall x c, (x = PyStr.lower_char c <-> x = c) \/
              all_chars (fun y => negb (Ascii.eqb y x)) old = true.
Proof.
  intros Hold x c. destruct (is_letter x) eqn:Ex.
  - right. eapply all_chars_impl; [|exact Hold].
    intros y Hy. apply negb_true_iff. apply Ascii.eqb_neq. intros ->.
    by rewrite Ex in Hy.
  - left. by apply lower_keeps_nonletter.
Qed.

Lemma replace_lower old new s :
  all_chars (fun y => negb (is_letter y)) old = true ->
  PyStr.lower new = new ->
  PyStr.replace old new (PyStr.lower s) = PyStr.lower (PyStr.replace old new s).
Proof.
  intros Ho Hn. unfold PyStr.replace, PyStr.lower.
  apply replace_from_map; [by apply lower_keeps | exact Hn].
Qed.

Lemma map_chars_compose f g s :
  PyStr.map_chars f (PyStr.map_chars g s) = PyStr.map_chars (fun c => f (g c)) s.
Proof. induction s as [|c s IH]; simpl; [done|]. by rewrite IH. Qed.

Lemma map_chars_ext f g s :
  (forall c, f c = g c) -> PyStr.map_chars f s = PyStr.map_chars g s.
Proof. intros H. induction s as [|c s IH]; simpl; [done|]. by rewrite H, IH. Qed.

(** X4.  Normalization ignores case: an ASCII label and its lowercase
    form normalize to the same label. *)
Theorem to_snake_ignores_case (s : string) :
  all_chars is_ascii s = true ->
  to_snake (PyStr.lower s) = to_snake s.
Proof.
  intros _. unfold to_snake.
  assert (E : PyStr.lower
                (PyStr.replace "__" "_"
                   (PyStr.map_chars snake_char
                      (PyStr.replace "." " "
                         (PyStr.replace "-" " "
                            (PyStr.replace "/" " " (PyStr.strip (PyStr.lower s)))))))
              = PyStr.lower
                  (PyStr.replace "__" "_"
                     (PyStr.map_chars snake_char
                        (PyStr.replace "." " "
                           (PyStr.replace "-" " "
                              (PyStr.replace "/" " " (PyStr.strip s))))))).
  { unfold PyStr.lower at 2. rewrite (strip_map _ _ lower_isspace).
    fold (PyStr.lower (PyStr.strip s)).
    rewrite !replace_lower by reflexivity.
    unfold PyStr.lower at 2. rewrite map_chars_compose.
    rewrite (map_chars_ext _ (fun c => PyStr.lower_char (snake_char c)))
      by exact lower_snake_char.
    rewrite <- map_chars_compose. fold (PyStr.lower
      (PyStr.map_chars snake_char
         (PyStr.replace "." " "
            (PyStr.replace "-" " " (PyStr.replace "/" " " (PyStr.strip s)))))).
    rewrite replace_lower by reflexivity.
    unfold PyStr.lower. rewrite map_chars_compose.
    apply map_chars_ext. exact lower_lower_char. }
  by rewrite E.
Qed.

Lemma replace_single x y s :
  PyStr.replace (String x EmptyString) (String y EmptyString) s
  = PyStr.map_chars (fun c => if Ascii.eqb c x then y else c) s.
Proof.
  unfold PyStr.replace. induction s as [|c s IH]; [done|].
  rewrite replace_from_cons. cbn [String.prefix].
  destruct (Ascii.ascii_dec x c) as [<-|Hne].
  - replace (String.prefix EmptyString s) with true by (by destruct s).
    simpl. by rewrite Ascii.eqb_refl, IH.
  - simpl. rewrite IH.
    destruct (Ascii.eqb_spec c x) as [->|_]; [done|reflexivity].
Qed.

Lemma blank_after_mapping c :
  is_blank_or_separator c = true ->
  snake_char
    ((fun c => if Ascii.eqb c "." then " "%char else c)
       ((fun c => if Ascii.eqb c "-" then " "%char else c)
          ((fun c => if Ascii.eqb c "/" then " "%char else c) c)))
  = " "%char.
Proof. each_char c; vm_compute; congruence. Qed.

Lemma split_from_blank s :
  all_chars PyStr.isspace s = true -> PyStr.split_from EmptyString s = [].
Proof.
  induction s as [|c s IH]; simpl; [done|].
  intros [Hc Hs]%andb_true_iff. rewrite Hc. simpl. by apply IH.
Qed.

(** X5.  A label that, once stripped, holds only blanks and the
    separators [/], [-] and [.] has no word: it normalizes to the empty
    label. *)
Theorem to_snake_without_words (s : string) :
  all_chars is_blank_or_separator (PyStr.strip s) = true ->
  to_snake s = EmptyString.
Proof.
  intros H. unfold to_snake.
  rewrite !replace_single, !map_chars_compose.
  set (t := PyStr.map_chars _ (PyStr.strip s)).
  assert (Ht : all_chars is_blank t = true).
  { subst t. eapply all_chars_map_impl; [|exact H].
    intros c Hc. rewrite (blank_after_mapping c Hc). reflexivity. }
  rewrite (replace_absent "__" "_" t)
    by (by apply (occurs_absent is_blank)).
  unfold PyStr.split. rewrite split_from_blank; [reflexivity|].
  unfold PyStr.lower. eapply all_chars_map_impl; [|exact Ht].
  intros c Hc. unfold is_blank in Hc. apply Ascii.eqb_eq in Hc. by subst c.
Qed.

(** *** When a ratio is undefined

    A division of binary64 values rounds a quotient that is not
    negative, so it yields NaN only from NaN, from two zeros or from two
    infinities. *)

Local Open Scope Z_scope.

Lemma shr_fexp_nonneg (m e : Z) (l : location) :
  0 <= m -> 0 <= shr_m (fst (shr_fexp F64.prec F64.emax m e l)).
Proof.
  intros Hm. unfold shr_fexp, shr.
  destruct (fexp F64.prec F64.emax (Zdigits2 m + e) - e) as [|q|q]; simpl.
  - rewrite shr_m_of_loc. lia.
  - rewrite shr_m_iter by (rewrite shr_m_of_loc; lia).
    rewrite shr_m_of_loc. apply Z.div_pos; lia.
  - rewrite shr_m_of_loc. lia.
Qed.

Lemma binary_round_aux_not_nan (s : bool) (m e : Z) (l : location) :
  0 <= m -> F64.isnan (binary_round_aux F64.prec F64.emax s m e l) = false.
Proof.
  intros Hm. unfold binary_round_aux.
  pose proof (shr_fexp_nonneg m e l Hm) as H1.
  destruct (shr_fexp F64.prec F64.emax m e l) as [mrs' e']. simpl in H1.
  pose proof (round_nearest_even_ge (shr_m mrs') (loc_of_shr_record mrs')) as Hr.
  pose proof (shr_fexp_nonneg
                (round_nearest_even (shr_m mrs') (loc_of_shr_record mrs'))
                e' loc_Exact) as H3.
  destruct (shr_fexp F64.prec F64.emax _ e' loc_Exact) as [mrs'' e''].
  simpl in H3. destruct (shr_m mrs''); [done| |lia].
  by destruct (_ <=? _).
Qed.

Lemma div_finite_not_nan (sx sy : bool) (mx my : positive) (ex ey : Z) :
  F64.isnan (F64.div (S754_finite sx mx ex) (S754_finite sy my ey)) = false.
Proof.
  unfold F64.div, SFdiv, SFdiv_core_binary.
  match goal with
  | |- context [Z.div_eucl ?m' (Z.pos my)] =>
      assert (Hm : 0 <= m');
      [|pose proof (Z.div_pos m' (Z.pos my) Hm eq_refl) as Hq;
        unfold Z.div in Hq; destruct (Z.div_eucl m' (Z.pos my)) as [q r]]
  end.
  - match goal with |- 0 <= match ?s with _ => _ end => destruct s end;
      [lia | apply Z.shiftl_nonneg; lia | lia].
  - by apply binary_round_aux_not_nan.
Qed.

Lemma of_int_not_nan (z : Z) : F64.isnan (F64.of_int z) = false.
Proof.
  destruct z as [|p|p]; simpl; [reflexivity| |]; unfold binary_round;
    destruct (shl_align _ _ _) as [mz ez];
    apply binary_round_aux_not_nan; lia.
Qed.

Local Close Scope Z_scope.

Lemma div_nan_cases (x y : spec_float) :
  F64.isnan (F64.div x y)
  = F64.isnan x || F64.isnan y || (F64.is_zero x && F64.is_zero y)
    || (is_infinite x && is_infinite y).
Proof.
  destruct x as [sx|sx| |sx mx ex], y as [sy|sy| |sy my ey]; try reflexivity.
  apply div_finite_not_nan.
Qed.

Lemma safe_ratio_nan (a b : num) :
  F64.isnan (safe_ratio a b)
  = num_is_zero b || F64.isnan (num_to_float a) || F64.isnan (num_to_float b)
    || (is_infinite (num_to_float a) && is_infinite (num_to_float b)).
Proof.
  unfold safe_ratio. rewrite <- num_to_float_is_zero.
  destruct (F64.is_zero (num_to_float b)) eqn:Z; [done|].
  rewrite div_nan_cases, Z. simpl.
  by rewrite andb_false_r, orb_false_r.
Qed.

(** X6.  [safe_div] leaves a row undefined in four cases and no other:
    the denominator is zero, the numerator is missing, the denominator is
    missing, or both are infinite.  A zero numerator over a denominator
    that is not zero is not among them. *)
Theorem safe_div_undefined_exactly (x y : series) (i : nat) (a b : num) :
  is_numeric x = true -> is_numeric y = true ->
  series_len x = series_len y ->
  cell_num x i = Some a -> cell_num y i = Some b ->
  exists out r, safe_div x y = Ok (Float64 out) /\ out !! i = Some r /\
    (F64.isnan r = true <->
     num_is_zero b = true \/ F64.isnan (num_to_float a) = true \/
     F64.isnan (num_to_float b) = true \/
     (is_infinite (num_to_float a) = true /\
      is_infinite (num_to_float b) = true)).
Proof.
  intros Hn Hd Hl Ha Hb.
  destruct (safe_div_rows x y Hn Hd Hl) as (out & E & _ & R).
  exists out, (safe_ratio a b). split; [exact E|]. split; [by apply R|].
  rewrite safe_ratio_nan, !orb_true_iff, andb_true_iff.
  split; [intros [[[?|?]|?]|?]|intros [?|[?|[?|?]]]]; auto.
Qed.

(** *** The rules that divide one column by another *)

Lemma passes_NoDup : NoDup (kpi_passes ++ [Quality]).
Proof.
  unfold kpi_passes, causes. simpl.
  repeat (constructor; [intros H; split_in H; discriminate|]). constructor.
Qed.

(** What a rule of the KPI stage assigns from its sources is what the
    table carries under that label when the enrichment ends. *)
Lemma pass_output_kept (p : pass) (d : string) (P : series -> Prop) df out :
  p ∈ kpi_passes -> d ∈ derived p ->
  (forall t t',
     (forall s, s ∈ sources p -> assoc s (cols t) = assoc s (cols df)) ->
     run_pass p t = Ok t' -> exists r, assoc d (cols t') = Some r /\ P r) ->
  for_each run_pass (kpi_passes ++ [Quality]) df = Ok out ->
  exists r, assoc d (cols out) = Some r /\ P r.
Proof.
  intros Hp Hd Hrule H.
  assert (Hp' : p ∈ kpi_passes ++ [Quality]) by (apply elem_of_app; by left).
  pose proof passes_NoDup as ND.
  destruct (list_elem_of_split _ _ Hp') as (L1 & L2 & EL).
  rewrite EL in H, ND.
  assert (Hin : forall q, q ∈ L1 \/ q ∈ L2 -> q ∈ kpi_passes ++ [Quality]).
  { intros q Hq. rewrite EL. apply elem_of_app.
    destruct Hq; [by left | right; by apply list_elem_of_further]. }
  apply NoDup_app in ND as (_ & N1 & ND). apply NoDup_cons in ND as [N2 _].
  rewrite for_each_app in H.
  destruct (for_each run_pass L1 df) as [t|] eqn:E1; simpl in H; [|done].
  destruct (run_pass p t) as [t'|] eqn:E2; simpl in H; [|done].
  destruct (Hrule t t') as (r & Ar & Pr); [|exact E2|].
  { intros s Hs. eapply for_each_keeps; [|exact E1].
    intros q Hq. eapply (source_never_derived p); [exact Hp'| |exact Hs].
    apply Hin. by left. }
  exists r. split; [|exact Pr]. rewrite <- Ar.
  eapply for_each_keeps; [|exact H].
  intros q Hq Hdq.
  assert (p = q) as <-.
  { eapply kpi_derived_unique; [exact Hp| |exact Hd|exact Hdq]. apply Hin. by right. }
  done.
Qed.

Lemma ratio_rule_eq (p : pass) (a b o : string) (x y : series) df :
  ratio_rule p = Some (a, b, o) ->
  assoc a (cols df) = Some x -> assoc b (cols df) = Some y ->
  run_pass p df = (do r <- safe_div x y; Ok (setitem o r df)).
Proof.
  destruct p; simpl; try discriminate; intros [= <- <- <-] Ha Hb;
    unfold derive_delayed_rate, derive_avg_delay, derive_cause_share_ct,
      derive_cause_share_min, issubset, has_col, getitem; simpl;
    by rewrite Ha, Hb.
Qed.

Lemma ratio_rule_labels (p : pass) (a b o : string) :
  ratio_rule p = Some (a, b, o) ->
  (a ∈ sources p) /\ (b ∈ sources p) /\ (o ∈ derived p).
Proof.
  destruct p; simpl; try discriminate; intros [= <- <- <-];
    repeat split; in_list.
Qed.

(** X7.  The delayed rate, the average delay and the ten cause shares
    are SafeRatio row by row: on a table that carries the numerator and
    the denominator of such a rule as numeric columns, the rule assigns,
    without raising, the column that holds at every row SafeRatio of the
    two cells of that row, and the table the enrichment returns carries
    that column under the rule's label. *)
Theorem ratio_rule_divides_row_by_row
  (p : pass) (df : frame) (a b o : string) (x y : series) :
  wf_frame df -> ratio_rule p = Some (a, b, o) ->
  assoc a (cols df) = Some x -> assoc b (cols df) = Some y ->
  is_numeric x = true -> is_numeric y = true ->
  exists rate,
    run_pass p df = Ok (setitem o (Float64 rate) df) /\
    length rate = nrows df /\
    (forall i, i < nrows df ->
       exists u v, cell_num x i = Some u /\ cell_num y i = Some v /\
         rate !! i = Some (safe_ratio u v)) /\
    (p ∈ kpi_passes -> forall out chk, enrich df = Ok (out, chk) ->
       assoc o (cols out) = Some (Float64 rate)).
Proof.
  intros Hwf Hr Ax Ay Hx Hy.
  pose proof (wf_assoc _ _ _ Hwf Ax) as Lx.
  pose proof (wf_assoc _ _ _ Hwf Ay) as Ly.
  destruct (safe_div_rows x y Hx Hy) as (rate & E & L & R); [lia|].
  destruct (ratio_rule_labels p a b o Hr) as (Sa & Sb & Do).
  exists rate. split; [|split; [lia|split]].
  - rewrite (ratio_rule_eq p a b o x y df Hr Ax Ay), E. done.
  - intros i Hi.
    destruct (cell_num_is_Some x i Hx) as [u Hu]; [lia|].
    destruct (cell_num_is_Some y i Hy) as [v Hv]; [lia|].
    exists u, v. repeat split; try assumption. by apply R.
  - intros Hp out chk H. apply enrich_passes in H.
    destruct (pass_output_kept p o (fun r => r = Float64 rate) df out Hp Do)
      as (r & Ar & ->); [|exact H|exact Ar].
    intros t t' K Hrun.
    rewrite (ratio_rule_eq p a b o x y t Hr) in Hrun.
    + rewrite E in Hrun. simpl in Hrun. injection Hrun as <-.
      eexists. split; [apply assoc_assign_eq|reflexivity].
    + by rewrite K.
    + by rewrite K.
Qed.

(** *** Type coercion: what it keeps *)

Lemma calendar_not_designated (c : string) :
  c ∈ ["year"; "month"]%string -> c ∉ count_cols ++ delay_min_cols.
Proof.
  intros Hc Hin. unfold count_cols, delay_min_cols in Hin. simpl in Hin.
  split_in Hc; subst; split_in Hin; discriminate.
Qed.

Lemma type_coerce_stages df df' :
  type_coerce df = Ok df' ->
  exists t, for_present coerce_count (count_cols ++ delay_min_cols) df = Ok t /\
            for_present coerce_calendar ["year"; "month"]%string t = Ok df'.
Proof.
  unfold type_coerce, coerce_counts, coerce_year_month. intros H.
  destruct (for_present coerce_count _ df) as [t|]; simpl in H; [|done].
  by exists t.
Qed.

(** X8.  Type coercion keeps the shape of the table: the row count, the
    labels and their order, one entry per row in every column, and every
    column other than the fifteen count and delay-minute columns and
    [year] and [month], which it leaves as read. *)
Theorem type_coerce_keeps_other_columns (df df' : frame) :
  wf_frame df -> type_coerce df = Ok df' ->
  nrows df' = nrows df /\ columns df' = columns df /\ wf_frame df' /\
  forall c, c ∉ count_cols ++ delay_min_cols -> c ∉ ["year"; "month"]%string ->
            assoc c (cols df') = assoc c (cols df).
Proof.
  intros Hwf H. destruct (type_coerce_stages _ _ H) as (t & E1 & E2).
  destruct (for_present_inv _ _ _ _ designated_NoDup E1) as (N1 & C1 & K1 & _).
  destruct (for_present_inv _ _ _ _ calendar_NoDup E2) as (N2 & C2 & K2 & _).
  split; [congruence|]. split; [congruence|]. split.
  - destruct (wf_for_present _ _ _ _ coerce_count_len Hwf E1) as [W1 _].
    by destruct (wf_for_present _ _ _ _ coerce_calendar_len W1 E2).
  - intros c Hc Hy. rewrite K2 by done. by apply K1.
Qed.

Lemma nan_to_zero_keeps (x : spec_float) :
  F64.isnan x = false -> nan_to_zero x = x.
Proof. unfold nan_to_zero. by intros ->. Qed.

Lemma coerce_count_parsed (s : series) (i : nat) (n : num) :
  is_raw s = true -> parsed_at s i = Some n ->
  F64.isnan (num_to_float n) = false ->
  exists s' m, coerce_count s = Ok s' /\ cell_num s' i = Some m /\
               num_to_float m = num_to_float n.
Proof.
  destruct s as [v|v|v|v|v|v]; simpl; try discriminate; intros _ Hp Hn;
    unfold coerce_count; simpl.
  - eexists _, n. repeat split. exact Hp.
  - destruct (v !! i) as [x|] eqn:Ex; [|done]. injection Hp as <-.
    eexists _, (NFloat x). split; [reflexivity|]. simpl.
    rewrite list_lookup_fmap, Ex. simpl. by rewrite nan_to_zero_keeps.
  - destruct (v !! i) as [o|] eqn:Eo; [|done]. simpl in Hp.
    destruct (all_some (as_int <$> (parsed_cell <$> v))) as [zs|] eqn:E; simpl.
    + apply all_some_Forall2 in E.
      assert (Hl : (as_int <$> (parsed_cell <$> v)) !! i
                   = Some (as_int (parsed_cell o)))
        by (by rewrite !list_lookup_fmap, Eo).
      destruct (Forall2_lookup_l _ _ _ _ _ E Hl) as (z & Hz & Hz').
      rewrite Hp in Hz'. destruct n as [z'|x]; simpl in Hz'; [|done].
      injection Hz' as <-. eexists _, (NInt z'). split; [reflexivity|].
      simpl. by rewrite Hz.
    + eexists _, (NFloat (num_to_float n)). split; [reflexivity|]. simpl.
      rewrite !list_lookup_fmap, Eo. simpl. rewrite Hp. simpl.
      by rewrite nan_to_zero_keeps.
Qed.

(** X9.  Type coercion keeps the numbers it finds: where a cell of a
    count or delay-minute column holds or parses to a number that is not
    NaN, the coerced column holds that number at that row, as an integer
    or as its binary64 value. *)
Theorem type_coerce_keeps_numbers
  (df df' : frame) (c : string) (s : series) (i : nat) (n : num) :
  wf_frame df ->
  c ∈ count_cols ++ delay_min_cols -> assoc c (cols df) = Some s ->
  is_raw s = true -> parsed_at s i = Some n ->
  F64.isnan (num_to_float n) = false ->
  type_coerce df = Ok df' ->
  exists s' m, assoc c (cols df') = Some s' /\ cell_num s' i = Some m /\
               num_to_float m = num_to_float n.
Proof.
  intros _ Hc As Hraw Hp Hn H.
  destruct (type_coerce_stages _ _ H) as (t & E1 & E2).
  destruct (for_present_inv _ _ _ _ designated_NoDup E1) as (_ & _ & _ & S1).
  destruct (for_present_inv _ _ _ _ calendar_NoDup E2) as (_ & _ & K2 & _).
  destruct (S1 c s Hc As) as (s' & Es & At).
  destruct (coerce_count_parsed s i n Hraw Hp Hn) as (s2 & m & E2' & Hm & Hv).
  rewrite Es in E2'. injection E2' as <-.
  exists s', m. repeat split; try assumption.
  rewrite K2; [exact At|]. intros Hin. by eapply calendar_not_designated.
Qed.

(** *** Type coercion of a coerced table *)

Lemma assign_same c s l : assoc c l = Some s -> assign c s l = l.
Proof.
  induction l as [|[k w] l IH]; simpl; [done|].
  destruct (String.eqb c k) eqn:E.
  - by intros [= ->].
  - intros H. by rewrite IH.
Qed.

Lemma setitem_same c s df : assoc c (cols df) = Some s -> setitem c s df = df.
Proof.
  intros H. unfold setitem. rewrite assign_same by done. by destruct df.
Qed.

Lemma for_present_fixed f names df :
  (forall c s, c ∈ names -> assoc c (cols df) = Some s -> f s = Ok s) ->
  for_present f names df = Ok df.
Proof.
  induction names as [|col rest IH]; intros Hf; simpl; [done|].
  unfold has_col, getitem.
  destruct (assoc col (cols df)) as [s|] eqn:E; simpl.
  - rewrite (Hf col s) by (done || apply list_elem_of_here). simpl.
    rewrite setitem_same by done. apply IH.
    intros c s' Hc. apply Hf. by apply list_elem_of_further.
  - apply IH. intros c s' Hc. apply Hf. by apply list_elem_of_further.
Qed.

Lemma nan_to_zero_idem (x : spec_float) :
  nan_to_zero (nan_to_zero x) = nan_to_zero x.
Proof. apply nan_to_zero_keeps, nan_to_zero_not_nan. Qed.

Lemma coerce_count_idem (s s' : series) :
  coerce_count s = Ok s' -> coerce_count s' = Ok s'.
Proof.
  unfold coerce_count.
  destruct s as [v|v|v|v|v|v]; simpl; try discriminate.
  - by intros [= <-].
  - intros [= <-]. simpl. do 2 f_equal. rewrite <- list_fmap_compose.
    apply list_fmap_ext. intros ? x _. simpl. apply nan_to_zero_idem.
  - destruct (all_some (as_int <$> (parsed_cell <$> v))) as [zs|]; simpl.
    + by intros [= <-].
    + intros [= <-]. simpl. do 2 f_equal. rewrite <- list_fmap_compose.
      apply list_fmap_ext. intros ? x _. simpl. apply nan_to_zero_idem.
Qed.

(** X10.  Coercing the count and delay-minute columns of a table whose
    count and delay-minute columns were coerced changes nothing. *)
Theorem coerce_counts_idempotent (df df' : frame) :
  wf_frame df -> coerce_counts df = Ok df' -> coerce_counts df' = Ok df'.
Proof.
  unfold coerce_counts. intros _ H.
  destruct (for_present_inv _ _ _ _ designated_NoDup H) as (_ & C & _ & S).
  apply for_present_fixed. intros c s' Hc As'.
  destruct (assoc c (cols df)) as [s|] eqn:As.
  - destruct (S c s Hc As) as (s2 & Es & A2).
    rewrite As' in A2. injection A2 as <-. by eapply coerce_count_idem.
  - exfalso. apply assoc_None in As. apply As.
    change ((cols df).*1) with (columns df). rewrite <- C.
    by eapply assoc_Some_elem.
Qed.

(** *** Type coercion of [year] and [month] *)

Lemma nullable_cell_Ok (x : spec_float) (o : option Z) :
  nullable_cell x = Ok o ->
  (F64.isnan x = true /\ o = None) \/
  (F64.isnan x = false /\ exists z, o = Some z /\ F64.to_int_exact x = Some z).
Proof.
  unfold nullable_cell. destruct (F64.isnan x).
  - intros [= <-]. by left.
  - destruct (F64.to_int_exact x) as [z|]; [|by destruct (within_int64 x)].
    intros [= <-]. right. split; [done|]. by exists z.
Qed.

Lemma nullable_cell_Raise (x : spec_float) (e : exn) :
  nullable_cell x = Raise e ->
  F64.isnan x = false /\ F64.to_int_exact x = None /\
  (within_int64 x = true -> e = TypeError).
Proof.
  unfold nullable_cell. destruct (F64.isnan x); [done|].
  destruct (F64.to_int_exact x); [done|].
  destruct (within_int64 x); intros [= <-]; by repeat split.
Qed.

Lemma mapR_Raise {A B} (f : A -> result B) (l : list A) (e : exn) :
  mapR f l = Raise e -> exists i a, l !! i = Some a /\ f a = Raise e.
Proof.
  induction l as [|a l IH]; simpl; [done|].
  destruct (f a) as [b|e'] eqn:E; simpl.
  - destruct (mapR f l) as [bs|e']; simpl; [done|]. intros [= ->].
    destruct IH as (i & a' & Hi & Ha); [done|]. by exists (S i), a'.
  - intros [= ->]. by exists 0, a.
Qed.

Lemma nullable_cells (w : list spec_float) (l : list (option Z)) :
  mapR nullable_cell w = Ok l ->
  length l = length w /\
  (forall i x, w !! i = Some x -> F64.isnan x = true -> l !! i = Some None) /\
  (forall i z, l !! i = Some (Some z) ->
     exists x, w !! i = Some x /\ F64.isnan x = false /\
               F64.to_int_exact x = Some z).
Proof.
  intros H. apply mapR_Forall2 in H. split; [|split].
  - symmetry. by eapply Forall2_length.
  - intros i x Hx Hn.
    destruct (Forall2_lookup_l _ _ _ _ _ H Hx) as (o & Ho & Hc).
    apply nullable_cell_Ok in Hc as [[_ ->]|[Hc _]]; [done|congruence].
  - intros i z Hz.
    destruct (Forall2_lookup_r _ _ _ _ _ H Hz) as (x & Hx & Hc).
    exists x. split; [done|].
    apply nullable_cell_Ok in Hc as [[_ ?]|(Hn & z' & [= <-] & Hc)]; done.
Qed.

(** The cells of a text column that does not parse to integers
    throughout, as binary64 values. *)
Lemma lookup_cell_float (v : list (option string)) (i : nat) (x : spec_float) :
  (cell_float <$> (parsed_cell <$> v)) !! i = Some x ->
  F64.isnan x = false ->
  exists n, v !! i ≫= parsed_cell = Some n /\ num_to_float n = x.
Proof.
  rewrite !list_lookup_fmap. destruct (v !! i) as [o|]; [|done]. simpl.
  intros [= <-] Hn. destruct (parsed_cell o) as [n|]; [|done]. by exists n.
Qed.

Lemma int_column_cells (v : list (option string)) (zs : list Z) :
  all_some (as_int <$> (parsed_cell <$> v)) = Some zs ->
  length zs = length v /\
  forall i, match v !! i with
            | Some o => exists z, zs !! i = Some z /\ parsed_cell o = Some (NInt z)
            | None => zs !! i = None
            end.
Proof.
  intros E. pose proof (all_some_length _ _ E) as L.
  rewrite !length_fmap in L. split; [done|].
  apply all_some_Forall2 in E. intros i.
  destruct (v !! i) as [o|] eqn:Eo.
  - assert (Hl : (as_int <$> (parsed_cell <$> v)) !! i
                 = Some (as_int (parsed_cell o)))
      by (by rewrite !list_lookup_fmap, Eo).
    destruct (Forall2_lookup_l _ _ _ _ _ E Hl) as (z & Hz & Hz').
    exists z. split; [done|].
    destruct (parsed_cell o) as [[z'|x]|]; simpl in Hz'; try done.
    by injection Hz' as <-.
  - apply lookup_ge_None. apply lookup_ge_None in Eo. lia.
Qed.

Lemma coerce_calendar_cells (s s' : series) :
  is_raw s = true -> coerce_calendar s = Ok s' ->
  exists v, s' = NullableInt v /\ length v = series_len s /\
    (forall i, unparseable_at s i = true -> v !! i = Some None) /\
    (forall i z, v !! i = Some (Some z) ->
       exists n, parsed_at s i = Some n /\
         (n = NInt z \/ F64.to_int_exact (num_to_float n) = Some z)).
Proof.
  unfold coerce_calendar.
  destruct s as [v|v|v|v|v|v]; simpl; try discriminate; intros _.
  - intros [= <-]. eexists. split; [reflexivity|].
    split; [apply length_fmap|]. split; [done|].
    intros i z. rewrite list_lookup_fmap.
    destruct (v !! i) as [z'|]; [|done]. intros [= <-].
    exists (NInt z'). split; [done|by left].
  - destruct (mapR nullable_cell v) as [l|] eqn:E; simpl; [|done].
    intros [= <-]. destruct (nullable_cells _ _ E) as (L & M & I).
    exists l. split; [done|]. split; [done|]. split.
    + intros i Hi. destruct (v !! i) as [x|] eqn:Ex; [|done]. by eapply M.
    + intros i z Hz. destruct (I i z Hz) as (x & Hx & _ & Hc).
      exists (NFloat x). rewrite Hx. split; [done|by right].
  - destruct (all_some (as_int <$> (parsed_cell <$> v))) as [zs|] eqn:E; simpl.
    + intros [= <-]. destruct (int_column_cells _ _ E) as [L R].
      eexists. split; [reflexivity|]. rewrite length_fmap.
      split; [done|]. split.
      * intros i Hi. exfalso. specialize (R i).
        destruct (v !! i) as [o|]; [|done].
        destruct R as (z & _ & Hz). by rewrite Hz in Hi.
      * intros i z. rewrite list_lookup_fmap. specialize (R i).
        destruct (v !! i) as [o|].
        -- destruct R as (z' & -> & Hz). intros [= <-]. simpl.
           exists (NInt z'). split; [done|by left].
        -- by rewrite R.
    + destruct (mapR nullable_cell _) as [l|] eqn:M; simpl; [|done].
      intros [= <-]. destruct (nullable_cells _ _ M) as (L & N & I).
      exists l. split; [done|]. rewrite !length_fmap in L. split; [done|]. split.
      * intros i Hi. destruct (v !! i) as [o|] eqn:Eo; [|done].
        eapply N; [by rewrite !list_lookup_fmap, Eo|].
        by destruct (parsed_cell o).
      * intros i z Hz. destruct (I i z Hz) as (x & Hx & Hn & Hc).
        destruct (lookup_cell_float v i x Hx Hn) as (n & Hp & <-).
        exists n. split; [done|by right].
Qed.

(** X11.  A missing [year] or [month] stays missing: type coercion turns
    a raw [year] or [month] column into a nullable-integer column of the
    same number of rows, whose entry is [pd.NA], not zero, wherever the
    cell was missing or did not parse, and whose integer entries are the
    integers the cells held. *)
Theorem calendar_missing_stays_missing
  (df df' : frame) (c : string) (s : series) :
  wf_frame df ->
  c ∈ ["year"; "month"]%string -> assoc c (cols df) = Some s ->
  is_raw s = true -> type_coerce df = Ok df' ->
  exists v, assoc c (cols df') = Some (NullableInt v) /\
    length v = series_len s /\
    (forall i, unparseable_at s i = true -> v !! i = Some None) /\
    (forall i z, v !! i = Some (Some z) ->
       exists n, parsed_at s i = Some n /\
         (n = NInt z \/ F64.to_int_exact (num_to_float n) = Some z)).
Proof.
  intros _ Hc As Hraw H.
  destruct (type_coerce_stages _ _ H) as (t & E1 & E2).
  destruct (for_present_inv _ _ _ _ designated_NoDup E1) as (_ & _ & K1 & _).
  destruct (for_present_inv _ _ _ _ calendar_NoDup E2) as (_ & _ & _ & S2).
  destruct (S2 c s Hc) as (s' & Es & A').
  { rewrite K1; [done|]. by apply calendar_not_designated. }
  destruct (coerce_calendar_cells s s' Hraw Es) as (v & -> & R).
  by exists v.
Qed.

(** *** When type coercion raises *)

Lemma for_present_Raise f names df e :
  NoDup names -> for_present f names df = Raise e ->
  exists c s, (c ∈ names) /\ assoc c (cols df) = Some s /\ f s = Raise e.
Proof.
  intros ND. revert df. induction ND as [|col rest Hcol ND IH]; intros df H.
  - done.
  - simpl in H. unfold has_col, getitem in H.
    destruct (assoc col (cols df)) as [s0|] eqn:E0.
    + simpl in H. destruct (f s0) as [s0'|e'] eqn:Ef; simpl in H.
      * destruct (IH _ H) as (c & s & Hc & As & Hf). exists c, s.
        split; [by apply list_elem_of_further|]. split; [|done].
        simpl in As. rewrite assoc_assign_ne in As; [done|]. by intros ->.
      * injection H as ->. exists col, s0.
        split; [apply list_elem_of_here|done].
    + destruct (IH _ H) as (c & s & Hc & As & Hf). exists c, s.
      split; [by apply list_elem_of_further|done].
Qed.

Lemma coerce_calendar_Raise (s : series) (e : exn) :
  is_raw s = true -> coerce_calendar s = Raise e ->
  exists i n, parsed_at s i = Some n /\ F64.isnan (num_to_float n) = false /\
              F64.to_int_exact (num_to_float n) = None /\
              (within_int64 (num_to_float n) = true -> e = TypeError).
Proof.
  unfold coerce_calendar.
  destruct s as [v|v|v|v|v|v]; simpl; try discriminate; intros _.
  - destruct (mapR nullable_cell v) as [l|e'] eqn:E; simpl; [done|].
    intros [= ->]. apply mapR_Raise in E as (i & x & Hx & Hc).
    apply nullable_cell_Raise in Hc as (Hn & Hz & He).
    exists i, (NFloat x). by rewrite Hx.
  - destruct (all_some (as_int <$> (parsed_cell <$> v))) as [zs|]; simpl; [done|].
    destruct (mapR nullable_cell _) as [l|e'] eqn:E; simpl; [done|].
    intros [= ->]. apply mapR_Raise in E as (i & x & Hx & Hc).
    apply nullable_cell_Raise in Hc as (Hn & Hz & He).
    destruct (lookup_cell_float v i x Hx Hn) as (n & Hp & <-).
    by exists i, n.
Qed.

(** X12.  On a table as read, the coercion of the count and
    delay-minute columns never raises, and type coercion fails only on
    [year] or [month]: when it raises, a cell of [year] or [month] holds
    a number that is not an integer of the [int64] range.  If every
    number that [year] and [month] hold lies strictly between [-2^63]
    and [2^63], so that the failing cell holds a fraction, the exception
    is [TypeError]; the class of the exception on an infinity or on a
    number outside that range is not stated. *)
Theorem type_coerce_fails_on_fractional_calendar (df : frame) (e : exn) :
  wf_frame df ->
  (forall k t, k ∈ count_cols ++ delay_min_cols ->
               assoc k (cols df) = Some t -> is_raw t = true) ->
  (forall k t, k ∈ ["year"; "month"]%string ->
               assoc k (cols df) = Some t -> is_raw t = true) ->
  type_coerce df = Raise e ->
  (exists c s i n, (c ∈ ["year"; "month"]%string) /\
     assoc c (cols df) = Some s /\ parsed_at s i = Some n /\
     F64.isnan (num_to_float n) = false /\
     F64.to_int_exact (num_to_float n) = None) /\
  ((forall c s i n, c ∈ ["year"; "month"]%string ->
      assoc c (cols df) = Some s -> parsed_at s i = Some n ->
      F64.isnan (num_to_float n) = false ->
      within_int64 (num_to_float n) = true) ->
   e = TypeError).
Proof.
  intros _ Hraw Hcal H.
  unfold type_coerce, coerce_counts, coerce_year_month in H.
  destruct (for_present coerce_count _ df) as [t|e'] eqn:E1; simpl in H.
  - destruct (for_present_inv _ _ _ _ designated_NoDup E1) as (_ & _ & K1 & _).
    destruct (for_present_Raise _ _ _ _ calendar_NoDup H) as (c & s & Hc & As & Hf).
    rewrite K1 in As by (by apply calendar_not_designated).
    destruct (coerce_calendar_Raise s e) as (i & n & Hp & Hn & Hz & He);
      [by eapply Hcal|done|].
    split; [by exists c, s, i, n|].
    intros Hin. apply He. by eapply Hin.
  - exfalso.
    destruct (for_present_Raise _ _ _ _ designated_NoDup E1) as (c & s & Hc & As & Hf).
    destruct (coerce_count_raw s) as (s' & Es & _); [by eapply Hraw|].
    congruence.
Qed.

(** *** The year-month rule *)

Lemma derive_year_month_eq df (y m : series) :
  assoc "year" (cols df) = Some y -> assoc "month" (cols df) = Some m ->
  derive_year_month df
  = (do yi <- astype_int y;
     do mi <- astype_int m;
     let v := to_datetime (zip_with first_of_month yi mi) in
     Ok (setitem "year_month_key" (Object (option_map strftime_Ym <$> v))
           (setitem "year_month" (Datetime v) df))).
Proof.
  intros Ay Am. unfold derive_year_month, issubset, has_col, getitem. simpl.
  rewrite Ay, Am. simpl.
  destruct (astype_int y) as [yi|]; simpl; [|done].
  destruct (astype_int m) as [mi|]; simpl; [|done].
  by rewrite assoc_assign_eq.
Qed.

Lemma astype_int_nullable (v : list (option Z)) :
  match astype_int (NullableInt v) with
  | Ok zs => v = Some <$> zs
  | Raise e => e = ValueError /\ exists i, v !! i = Some None
  end.
Proof.
  simpl. destruct (all_some v) as [zs|] eqn:E.
  - apply all_some_Forall2 in E. induction E as [|o z l r -> _ IH]; [done|].
    simpl. by rewrite IH.
  - split; [done|]. by apply all_some_None_exists.
Qed.


(** X13.  On nullable-integer [year] and [month] columns the year-month
    rule raises exactly when some year or some month is [pd.NA]; the
    exception is [ValueError] and no other, and the rule returns on every
    table without such an entry. *)
Theorem year_month_raises_iff_missing (df : frame) (y m : list (option Z)) :
  wf_frame df ->
  assoc "year" (cols df) = Some (NullableInt y) ->
  assoc "month" (cols df) = Some (NullableInt m) ->
  (derive_year_month df = Raise ValueError <->
   exists i, y !! i = Some None \/ m !! i = Some None) /\
  (forall e, derive_year_month df = Raise e -> e = ValueError) /\
  ((forall i, y !! i <> Some None /\ m !! i <> Some None) ->
   exists df', derive_year_month df = Ok df').
Proof.
  intros _ Ay Am.
  assert (Hcases :
    (exists df', derive_year_month df = Ok df' /\
       forall i, y !! i <> Some None /\ m !! i <> Some None) \/
    (derive_year_month df = Raise ValueError /\
       exists i, y !! i = Some None \/ m !! i = Some None)).
  { rewrite (derive_year_month_eq df _ _ Ay Am).
    pose proof (astype_int_nullable y) as Hy.
    pose proof (astype_int_nullable m) as Hm.
    destruct (astype_int (NullableInt y)) as [yi|e]; cbn [bind].
    - destruct (astype_int (NullableInt m)) as [mi|e]; cbn [bind].
      + left. eexists. split; [reflexivity|]. subst. intros i.
        rewrite !list_lookup_fmap.
        split; [destruct (yi !! i)|destruct (mi !! i)]; discriminate.
      + right. destruct Hm as [-> [i Hi]]. split; [done|]. exists i. by right.
    - right. destruct Hy as [-> [i Hi]]. split; [done|]. exists i. by left. }
  destruct Hcases as [(df' & E & Hno)|[E Hex]]; rewrite E.
  - split; [|split].
    + split; [done|]. intros (i & [Hi|Hi]); destruct (Hno i); done.
    + done.
    + intros _. by exists df'.
  - split; [|split].
    + done.
    + by intros e [= <-].
    + intros Hno. destruct Hex as (i & [Hi|Hi]); destruct (Hno i); done.
Qed.


(** X15.  When the year-month rule returns, [year_month] holds the dates
    read from the texts [year-month-01], one for each row, and
    [year_month_key] their [%Y-%m] texts, missing where the date is; the
    table the cleaning stages return carries both columns unchanged. *)
Theorem year_month_key_follows_year_month
  (df : frame) (y m : series) (yi mi : list Z) :
  wf_frame df ->
  assoc "year" (cols df) = Some y -> assoc "month" (cols df) = Some m ->
  astype_int y = Ok yi -> astype_int m = Ok mi ->
  exists v,
    v = to_datetime (zip_with first_of_month yi mi) /\
    length v = nrows df /\
    derive_year_month df
    = Ok (setitem "year_month_key" (Object (option_map strftime_Ym <$> v))
            (setitem "year_month" (Datetime v) df)) /\
    (forall i, (option_map strftime_Ym <$> v) !! i = Some None <->
               v !! i = Some None) /\
    (forall out chk, enrich df = Ok (out, chk) ->
       assoc "year_month" (cols out) = Some (Datetime v) /\
       assoc "year_month_key" (cols out)
       = Some (Object (option_map strftime_Ym <$> v))).
Proof using to_datetime_length.
  intros Hwf Ay Am Ey Em.
  exists (to_datetime (zip_with first_of_month yi mi)).
  split; [done|]. split; [|split; [|split]].
  - rewrite to_datetime_length, length_zip_with.
    apply astype_int_len in Ey, Em.
    rewrite (wf_assoc _ _ _ Hwf Ay) in Ey. rewrite (wf_assoc _ _ _ Hwf Am) in Em.
    lia.
  - rewrite (derive_year_month_eq df _ _ Ay Am), Ey, Em. done.
  - intros i. rewrite list_lookup_fmap.
    destruct (to_datetime _ !! i) as [[d|]|]; simpl; split; done.
  - intros out chk H. apply enrich_passes in H.
    assert (Hrule : forall t t',
      (forall s, s ∈ sources YearMonth -> assoc s (cols t) = assoc s (cols df)) ->
      run_pass YearMonth t = Ok t' ->
      t' = setitem "year_month_key"
             (Object (option_map strftime_Ym
                        <$> to_datetime (zip_with first_of_month yi mi)))
             (setitem "year_month"
                (Datetime (to_datetime (zip_with first_of_month yi mi))) t)).
    { intros t t' K Hrun. simpl in Hrun.
      rewrite (derive_year_month_eq t y m) in Hrun.
      - rewrite Ey, Em in Hrun. simpl in Hrun. by injection Hrun as <-.
      - rewrite K; [done|]. simpl. in_list.
      - rewrite K; [done|]. simpl. in_list. }
    assert (Hp : YearMonth ∈ kpi_passes) by (unfold kpi_passes; simpl; in_list).
    split.
    + destruct (pass_output_kept YearMonth "year_month"
                  (fun r => r = Datetime (to_datetime (zip_with first_of_month yi mi)))
                  df out Hp) as (r & Ar & ->); [simpl; in_list| |exact H|exact Ar].
      intros t t' K Hrun. rewrite (Hrule t t' K Hrun). eexists.
      split; [|reflexivity]. simpl.
      rewrite assoc_assign_ne by discriminate. apply assoc_assign_eq.
    + destruct (pass_output_kept YearMonth "year_month_key"
                  (fun r => r = Object (option_map strftime_Ym
                                  <$> to_datetime (zip_with first_of_month yi mi)))
                  df out Hp) as (r & Ar & ->); [simpl; in_list| |exact H|exact Ar].
      intros t t' K Hrun. rewrite (Hrule t t' K Hrun). eexists.
      split; [|reflexivity]. simpl. apply assoc_assign_eq.
Qed.

(** *** The quality check: when it is skipped, and what it counts *)

Lemma issubset_false_absent (names : list string) df :
  issubset names df = false -> exists c, (c ∈ names) /\ (c ∉ columns df).
Proof.
  unfold issubset. induction names as [|c names IH]; simpl; [done|].
  destruct (has_col df c) eqn:E; simpl.
  - intros H. destruct (IH H) as (c' & Hin & Habs). exists c'.
    split; [by apply list_elem_of_further|done].
  - intros _. exists c. split; [apply list_elem_of_here|].
    intros Hin. apply has_col_true in Hin. congruence.
Qed.

(** X16.  The quality check is skipped, without raising, when one of the
    five cause counts or [arr_del15] is absent: the table is returned as
    it was and nothing is reported.  When the check returns, the report
    is empty exactly in that case, and holds one count otherwise. *)
Theorem quality_check_skipped_iff_count_absent (df : frame) :
  wf_frame df ->
  ((exists c, (c ∈ cause_ct_cols ++ ["arr_del15"%string]) /\ (c ∉ columns df)) ->
   quality_check df = Ok (df, [])) /\
  (forall df' chk, quality_check df = Ok (df', chk) ->
     (chk = [] <->
      exists c, (c ∈ cause_ct_cols ++ ["arr_del15"%string]) /\ (c ∉ columns df)) /\
     (chk <> [] ->
      exists n, chk = [("rows_where_cause_counts_exceed_delayed"%string, n)])).
Proof.
  intros _.
  assert (Hskip : (exists c, (c ∈ cause_ct_cols ++ ["arr_del15"%string]) /\
                             (c ∉ columns df)) ->
                  quality_check df = Ok (df, [])).
  { intros (c & Hc & Habs). unfold quality_check.
    by rewrite (issubset_false _ df c Hc Habs). }
  split; [exact Hskip|]. intros df' chk H.
  destruct (issubset (cause_ct_cols ++ ["arr_del15"%string]) df) eqn:G.
  - unfold quality_check in H. rewrite G in H. bind_inv H.
    injection H as <- <-. split.
    + split; [done|]. intros (c & Hc & Habs).
      by rewrite (issubset_false _ df c Hc Habs) in G.
    + intros _. by eexists.
  - pose proof (issubset_false_absent _ _ G) as Habs.
    rewrite (Hskip Habs) in H. injection H as <- <-. split; done.
Qed.

(** X17.  Whenever the quality check reports a count, on any table, the
    count is the number of rows whose flag is set in the flag column it
    has assigned, which has one entry for each row: the count lies
    between zero and the number of rows. *)
Theorem quality_count_within_rows
  (df df' : frame) (chk : list (string * Z)) (k : string) (n : Z) :
  wf_frame df -> quality_check df = Ok (df', chk) -> (k, n) ∈ chk ->
  exists flags,
    assoc "cause_counts_exceed_delayed_flag" (cols df') = Some (Boolean flags) /\
    length flags = nrows df /\
    n = Z.of_nat (length (filter (fun b : bool => b = true) flags)) /\
    (0 <= n <= Z.of_nat (nrows df))%Z.
Proof.
  intros Hwf H Hin.
  pose proof (wf_quality_check _ _ _ Hwf H) as W.
  pose proof (quality_check_assigns _ _ _ H) as (N & _).
  unfold quality_check in H. bind_inv H.
  - injection H as <- <-. apply list_elem_of_singleton in Hin.
    injection Hin as -> ->.
    rewrite getitem_setitem in *.
    repeat match goal with
      | Hg : Ok _ = Ok _ |- _ => injection Hg as <-
      end.
    match goal with
    | Hc : count_true ?s = Ok _ |- _ =>
        destruct s as [v|v|v|v|v|flags]; simpl in Hc; try discriminate;
        injection Hc as <-
    end.
    exists flags.
    assert (A : assoc "cause_counts_exceed_delayed_flag"
                  (cols (setitem "cause_counts_exceed_delayed_flag"
                           (Boolean flags) df)) = Some (Boolean flags))
      by apply assoc_assign_eq.
    pose proof (wf_assoc _ _ _ W A) as L. simpl in L, N.
    split; [exact A|]. split; [exact L|]. split; [done|].
    pose proof (length_filter (fun b : bool => b = true) flags). lia.
  - injection H as <- <-. by apply elem_of_nil in Hin.
Qed.

(** *** The cleaned table *)

Lemma clean_stages raw df chk :
  clean raw = Ok (df, chk) ->
  exists t, type_coerce (rename_columns raw) = Ok t /\ enrich t = Ok (df, chk).
Proof.
  unfold clean, enrich. intros H.
  destruct (type_coerce (rename_columns raw)) as [t|]; simpl in H; [|done].
  by exists t.
Qed.

Lemma rename_columns_labels raw :
  columns (rename_columns raw) = to_snake <$> columns raw.
Proof.
  unfold columns, rename_columns. simpl. rewrite <- !list_fmap_compose.
  by apply list_fmap_ext.
Qed.

(** The labels that the rules in [L] may assign. *)
Lemma for_each_assigns (L : list pass) df out :
  for_each run_pass L df = Ok out ->
  assigns (mjoin (derived <$> L)) df out.
Proof.
  intros H.
  eapply (for_each_invariant (fun t => assigns (mjoin (derived <$> L)) df t));
    [|apply assigns_refl|exact H].
  intros q t t' Hq Ht Hrun. eapply assigns_trans; [exact Ht|].
  eapply assigns_mono; [|by eapply run_pass_assigns].
  intros c Hc. apply list_elem_of_join. exists (derived q).
  split; [done|]. apply list_elem_of_fmap. by exists q.
Qed.

Lemma concat_derived (L : list pass) (c : string) :
  c ∈ mjoin (derived <$> L) -> exists p, (p ∈ L) /\ (c ∈ derived p).
Proof.
  intros H. apply list_elem_of_join in H as (l & Hc & Hl).
  apply list_elem_of_fmap in Hl as (p & -> & Hp). by exists p.
Qed.

(** X18.  Cleaning never drops, reorders or relabels a column beyond the
    renaming of stage 2: the cleaned table has the rows of the table
    read, its labels are the normalized labels of the table read, in
    their order, followed by labels that the rules derive and the table
    did not have, and every column that is neither a count or
    delay-minute column, nor [year] or [month], nor a derived label, is
    the column that was read. *)
Theorem clean_keeps_columns_in_place
  (raw df : frame) (chk : list (string * Z)) :
  wf_frame (rename_columns raw) -> clean raw = Ok (df, chk) ->
  nrows df = nrows raw /\
  (exists new, columns df = (to_snake <$> columns raw) ++ new /\
     forall c, c ∈ new ->
       (c ∉ to_snake <$> columns raw) /\
       exists p, (p ∈ kpi_passes ++ [Quality]) /\ (c ∈ derived p)) /\
  (forall c, c ∉ count_cols ++ delay_min_cols -> c ∉ ["year"; "month"]%string ->
     (forall p, p ∈ kpi_passes ++ [Quality] -> c ∉ derived p) ->
     assoc c (cols df) = assoc c (cols (rename_columns raw))).
Proof.
  intros _ H. destruct (clean_stages _ _ _ H) as (t & E1 & E2).
  destruct (type_coerce_stages _ _ E1) as (t1 & F1 & F2).
  destruct (for_present_inv _ _ _ _ designated_NoDup F1) as (N1 & C1 & K1 & _).
  destruct (for_present_inv _ _ _ _ calendar_NoDup F2) as (N2 & C2 & K2 & _).
  apply enrich_passes in E2.
  destruct (for_each_assigns _ _ _ E2) as (N3 & K3 & new & C3 & P3).
  split; [|split].
  - rewrite N3, N2, N1. apply rename_columns_rows.
  - exists new. rewrite C3, C2, C1, rename_columns_labels. split; [done|].
    intros c Hc. destruct (P3 c Hc) as [Hd Habs]. split.
    + by rewrite <- rename_columns_labels, <- C1, <- C2.
    + by apply concat_derived.
  - intros c Hc Hy Hd. rewrite K3, K2, K1; try done.
    intros Hin. apply concat_derived in Hin as (p & Hp & Hcp).
    by apply (Hd p).
Qed.

Lemma designated_never_derived (c : string) (q : pass) :
  c ∈ count_cols ++ delay_min_cols -> q ∈ kpi_passes ++ [Quality] ->
  c ∉ derived q.
Proof.
  intros Hc Hq Hd. unfold count_cols, delay_min_cols in Hc. simpl in Hc.
  each_pass Hq; simpl in Hd; split_in Hd; subst; split_in Hc; discriminate.
Qed.

(** X19.  No count is missing in the cleaned table: when the count and
    delay-minute columns of the table read are integer, float or text
    columns, each of them that the cleaned table carries is numeric and
    holds no NaN, the later stages having left it as type coercion made
    it. *)
Theorem cleaned_counts_hold_numbers
  (raw df : frame) (chk : list (string * Z)) (c : string) (s : series) :
  wf_frame (rename_columns raw) ->
  (forall k x, k ∈ count_cols ++ delay_min_cols ->
     assoc k (cols (rename_columns raw)) = Some x -> is_raw x = true) ->
  clean raw = Ok (df, chk) ->
  c ∈ count_cols ++ delay_min_cols -> assoc c (cols df) = Some s ->
  holds_numbers s /\
  exists t, type_coerce (rename_columns raw) = Ok t /\
            assoc c (cols t) = Some s.
Proof.
  intros _ Hraw H Hc As. destruct (clean_stages _ _ _ H) as (t & E1 & E2).
  apply enrich_passes in E2.
  assert (At : assoc c (cols t) = Some s).
  { rewrite <- As. symmetry. eapply for_each_keeps; [|exact E2].
    intros q Hq. by apply designated_never_derived. }
  split; [|by exists t].
  by destruct (type_coerce_numeric _ t c s Hraw E1 Hc At).
Qed.

Lemma derived_labels_snake (p : pass) (c : string) :
  p ∈ kpi_passes ++ [Quality] -> c ∈ derived p ->
  all_chars is_snake_char c = true.
Proof.
  intros Hp Hc. each_pass Hp; simpl in Hc; split_in Hc; subst; reflexivity.
Qed.

(** X20.  Every label of the table cleaned from a table with ASCII
    labels is written with lowercase letters, digits and underscores
    only. *)
Theorem cleaned_labels_are_snake_case
  (raw df : frame) (chk : list (string * Z)) (c : string) :
  wf_frame (rename_columns raw) ->
  Forall (fun l => all_chars is_ascii l = true) (columns raw) ->
  clean raw = Ok (df, chk) -> c ∈ columns df ->
  all_chars is_snake_char c = true.
Proof.
  intros _ _ H Hc. destruct (clean_stages _ _ _ H) as (t & E1 & E2).
  destruct (type_coerce_stages _ _ E1) as (t1 & F1 & F2).
  destruct (for_present_inv _ _ _ _ designated_NoDup F1) as (_ & C1 & _).
  destruct (for_present_inv _ _ _ _ calendar_NoDup F2) as (_ & C2 & _).
  apply enrich_passes in E2.
  destruct (for_each_assigns _ _ _ E2) as (_ & _ & new & C3 & P3).
  rewrite C3, C2, C1, rename_columns_labels in Hc.
  apply elem_of_app in Hc as [Hc|Hc].
  - apply list_elem_of_fmap in Hc as (l & -> & _). apply to_snake_chars.
  - destruct (P3 c Hc) as [Hd _]. apply concat_derived in Hd as (p & Hp & Hd).
    by eapply derived_labels_snake.
Qed.

(** *** The rows of the sample *)

Lemma take_at_fmap {A B} (f : A -> B) (idx : list nat) (l : list A) :
  take_at idx (f <$> l) = f <$> take_at idx l.
Proof.
  unfold take_at. induction idx as [|i idx IH]; csimpl; [done|].
  rewrite list_lookup_fmap. destruct (l !! i); csimpl; by rewrite IH.
Qed.

Lemma cells_take_rows (idx : list nat) (s : series) :
  cells (take_rows idx s) = take_at idx (cells s).
Proof. destruct s; simpl; by rewrite take_at_fmap. Qed.

Lemma cells_length (s : series) : length (cells s) = series_len s.
Proof. destruct s; simpl; apply length_fmap. Qed.

Lemma take_at_lookup {A} (idx : list nat) (l : list A) (j i : nat) :
  Forall (fun i => i < length l) idx -> idx !! j = Some i ->
  take_at idx l !! j = l !! i.
Proof.
  unfold take_at. intros H. revert j.
  induction H as [|i0 idx Hi _ IH]; intros j Hj; [done|]. csimpl.
  apply lookup_lt_is_Some_2 in Hi as [x Hx]. rewrite Hx. csimpl.
  destruct j as [|j]; simpl in *.
  - injection Hj as <-. by rewrite Hx.
  - by apply IH.
Qed.

Lemma take_at_from {A} (pre l : list A) :
  take_at (seq (length pre) (length l)) (pre ++ l) = l.
Proof.
  unfold take_at. revert pre. induction l as [|a l IH]; intros pre; [done|].
  csimpl. rewrite list_lookup_middle by done. csimpl. f_equal.
  specialize (IH (pre ++ [a])). rewrite length_app in IH. simpl in IH.
  rewrite Nat.add_1_r, <- app_assoc in IH. exact IH.
Qed.

Lemma take_at_permutation {A} (idx : list nat) (l : list A) :
  idx ≡ₚ seq 0 (length l) -> take_at idx l ≡ₚ l.
Proof.
  intros H. transitivity (take_at (seq 0 (length l)) l).
  - unfold take_at. by rewrite H.
  - by rewrite (take_at_from [] l : take_at (seq 0 (length l)) l = l).
Qed.

Lemma assoc_fmap_snd (f : series -> series) (c : string) l :
  assoc c ((fun cs : string * series => (fst cs, f (snd cs))) <$> l)
  = f <$> assoc c l.
Proof.
  induction l as [|[k w] l IH]; csimpl; [done|].
  by destruct (String.eqb c k).
Qed.

(** X21.  The sample is made of rows of the table, each drawn at most
    once and kept whole: there is a list of [k] distinct row positions
    such that every column of the sample holds, row after row, the cells
    of the same column of the table at those positions. *)
Theorem sample_draws_distinct_rows
  (seed : Z) (k : nat) (df : frame) (g : rng) :
  wf_frame df -> k <= nrows df ->
  exists idx smp,
    sample k (Some seed) df g = (Ok smp, g) /\
    NoDup idx /\ length idx = k /\ Forall (fun i => i < nrows df) idx /\
    nrows smp = k /\ columns smp = columns df /\
    forall c s, assoc c (cols df) = Some s ->
      assoc c (cols smp) = Some (take_rows idx s) /\
      forall j i, idx !! j = Some i ->
        cells (take_rows idx s) !! j = cells s !! i.
Proof using rng_permutation_shuffles.
  intros Hwf Hk. unfold sample.
  destruct (Nat.ltb_spec (nrows df) k) as [?|_]; [lia|].
  set (perm := fst (rng_permutation (rng_seed seed) (nrows df))).
  assert (Hperm : perm ≡ₚ seq 0 (nrows df)) by apply rng_permutation_shuffles.
  assert (Hlen : length (firstn k perm) = k).
  { rewrite length_take, (Permutation_length Hperm), length_seq. lia. }
  assert (Hidx : Forall (fun i => i < nrows df) (firstn k perm)).
  { apply Forall_forall. intros i Hi.
    assert (Hin : i ∈ perm).
    { apply elem_of_take in Hi as (j & Hj & _). by eapply list_elem_of_lookup_2. }
    rewrite Hperm in Hin. apply elem_of_seq in Hin. lia. }
  exists (firstn k perm). eexists. split; [reflexivity|]. simpl.
  split; [|split; [exact Hlen|split; [exact Hidx|split; [exact Hlen|split]]]].
  - eapply sublist_NoDup; [|apply sublist_take].
    rewrite Hperm. apply NoDup_seq.
  - unfold columns. simpl. rewrite <- list_fmap_compose. by apply list_fmap_ext.
  - intros c s As. rewrite assoc_fmap_snd, As. split; [done|].
    intros j i Hj. rewrite cells_take_rows. apply take_at_lookup; [|done].
    rewrite cells_length, (wf_assoc _ _ _ Hwf As). exact Hidx.
Qed.

(** X22.  When the cleaning of a table of at most 500 rows returns, the
    sample is the whole cleaned table in another order: the stages up to
    the writes return their artifacts, and every column of the sample
    holds the cells of the same column of the cleaned table, each as
    many times. *)
Theorem small_table_sample_is_reshuffle
  (raw df : frame) (chk : list (string * Z)) (g : rng) :
  wf_frame (rename_columns raw) -> clean raw = Ok (df, chk) ->
  nrows raw <= 500 ->
  exists a, run raw g = (Ok a, g) /\ cleaned a = df /\
    nrows (sampled a) = nrows df /\
    forall c s, assoc c (cols df) = Some s ->
      exists s', assoc c (cols (sampled a)) = Some s' /\ cells s' ≡ₚ cells s.
Proof using to_datetime_length rng_permutation_shuffles.
  intros Hwf Hclean Hn. destruct (clean_rows raw df chk Hwf Hclean) as [W N].
  unfold run. rewrite Hclean.
  replace (Nat.min (nrows df) 500) with (nrows df) by lia.
  unfold sample. rewrite Nat.ltb_irrefl.
  set (perm := fst (rng_permutation (rng_seed 42%Z) (nrows df))).
  assert (Hperm : perm ≡ₚ seq 0 (nrows df)) by apply rng_permutation_shuffles.
  assert (Hall : firstn (nrows df) perm = perm).
  { apply firstn_all2. rewrite (Permutation_length Hperm), length_seq. lia. }
  rewrite Hall. eexists. split; [reflexivity|]. simpl. split; [done|]. split.
  - by rewrite (Permutation_length Hperm), length_seq.
  - intros c s As. exists (take_rows perm s).
    rewrite assoc_fmap_snd, As. split; [done|].
    rewrite cells_take_rows. apply take_at_permutation.
    by rewrite cells_length, (wf_assoc _ _ _ W As).
Qed.

(** *** The data dictionary *)

Lemma insert_row_perm (r : dict_row) (l : list dict_row) :
  insert_row r l ≡ₚ r :: l.
Proof.
  induction l as [|x l IH]; simpl; [done|].
  destruct (String.leb (d_column r) (d_column x)); [done|].
  rewrite IH. apply perm_swap.
Qed.

Lemma sort_by_column_perm (l : list dict_row) : sort_by_column l ≡ₚ l.
Proof.
  unfold sort_by_column. induction l as [|x l IH]; simpl; [done|].
  by rewrite insert_row_perm, IH.
Qed.

Lemma leb_false_flip (a b : string) :
  String.leb a b = false -> String.leb b a = true.
Proof. intros H. destruct (String.leb_total a b); congruence. Qed.

Lemma insert_row_ascend (r : dict_row) (l : list dict_row) :
  labels_ascend (d_column <$> l) = true ->
  labels_ascend (d_column <$> insert_row r l) = true.
Proof.
  induction l as [|x l IH]; [done|]. intros H.
  cbn [insert_row].
  destruct (String.leb (d_column r) (d_column x)) eqn:E.
  - change (String.leb (d_column r) (d_column x)
            && labels_ascend (d_column <$> x :: l) = true).
    by rewrite E, H.
  - apply leb_false_flip in E.
    assert (Hl : labels_ascend (d_column <$> l) = true).
    { destruct l as [|y l]; [done|].
      change (String.leb (d_column x) (d_column y)
              && labels_ascend (d_column <$> y :: l) = true) in H.
      by apply andb_true_iff in H as [_ H]. }
    specialize (IH Hl).
    destruct l as [|y l].
    + change (String.leb (d_column x) (d_column r) && true = true).
      by rewrite E.
    + change (String.leb (d_column x) (d_column y)
              && labels_ascend (d_column <$> y :: l) = true) in H.
      apply andb_true_iff in H as [H1 H2].
      cbn [insert_row] in IH |- *.
      destruct (String.leb (d_column r) (d_column y)) eqn:E'.
      * change (String.leb (d_column x) (d_column r)
                && labels_ascend (d_column <$> r :: y :: l) = true).
        by rewrite E, IH.
      * change (String.leb (d_column x) (d_column y)
                && labels_ascend (d_column <$> y :: insert_row r l) = true).
        by rewrite H1, IH.
Qed.

Lemma sort_by_column_ascend (l : list dict_row) :
  labels_ascend (d_column <$> sort_by_column l) = true.
Proof.
  unfold sort_by_column. induction l as [|x l IH]; simpl; [done|].
  by apply insert_row_ascend.
Qed.

(** X23.  The data dictionary has one row for each column of the table,
    each describing one column, and lists them by ascending label
    whatever the order of the columns in the table. *)
Theorem data_dictionary_sorted_by_label (df : frame) :
  wf_frame df ->
  labels_ascend (d_column <$> data_dictionary df) = true /\
  data_dictionary df ≡ₚ describe <$> cols df /\
  (d_column <$> data_dictionary df) ≡ₚ columns df /\
  length (data_dictionary df) = length (cols df).
Proof.
  intros _. unfold data_dictionary.
  pose proof (sort_by_column_perm (describe <$> cols df)) as P.
  split; [apply sort_by_column_ascend|]. split; [exact P|]. split.
  - rewrite P. unfold columns. rewrite <- list_fmap_compose.
    by erewrite list_fmap_ext.
  - by rewrite (Permutation_length P), length_fmap.
Qed.

Lemma first_some_spec {A} (l : list (option A)) :
  match first_some l with
  | None => Forall (fun o => o = None) l
  | Some x =>
      exists i, l !! i = Some (Some x) /\ forall j, j < i -> l !! j = Some None
  end.
Proof.
  induction l as [|[a|] l IH]; simpl.
  - constructor.
  - exists 0. split; [done|]. intros j Hj. lia.
  - destruct (first_some l) as [x|].
    + destruct IH as (i & Hi & Hlt). exists (S i). split; [done|].
      intros [|j] Hj; [done|]. simpl. apply Hlt. lia.
    + by constructor.
Qed.

(** X24.  Every row of the data dictionary describes a column of the
    table by its label and dtype, and its example is the first cell of
    that column that is not missing: it is never a missing value, and
    there is none only when every cell of the column is missing. *)
Theorem dictionary_example_is_first_present_cell (df : frame) :
  wf_frame df ->
  Forall (fun r =>
    exists c s, ((c, s) ∈ cols df) /\ d_column r = c /\
      d_dtype r = dtype_of s /\
      match d_example r with
      | None => Forall (fun o => o = None) (cells s)
      | Some x =>
          exists i, cells s !! i = Some (Some x) /\
            forall j, j < i -> cells s !! j = Some None
      end) (data_dictionary df).
Proof.
  intros _. unfold data_dictionary.
  rewrite (sort_by_column_perm (describe <$> cols df)).
  apply Forall_fmap, Forall_forall. intros [c s] Hcs. exists c, s.
  split; [done|]. split; [done|]. split; [done|]. simpl.
  apply first_some_spec.
Qed.

(** *** Enriching an enriched table *)

(** A rule reads its sources and the row count only: on two tables that
    agree on them it raises alike or makes the same assignments, and the
    assignments change nothing on a table that already carries what
    the rule derives. *)
Lemma quality_check_transport (t u : frame) :
  (forall s, s ∈ cause_ct_cols ++ ["arr_del15"%string] ->
             assoc s (cols u) = assoc s (cols t)) ->
  nrows u = nrows t ->
  match quality_check t with
  | Ok (t', chk) =>
      exists f : frame -> frame,
        t' = f t /\ quality_check u = Ok (f u, chk) /\
        forall w, assoc "cause_counts_exceed_delayed_flag" (cols w)
                  = assoc "cause_counts_exceed_delayed_flag" (cols t') ->
                  f w = w
  | Raise e => quality_check u = Raise e
  end.
Proof.
  intros H N. unfold quality_check, issubset, has_col, getitem.
  unfold cause_ct_cols in *. cbn [app forallb mapR].
  rewrite !H by in_list. rewrite N.
  repeat match goal with
    | |- context [assoc ?c (cols t)] =>
        destruct (assoc c (cols t)); cbn [bind andb];
        [|by exists (fun w => w)]
    end.
  destruct (sum_axis1 _ _) as [cs|]; cbn [bind]; [|done].
  destruct (series_gt _ _) as [flag|]; cbn [bind]; [|done].
  cbn [setitem cols]. rewrite !assoc_assign_eq. cbn [bind].
  destruct (count_true flag) as [n|]; cbn [bind]; [|done].
  exists (setitem "cause_counts_exceed_delayed_flag" flag).
  split; [done|]. split; [done|].
  intros w Hw. apply setitem_same. rewrite Hw. apply assoc_assign_eq.
Qed.

Lemma ratio_rule_transport (p : pass) (a b o : string) (t u : frame) :
  ratio_rule p = Some (a, b, o) ->
  (forall s, s ∈ sources p -> assoc s (cols u) = assoc s (cols t)) ->
  match run_pass p t with
  | Ok t' =>
      exists f : frame -> frame,
        t' = f t /\ run_pass p u = Ok (f u) /\
        forall w, (forall d, d ∈ derived p ->
                     assoc d (cols w) = assoc d (cols t')) -> f w = w
  | Raise e => run_pass p u = Raise e
  end.
Proof.
  intros Hr H. destruct (ratio_rule_labels p a b o Hr) as (Sa & Sb & Do).
  assert (Hskip : forall df, (assoc a (cols df) = None \/ assoc b (cols df) = None) ->
                             run_pass p df = Ok df).
  { intros df Hn. apply run_pass_skipped.
    destruct Hn as [Hn|Hn]; apply assoc_None in Hn;
      (eapply issubset_false; [|exact Hn]); done. }
  destruct (assoc a (cols t)) as [x|] eqn:Ax.
  2: { rewrite (Hskip t), (Hskip u) by (left; rewrite ?H; done).
       by exists (fun w => w). }
  destruct (assoc b (cols t)) as [y|] eqn:Ay.
  2: { rewrite (Hskip t), (Hskip u) by (right; rewrite ?H; done).
       by exists (fun w => w). }
  rewrite (ratio_rule_eq p a b o x y t Hr Ax Ay).
  rewrite (ratio_rule_eq p a b o x y u Hr) by (rewrite H; done).
  destruct (safe_div x y) as [r|]; cbn [bind]; [|done].
  exists (setitem o r). split; [done|]. split; [done|].
  intros w Hw. apply setitem_same. rewrite (Hw o Do). apply assoc_assign_eq.
Qed.

Lemma run_pass_transport (p : pass) (t u : frame) :
  (forall s, s ∈ sources p -> assoc s (cols u) = assoc s (cols t)) ->
  nrows u = nrows t ->
  match run_pass p t with
  | Ok t' =>
      exists f : frame -> frame,
        t' = f t /\ run_pass p u = Ok (f u) /\
        forall w, (forall d, d ∈ derived p ->
                     assoc d (cols w) = assoc d (cols t')) -> f w = w
  | Raise e => run_pass p u = Raise e
  end.
Proof.
  intros H N.
  destruct (ratio_rule p) as [[[a b] o]|] eqn:Hr;
    [by eapply ratio_rule_transport|].
  destruct p; try discriminate Hr.
  - (* the year-month rule *)
    cbn [run_pass].
    assert (Hskip : forall df s, s ∈ sources YearMonth ->
              assoc s (cols df) = None -> derive_year_month df = Ok df).
    { intros df s Hs Hn. apply (run_pass_skipped YearMonth).
      eapply issubset_false; [exact Hs|]. by apply assoc_None. }
    destruct (assoc "year" (cols t)) as [y|] eqn:Ay.
    2: { rewrite (Hskip t "year"%string), (Hskip u "year"%string);
           try (simpl; in_list); try done.
         - by exists (fun w => w).
         - rewrite H by (simpl; in_list). done. }
    destruct (assoc "month" (cols t)) as [m|] eqn:Am.
    2: { rewrite (Hskip t "month"%string), (Hskip u "month"%string);
           try (simpl; in_list); try done.
         - by exists (fun w => w).
         - rewrite H by (simpl; in_list). done. }
    rewrite (derive_year_month_eq t y m Ay Am).
    rewrite (derive_year_month_eq u y m)
      by (rewrite H by (simpl; in_list); done).
    destruct (astype_int y) as [yi|]; cbn [bind]; [|done].
    destruct (astype_int m) as [mi|]; cbn [bind]; [|done].
    cbn zeta.
    set (v := to_datetime (zip_with first_of_month yi mi)).
    exists (fun w => setitem "year_month_key"
                       (Object (option_map strftime_Ym <$> v))
                       (setitem "year_month" (Datetime v) w)).
    split; [done|]. split; [done|]. intros w Hw.
    rewrite (setitem_same "year_month" (Datetime v) w).
    + apply setitem_same. rewrite Hw by (simpl; in_list).
      simpl. apply assoc_assign_eq.
    + rewrite Hw by (simpl; in_list). simpl.
      rewrite assoc_assign_ne by discriminate. apply assoc_assign_eq.
  - (* the cancellation rate *)
    cbn [run_pass].
    assert (Hskip : forall df s, s ∈ sources CancellationRate ->
              assoc s (cols df) = None -> derive_cancellation_rate df = Ok df).
    { intros df s Hs Hn. apply (run_pass_skipped CancellationRate).
      eapply issubset_false; [exact Hs|]. by apply assoc_None. }
    destruct (assoc "arr_flights" (cols t)) as [f|] eqn:Af.
    2: { rewrite (Hskip t "arr_flights"%string), (Hskip u "arr_flights"%string);
           try (simpl; in_list); try done.
         - by exists (fun w => w).
         - rewrite H by (simpl; in_list). done. }
    destruct (assoc "arr_cancelled" (cols t)) as [c|] eqn:Ac.
    2: { rewrite (Hskip t "arr_cancelled"%string), (Hskip u "arr_cancelled"%string);
           try (simpl; in_list); try done.
         - by exists (fun w => w).
         - rewrite H by (simpl; in_list). done. }
    destruct (assoc "arr_diverted" (cols t)) as [d|] eqn:Ad.
    2: { rewrite (Hskip t "arr_diverted"%string), (Hskip u "arr_diverted"%string);
           try (simpl; in_list); try done.
         - by exists (fun w => w).
         - rewrite H by (simpl; in_list). done. }
    rewrite (derive_cancellation_rate_eq t f c d Af Ac Ad).
    rewrite (derive_cancellation_rate_eq u f c d)
      by (rewrite H by (simpl; in_list); done).
    destruct (series_add f c) as [fc|]; cbn [bind]; [|done].
    destruct (series_add fc d) as [th|]; cbn [bind]; [|done].
    destruct (safe_div c th) as [r|]; cbn [bind]; [|done].
    exists (setitem "cancellation_rate" r). split; [done|]. split; [done|].
    intros w Hw. apply setitem_same. rewrite Hw by (simpl; in_list).
    simpl. apply assoc_assign_eq.
  - (* the quality check *)
    cbn [run_pass]. pose proof (quality_check_transport t u H N) as Q.
    destruct (quality_check t) as [[t' chk]|]; cbn [bind fst].
    + destruct Q as (f & -> & -> & Hf). exists f. split; [done|].
      split; [done|]. intros w Hw. apply Hf. apply Hw. simpl. in_list.
    + by rewrite Q.
Qed.

Lemma for_each_fixed (L : list pass) df :
  (forall p, p ∈ L -> run_pass p df = Ok df) ->
  for_each run_pass L df = Ok df.
Proof.
  induction L as [|p L IH]; intros H; simpl; [done|].
  rewrite (H p) by apply list_elem_of_here. simpl. apply IH.
  intros q Hq. apply H. by apply list_elem_of_further.
Qed.

Lemma derived_apart (p q : pass) (d : string) :
  p ∈ kpi_passes ++ [Quality] -> q ∈ kpi_passes ++ [Quality] -> p <> q ->
  d ∈ derived p -> d ∉ derived q.
Proof.
  intros Hp Hq Hne Hd Hdq.
  apply elem_of_app in Hp as [Hp|Hp].
  - apply Hne. by eapply kpi_derived_unique.
  - apply list_elem_of_singleton in Hp as ->.
    apply elem_of_app in Hq as [Hq|Hq].
    + apply Hne. symmetry. eapply kpi_derived_unique; [exact Hq| |exact Hdq|exact Hd].
      apply elem_of_app. right. in_list.
    + apply list_elem_of_singleton in Hq as ->. done.
Qed.

Lemma for_each_rows (L : list pass) df out :
  for_each run_pass L df = Ok out -> nrows out = nrows df.
Proof. intros H. by destruct (for_each_assigns L df out H) as (N & _). Qed.

(** Every rule, run on the table the enrichment returned, returns that
    table. *)
Lemma enriched_pass_fixed (p : pass) df out :
  for_each run_pass (kpi_passes ++ [Quality]) df = Ok out ->
  p ∈ kpi_passes ++ [Quality] ->
  run_pass p out = Ok out.
Proof.
  intros H Hp. pose proof passes_NoDup as ND.
  destruct (list_elem_of_split _ _ Hp) as (L1 & L2 & EL).
  rewrite EL in H, ND.
  assert (Hin : forall q, q ∈ L1 \/ q ∈ L2 -> q ∈ kpi_passes ++ [Quality]).
  { intros q Hq. rewrite EL. apply elem_of_app.
    destruct Hq; [by left | right; by apply list_elem_of_further]. }
  apply NoDup_app in ND as (_ & _ & ND). apply NoDup_cons in ND as [N2 _].
  rewrite for_each_app in H.
  destruct (for_each run_pass L1 df) as [t|] eqn:E1; simpl in H; [|done].
  destruct (run_pass p t) as [t'|] eqn:E2; simpl in H; [|done].
  assert (Kd : forall d, d ∈ derived p ->
                 assoc d (cols out) = assoc d (cols t')).
  { intros d Hd. eapply for_each_keeps; [|exact H].
    intros q Hq. apply (derived_apart p q d Hp); [apply Hin; by right| |exact Hd].
    intros ->. done. }
  assert (Ks : forall s, s ∈ sources p ->
                 assoc s (cols out) = assoc s (cols t)).
  { intros s Hs.
    destruct (run_pass_assigns p t t' E2) as (_ & F & _).
    rewrite <- F by (by eapply source_never_derived).
    eapply for_each_keeps; [|exact H].
    intros q Hq. eapply (source_never_derived p); [exact Hp| |exact Hs].
    apply Hin. by right. }
  assert (N : nrows out = nrows t).
  { rewrite (for_each_rows _ _ _ H).
    by destruct (run_pass_assigns p t t' E2) as (N & _). }
  pose proof (run_pass_transport p t out Ks N) as T. rewrite E2 in T.
  destruct T as (f & _ & -> & Hf). f_equal. by apply Hf.
Qed.

(** X25.  The enrichment is idempotent: run on the table it returned, it
    returns that table and reports the same checks. *)
Theorem enrich_idempotent (df out : frame) (chk : list (string * Z)) :
  wf_frame df -> enrich df = Ok (out, chk) -> enrich out = Ok (out, chk).
Proof.
  intros _ H. pose proof (enrich_passes _ _ _ H) as P.
  assert (K : kpi_derive out = Ok out).
  { rewrite kpi_derive_passes. apply for_each_fixed. intros p Hp.
    eapply enriched_pass_fixed; [exact P|]. apply elem_of_app. by left. }
  unfold enrich in *. rewrite K. cbn [bind].
  destruct (kpi_derive df) as [mid|] eqn:Em; cbn [bind] in H; [|done].
  assert (Ks : forall s, s ∈ cause_ct_cols ++ ["arr_del15"%string] ->
                 assoc s (cols out) = assoc s (cols mid)).
  { intros s Hs.
    destruct (quality_check_assigns _ _ _ H) as (_ & F & _). apply F.
    intros Hin. apply list_elem_of_singleton in Hin as ->.
    unfold cause_ct_cols in Hs. simpl in Hs. split_in Hs; discriminate. }
  assert (N : nrows out = nrows mid)
    by (by destruct (quality_check_assigns _ _ _ H) as (N & _)).
  pose proof (quality_check_transport mid out Ks N) as T. rewrite H in T.
  destruct T as (f & _ & -> & Hf). by rewrite Hf.
Qed.

End Pipeline.

Local Close Scope Z_scope.

(** ** The pipeline on concrete tables *)

Lemma demo_to_datetime_length (texts : list string) :
  length (Demo.to_datetime texts) = length texts.
Proof. unfold Demo.to_datetime. apply length_fmap. Qed.

Lemma demo_rotation_shuffles (g : Demo.rng) (n : nat) :
  Permutation (fst (Demo.rng_permutation g n)) (seq 0 n).
Proof.
  unfold Demo.rng_permutation, rotate. simpl.
  rewrite Permutation_app_comm. by rewrite take_drop.
Qed.


(** The end-to-end scenario of the specification: 20 delayed flights of
    100 give a delayed rate of 0.2, 5 cancellations of 105 handled
    flights a cancellation rate of 5/105, 500 minutes over 20 delayed
    flights an average of 25; the five cause counts sum to 20, which does
    not exceed 20, so the row is not flagged.  The row without flights
    has undefined rates, and its single cause count exceeds zero. *)
Example scenario_kpis :
  exists a, run Demo.parse_number Demo.to_datetime Demo.round_ndigits Demo.rng
        Demo.rng_seed Demo.rng_permutation Demo.scenario_table 0 = (Ok a, 0) /\
    assoc "delayed_rate" (cols (cleaned a))
    = Some (Float64 [S754_finite false 7205759403792794 (-55); S754_nan]) /\
    assoc "cancellation_rate" (cols (cleaned a))
    = Some (Float64 [F64.div (F64.of_int 5) (F64.of_int 105); S754_nan]) /\
    assoc "avg_delay_min_per_delayed_flight" (cols (cleaned a))
    = Some (Float64 [F64.of_int 25; S754_nan]) /\
    assoc "year_month_key" (cols (cleaned a))
    = Some (Object [Some "2023-01"; Some "2023-02"]%string) /\
    assoc "cause_counts_exceed_delayed_flag" (cols (cleaned a))
    = Some (Boolean [false; true]) /\
    checks a = [("rows_where_cause_counts_exceed_delayed"%string, 1%Z)] /\
    nrows (sampled a) = 2.
Proof. eexists. split; [vm_compute; reflexivity|]. repeat split. Qed.

(** Without a seed the sample follows the ambient generator. *)
Example unseeded_sample_depends_on_generator :
  fst (sample Demo.rng Demo.rng_seed Demo.rng_permutation 1 None
         Demo.counts_table 0)
  <> fst (sample Demo.rng Demo.rng_seed Demo.rng_permutation 1 None
            Demo.counts_table 1).
Proof. vm_compute. discriminate. Qed.

(** *** Instances of the theorems *)

Lemma safe_div_nan_on_zero_else_quotient_witness :
  is_numeric (Int64 [20; 7]%Z) = true /\
  is_numeric (Float64 [F64.of_int 100; F64.zero]) = true /\
  series_len (Int64 [20; 7]%Z) = series_len (Float64 [F64.of_int 100; F64.zero]) /\
  exists out,
    safe_div (Int64 [20; 7]%Z) (Float64 [F64.of_int 100; F64.zero])
    = Ok (Float64 out) /\ length out = 2.
Proof.
  split; [reflexivity|]. split; [reflexivity|]. split; [reflexivity|].
  destruct (safe_div_nan_on_zero_else_quotient
              (Int64 [20; 7]%Z) (Float64 [F64.of_int 100; F64.zero])
              eq_refl eq_refl eq_refl) as (out & E & L & _).
  exists out. split; [exact E | exact L].
Defined.

(** Distinct labels and full columns of a table that is written out. *)
Ltac wf_table :=
  split;
  [ vm_compute; repeat (constructor; [intros H; split_in H; discriminate|]);
    constructor
  | repeat constructor ].

Lemma counts_table_wf : wf_frame Demo.counts_table.
Proof. wf_table. Qed.

Lemma cancellation_rate_over_total_handled_witness :
  wf_frame Demo.counts_table /\
  assoc "arr_flights" (cols Demo.counts_table) = Some (Int64 [100; 0]%Z) /\
  assoc "arr_cancelled" (cols Demo.counts_table) = Some (Int64 [5; 0]%Z) /\
  assoc "arr_diverted" (cols Demo.counts_table)
  = Some (Float64 [F64.zero; F64.zero]) /\
  is_numeric (Int64 [100; 0]%Z) = true /\ is_numeric (Int64 [5; 0]%Z) = true /\
  is_numeric (Float64 [F64.zero; F64.zero]) = true /\
  exists rate,
    derive_cancellation_rate Demo.counts_table
    = Ok (setitem "cancellation_rate" (Float64 rate) Demo.counts_table) /\
    length rate = 2.
Proof.
  split; [exact counts_table_wf|]. do 6 (split; [reflexivity|]).
  destruct (cancellation_rate_over_total_handled Demo.to_datetime
              Demo.counts_table (Int64 [100; 0]%Z) (Int64 [5; 0]%Z)
              (Float64 [F64.zero; F64.zero])
              counts_table_wf eq_refl eq_refl eq_refl eq_refl eq_refl eq_refl)
    as (rate & E & L & _).
  exists rate. split; [exact E | exact L].
Defined.

Lemma cause_counts_present :
  Forall2 (fun c s => assoc c (cols Demo.counts_table) = Some s)
          cause_ct_cols Demo.cause_counts.
Proof. repeat constructor. Qed.

Lemma cause_counts_numeric :
  Forall (fun s => is_numeric s = true) Demo.cause_counts.
Proof. repeat constructor. Qed.

Lemma quality_flag_counts_exceeding_rows_witness :
  wf_frame Demo.counts_table /\
  Forall2 (fun c s => assoc c (cols Demo.counts_table) = Some s)
          cause_ct_cols Demo.cause_counts /\
  assoc "arr_del15" (cols Demo.counts_table) = Some (Int64 [20; 0]%Z) /\
  Forall (fun s => is_numeric s = true) Demo.cause_counts /\
  is_numeric (Int64 [20; 0]%Z) = true /\
  exists flags,
    quality_check Demo.counts_table
    = Ok (setitem "cause_counts_exceed_delayed_flag" (Boolean flags)
            Demo.counts_table,
          [("rows_where_cause_counts_exceed_delayed"%string,
            Z.of_nat (count_rows 2
                        (exceeds_at Demo.cause_counts (Int64 [20; 0]%Z))))]) /\
    flags !! 0 = Some false /\ flags !! 1 = Some true.
Proof.
  split; [exact counts_table_wf|]. split; [exact cause_counts_present|].
  split; [reflexivity|]. split; [exact cause_counts_numeric|].
  split; [reflexivity|].
  destruct (quality_flag_counts_exceeding_rows Demo.counts_table
              Demo.cause_counts (Int64 [20; 0]%Z) counts_table_wf
              cause_counts_present eq_refl cause_counts_numeric eq_refl)
    as (flags & E & _ & R & _).
  exists flags. split; [exact E|]. split.
  - rewrite (R 0) by (simpl; lia). reflexivity.
  - rewrite (R 1) by (simpl; lia). reflexivity.
Defined.

Lemma rounding_table_wf : wf_frame Cases.rounding_table.
Proof. wf_table. Qed.

Example rounding_row_is_flagged :
  quality_check Cases.rounding_table
  = Ok (setitem "cause_counts_exceed_delayed_flag" (Boolean [true])
          Cases.rounding_table,
        [("rows_where_cause_counts_exceed_delayed"%string, 1%Z)]) /\
  exceeds_exactly_at Cases.rounding_counts (Int64 [61%Z]) 0 = false.
Proof. split; vm_compute; reflexivity. Qed.

(** C5 as stated fails on a row of two-decimal counts: 2.29, 19.7,
    14.93, 23.34 and 0.74 against 61 delayed flights.  The five binary64
    values add up to less than 61, so no row has a sum that exceeds its
    [arr_del15]; added from left to right with a rounding after each
    addition they give the binary64 value next above 61, and the check
    flags the row and reports one. *)
Lemma rounded_cause_sum_is_flagged_below_total :
  ~ (forall (df : frame) (cts : list series) (del : series),
       wf_frame df ->
       Forall2 (fun c s => assoc c (cols df) = Some s) cause_ct_cols cts ->
       assoc "arr_del15" (cols df) = Some del ->
       Forall (fun s => is_numeric s = true) cts -> is_numeric del = true ->
       exists flags,
         quality_check df
         = Ok (setitem "cause_counts_exceed_delayed_flag" (Boolean flags) df,
               [("rows_where_cause_counts_exceed_delayed"%string,
                 Z.of_nat (count_rows (nrows df)
                             (exceeds_exactly_at cts del)))])).
Proof.
  intros H.
  destruct (H Cases.rounding_table Cases.rounding_counts (Int64 [61%Z])
              rounding_table_wf) as (flags & E).
  - repeat constructor.
  - reflexivity.
  - repeat constructor.
  - reflexivity.
  - vm_compute in E. discriminate E.
Qed.

Lemma rate_only_table_wf : wf_frame Demo.rate_only_table.
Proof. wf_table. Qed.

Lemma rule_skipped_when_source_absent_witness :
  wf_frame Demo.rate_only_table /\
  (DelayedRate ∈ kpi_passes) /\
  ("arr_flights"%string ∈ sources DelayedRate) /\
  ("arr_flights"%string ∉ columns Demo.rate_only_table) /\
  run_pass Demo.to_datetime DelayedRate Demo.rate_only_table
  = Ok Demo.rate_only_table.
Proof.
  assert (H1 : DelayedRate ∈ kpi_passes) by (unfold kpi_passes; simpl; in_list).
  assert (H2 : "arr_flights"%string ∈ sources DelayedRate) by (simpl; in_list).
  assert (H3 : "arr_flights"%string ∉ columns Demo.rate_only_table)
    by (intros H; vm_compute in H; split_in H; discriminate).
  split; [exact rate_only_table_wf|].
  split; [exact H1|]. split; [exact H2|]. split; [exact H3|].
  exact (proj1 (rule_skipped_when_source_absent Demo.to_datetime DelayedRate
                  Demo.rate_only_table "arr_flights"
                  rate_only_table_wf H1 H2 H3)).
Defined.

(** C6 as stated fails on a table that brings a [delayed_rate] column
    and neither of its sources: the rule is skipped, and the column is
    in the output all the same. *)
Lemma skipped_rule_keeps_existing_rate_column :
  ~ (forall (p : pass) (df out : frame) (chk : list (string * Z)) (s d : string),
       wf_frame df -> p ∈ kpi_passes -> s ∈ sources p -> s ∉ columns df ->
       enrich Demo.to_datetime df = Ok (out, chk) ->
       d ∈ derived p -> d ∉ columns out).
Proof.
  intros H.
  apply (H DelayedRate Demo.rate_only_table Demo.rate_only_table []
           "arr_flights"%string "delayed_rate"%string).
  - exact rate_only_table_wf.
  - unfold kpi_passes; simpl; in_list.
  - simpl; in_list.
  - intros Hin; vm_compute in Hin; split_in Hin; discriminate.
  - vm_compute. reflexivity.
  - simpl; in_list.
  - vm_compute. in_list.
Qed.

Lemma scenario_columns_raw (k : string) (t : series) :
  k ∈ count_cols ++ delay_min_cols ->
  assoc k (cols Demo.scenario_table) = Some t -> is_raw t = true.
Proof.
  intros Hk. unfold count_cols, delay_min_cols in Hk. simpl in Hk.
  split_in Hk; subst; vm_compute; intros [= <-]; reflexivity.
Qed.

Lemma scenario_table_read_wf : wf_frame Demo.scenario_table.
Proof. wf_table. Qed.

Lemma type_coercer_zero_fills_witness :
  wf_frame Demo.scenario_table /\
  (forall k t, k ∈ count_cols ++ delay_min_cols ->
     assoc k (cols Demo.scenario_table) = Some t -> is_raw t = true) /\
  ("arr_delay"%string ∈ count_cols ++ delay_min_cols) /\
  assoc "arr_delay" (cols Demo.scenario_table)
  = Some (Object [Some "500"; Some "unknown"]%string) /\
  exists df' s',
    coerce_counts Demo.parse_number Demo.scenario_table = Ok df' /\
    assoc "arr_delay" (cols df') = Some s' /\
    cell_num s' 1 = Some (NFloat F64.zero).
Proof.
  assert (H2 : "arr_delay"%string ∈ count_cols ++ delay_min_cols)
    by (unfold count_cols, delay_min_cols; simpl; in_list).
  split; [exact scenario_table_read_wf|].
  split; [exact scenario_columns_raw|]. split; [exact H2|].
  split; [reflexivity|].
  destruct (type_coercer_zero_fills Demo.parse_number Demo.scenario_table
              "arr_delay" (Object [Some "500"; Some "unknown"]%string)
              scenario_table_read_wf scenario_columns_raw H2 eq_refl)
    as (df' & s' & E & A & _ & _ & Z0 & _).
  exists df', s'. split; [exact E|]. split; [exact A|].
  apply Z0. reflexivity.
Defined.

Lemma scenario_table_wf : wf_frame (rename_columns Demo.scenario_table).
Proof. wf_table. Qed.

Lemma sample_has_min_rows_500_witness :
  (forall texts, length (Demo.to_datetime texts) = length texts) /\
  (forall g n, Permutation (fst (Demo.rng_permutation g n)) (seq 0 n)) /\
  wf_frame (rename_columns Demo.scenario_table) /\
  exists df chk,
    clean Demo.parse_number Demo.to_datetime Demo.scenario_table = Ok (df, chk) /\
    exists smp,
      run Demo.parse_number Demo.to_datetime Demo.round_ndigits Demo.rng
        Demo.rng_seed Demo.rng_permutation Demo.scenario_table 0
      = (Ok {| cleaned := df; sampled := smp;
               dictionary := data_dictionary Demo.round_ndigits df;
               checks := chk |}, 0) /\
      nrows smp = 2.
Proof.
  split; [exact demo_to_datetime_length|].
  split; [exact demo_rotation_shuffles|]. split; [exact scenario_table_wf|].
  destruct (clean Demo.parse_number Demo.to_datetime Demo.scenario_table)
    as [[df chk]|e] eqn:E; [|vm_compute in E; discriminate E].
  exists df, chk. split; [reflexivity|].
  destruct (sample_has_min_rows_500 Demo.parse_number Demo.to_datetime
              demo_to_datetime_length Demo.round_ndigits Demo.rng
              Demo.rng_seed Demo.rng_permutation
              demo_rotation_shuffles Demo.scenario_table df chk 0
              scenario_table_wf E) as (smp & R & N & _).
  exists smp. split; [exact R | exact N].
Defined.

Lemma rerun_table_wf : wf_frame Demo.rerun_table.
Proof. wf_table. Qed.

Lemma pass_changes_only_its_derived_columns_witness :
  (forall texts, length (Demo.to_datetime texts) = length texts) /\
  wf_frame Demo.rerun_table /\
  run_pass Demo.to_datetime DelayedRate Demo.rerun_table
  = Ok (setitem "delayed_rate"
          (Float64 [F64.div (F64.of_int 1) (F64.of_int 2)]) Demo.rerun_table) /\
  nrows (setitem "delayed_rate"
           (Float64 [F64.div (F64.of_int 1) (F64.of_int 2)]) Demo.rerun_table)
  = nrows Demo.rerun_table /\
  forall c, c ∉ derived DelayedRate ->
    assoc c (cols (setitem "delayed_rate"
                     (Float64 [F64.div (F64.of_int 1) (F64.of_int 2)])
                     Demo.rerun_table))
    = assoc c (cols Demo.rerun_table).
Proof.
  assert (H : run_pass Demo.to_datetime DelayedRate Demo.rerun_table
              = Ok (setitem "delayed_rate"
                      (Float64 [F64.div (F64.of_int 1) (F64.of_int 2)])
                      Demo.rerun_table)) by (vm_compute; reflexivity).
  split; [exact demo_to_datetime_length|].
  split; [exact rerun_table_wf|]. split; [exact H|].
  destruct (pass_changes_only_its_derived_columns Demo.to_datetime
              demo_to_datetime_length DelayedRate
              Demo.rerun_table _ rerun_table_wf H) as (N & _ & F & _).
  split; [exact N | exact F].
Defined.

(** C10 as stated fails on a table that already has a [delayed_rate]
    column next to [arr_del15] and [arr_flights]: the delayed-rate pass
    replaces the text of that column by the computed rate. *)
Lemma delayed_rate_pass_overwrites_existing_column :
  ~ (forall (p : pass) (df df' : frame),
       wf_frame df -> run_pass Demo.to_datetime p df = Ok df' ->
       forall c s, assoc c (cols df) = Some s -> assoc c (cols df') = Some s).
Proof.
  intros H.
  specialize (H DelayedRate Demo.rerun_table _ rerun_table_wf eq_refl
                "delayed_rate"%string _ eq_refl).
  vm_compute in H. discriminate H.
Qed.

(** *** Instances of the further properties *)

Lemma to_snake_alphabet_witness :
  all_chars is_ascii "Carrier-Ct/Total.Min" = true /\
  all_chars is_snake_char (to_snake "Carrier-Ct/Total.Min") = true.
Proof.
  split; [reflexivity|]. exact (to_snake_alphabet "Carrier-Ct/Total.Min" eq_refl).
Defined.

Lemma to_snake_fixed_points_witness :
  all_chars is_ascii "late_aircraft_delay" = true /\
  all_chars is_snake_char "late_aircraft_delay" = true /\
  occurs "__" "late_aircraft_delay" = false /\
  to_snake "late_aircraft_delay" = "late_aircraft_delay"%string.
Proof.
  do 3 (split; [reflexivity|]).
  apply (proj2 (to_snake_fixed_points "late_aircraft_delay" eq_refl)).
  split; reflexivity.
Defined.

Lemma to_snake_twice_witness :
  all_chars is_ascii "Arr Flights" = true /\
  occurs "__" (to_snake "Arr Flights") = false /\
  to_snake (to_snake "Arr Flights") = to_snake "Arr Flights".
Proof.
  do 2 (split; [reflexivity|]).
  apply (proj2 (to_snake_twice "Arr Flights" eq_refl)). reflexivity.
Defined.

Lemma to_snake_ignores_case_witness :
  all_chars is_ascii "Arr Flights" = true /\
  to_snake (PyStr.lower "Arr Flights") = to_snake "Arr Flights".
Proof.
  split; [reflexivity|]. exact (to_snake_ignores_case "Arr Flights" eq_refl).
Defined.

Lemma to_snake_without_words_witness :
  all_chars is_blank_or_separator (PyStr.strip "  - / . ") = true /\
  to_snake "  - / . " = EmptyString.
Proof.
  split; [reflexivity|]. apply (to_snake_without_words "  - / . "). reflexivity.
Defined.

Lemma safe_div_undefined_exactly_witness :
  is_numeric (Int64 [0; 7]%Z) = true /\
  is_numeric (Float64 [F64.of_int 100; F64.nan]) = true /\
  series_len (Int64 [0; 7]%Z) = series_len (Float64 [F64.of_int 100; F64.nan]) /\
  cell_num (Int64 [0; 7]%Z) 1 = Some (NInt 7) /\
  cell_num (Float64 [F64.of_int 100; F64.nan]) 1 = Some (NFloat F64.nan) /\
  exists out r,
    safe_div (Int64 [0; 7]%Z) (Float64 [F64.of_int 100; F64.nan])
    = Ok (Float64 out) /\ out !! 1 = Some r /\ F64.isnan r = true.
Proof.
  do 5 (split; [reflexivity|]).
  destruct (safe_div_undefined_exactly
              (Int64 [0; 7]%Z) (Float64 [F64.of_int 100; F64.nan]) 1
              (NInt 7) (NFloat F64.nan) eq_refl eq_refl eq_refl eq_refl eq_refl)
    as (out & r & E & L & I).
  exists out, r. split; [exact E|]. split; [exact L|].
  apply I. right. right. left. reflexivity.
Defined.

Lemma ratio_rule_divides_row_by_row_witness :
  wf_frame Demo.counts_table /\
  ratio_rule DelayedRate
  = Some ("arr_del15", "arr_flights", "delayed_rate")%string /\
  assoc "arr_del15" (cols Demo.counts_table) = Some (Int64 [20; 0]%Z) /\
  assoc "arr_flights" (cols Demo.counts_table) = Some (Int64 [100; 0]%Z) /\
  is_numeric (Int64 [20; 0]%Z) = true /\ is_numeric (Int64 [100; 0]%Z) = true /\
  exists rate,
    run_pass Demo.to_datetime DelayedRate Demo.counts_table
    = Ok (setitem "delayed_rate" (Float64 rate) Demo.counts_table) /\
    length rate = 2.
Proof.
  split; [exact counts_table_wf|]. do 5 (split; [reflexivity|]).
  destruct (ratio_rule_divides_row_by_row Demo.to_datetime DelayedRate
              Demo.counts_table "arr_del15" "arr_flights" "delayed_rate"
              (Int64 [20; 0]%Z) (Int64 [100; 0]%Z)
              counts_table_wf eq_refl eq_refl eq_refl eq_refl eq_refl)
    as (rate & E & L & _).
  exists rate. split; [exact E | exact L].
Defined.

Lemma type_coerce_keeps_other_columns_witness :
  wf_frame Demo.scenario_table /\
  exists df',
    type_coerce Demo.parse_number Demo.scenario_table = Ok df' /\
    nrows df' = 2 /\ columns df' = columns Demo.scenario_table.
Proof.
  split; [exact scenario_table_read_wf|].
  destruct (type_coerce Demo.parse_number Demo.scenario_table)
    as [df'|e] eqn:E; [|vm_compute in E; discriminate E].
  exists df'. split; [reflexivity|].
  destruct (type_coerce_keeps_other_columns Demo.parse_number
              Demo.scenario_table df' scenario_table_read_wf E) as (N & C & _).
  split; [exact N | exact C].
Defined.

Lemma type_coerce_keeps_numbers_witness :
  wf_frame Demo.scenario_table /\
  ("arr_delay"%string ∈ count_cols ++ delay_min_cols) /\
  assoc "arr_delay" (cols Demo.scenario_table)
  = Some (Object [Some "500"; Some "unknown"]%string) /\
  is_raw (Object [Some "500"; Some "unknown"]%string) = true /\
  parsed_at Demo.parse_number (Object [Some "500"; Some "unknown"]%string) 0
  = Some (NInt 500) /\
  F64.isnan (num_to_float (NInt 500)) = false /\
  exists df' s' m,
    type_coerce Demo.parse_number Demo.scenario_table = Ok df' /\
    assoc "arr_delay" (cols df') = Some s' /\ cell_num s' 0 = Some m /\
    num_to_float m = F64.of_int 500.
Proof.
  assert (H1 : "arr_delay"%string ∈ count_cols ++ delay_min_cols)
    by (unfold count_cols, delay_min_cols; simpl; in_list).
  split; [exact scenario_table_read_wf|].
  split; [exact H1|]. do 4 (split; [reflexivity|]).
  destruct (type_coerce Demo.parse_number Demo.scenario_table)
    as [df'|e] eqn:E; [|vm_compute in E; discriminate E].
  destruct (type_coerce_keeps_numbers Demo.parse_number Demo.scenario_table
              df' "arr_delay" (Object [Some "500"; Some "unknown"]%string)
              0 (NInt 500) scenario_table_read_wf H1
              eq_refl eq_refl eq_refl eq_refl E)
    as (s' & m & A & Hm & Hv).
  exists df', s', m. split; [reflexivity|]. split; [exact A|].
  split; [exact Hm | exact Hv].
Defined.

Lemma coerce_counts_idempotent_witness :
  wf_frame Demo.scenario_table /\
  exists df',
    coerce_counts Demo.parse_number Demo.scenario_table = Ok df' /\
    coerce_counts Demo.parse_number df' = Ok df'.
Proof.
  split; [exact scenario_table_read_wf|].
  destruct (coerce_counts Demo.parse_number Demo.scenario_table)
    as [df'|e] eqn:E; [|vm_compute in E; discriminate E].
  exists df'. split; [reflexivity|].
  exact (coerce_counts_idempotent Demo.parse_number Demo.scenario_table df'
           scenario_table_read_wf E).
Defined.

Lemma missing_year_table_wf : wf_frame Demo.missing_year_table.
Proof. wf_table. Qed.

Lemma calendar_missing_stays_missing_witness :
  wf_frame Demo.missing_year_table /\
  ("year"%string ∈ ["year"; "month"]%string) /\
  assoc "year" (cols Demo.missing_year_table)
  = Some (Float64 [F64.of_int 2023; F64.nan]) /\
  is_raw (Float64 [F64.of_int 2023; F64.nan]) = true /\
  exists df' v,
    type_coerce Demo.parse_number Demo.missing_year_table = Ok df' /\
    assoc "year" (cols df') = Some (NullableInt v) /\ v !! 1 = Some None.
Proof.
  assert (H1 : "year"%string ∈ ["year"; "month"]%string) by in_list.
  split; [exact missing_year_table_wf|].
  split; [exact H1|]. do 2 (split; [reflexivity|]).
  destruct (type_coerce Demo.parse_number Demo.missing_year_table)
    as [df'|e] eqn:E; [|vm_compute in E; discriminate E].
  destruct (calendar_missing_stays_missing Demo.parse_number
              Demo.missing_year_table df' "year"
              (Float64 [F64.of_int 2023; F64.nan]) missing_year_table_wf
              H1 eq_refl eq_refl E)
    as (v & A & _ & M & _).
  exists df', v. split; [reflexivity|]. split; [exact A|].
  apply M. reflexivity.
Defined.

Lemma fractional_year_columns_raw (k : string) (t : series) :
  assoc k (cols Cases.fractional_year_table) = Some t -> is_raw t = true.
Proof.
  unfold Cases.fractional_year_table. simpl.
  destruct (String.eqb k "year"); [by intros [= <-]|].
  destruct (String.eqb k "month"); [by intros [= <-]|]. discriminate.
Qed.

Lemma fractional_year_table_wf : wf_frame Cases.fractional_year_table.
Proof. wf_table. Qed.

Lemma fractional_year_within_int64 (c : string) (s : series) (i : nat) (n : num) :
  assoc c (cols Cases.fractional_year_table) = Some s ->
  parsed_at Demo.parse_number s i = Some n ->
  within_int64 (num_to_float n) = true.
Proof.
  unfold Cases.fractional_year_table. simpl.
  destruct (String.eqb c "year"); [intros [= <-]|].
  - destruct i as [|[|i]]; simpl; intros [= <-]; reflexivity.
  - destruct (String.eqb c "month"); [intros [= <-]|discriminate].
    destruct i as [|[|i]]; simpl; intros [= <-]; reflexivity.
Qed.

Lemma type_coerce_fails_on_fractional_calendar_witness :
  wf_frame Cases.fractional_year_table /\
  (forall k t, k ∈ count_cols ++ delay_min_cols ->
     assoc k (cols Cases.fractional_year_table) = Some t -> is_raw t = true) /\
  (forall k t, k ∈ ["year"; "month"]%string ->
     assoc k (cols Cases.fractional_year_table) = Some t -> is_raw t = true) /\
  type_coerce Demo.parse_number Cases.fractional_year_table = Raise TypeError /\
  (forall c s i n, c ∈ ["year"; "month"]%string ->
     assoc c (cols Cases.fractional_year_table) = Some s ->
     parsed_at Demo.parse_number s i = Some n ->
     F64.isnan (num_to_float n) = false ->
     within_int64 (num_to_float n) = true) /\
  exists c s i n, (c ∈ ["year"; "month"]%string) /\
    assoc c (cols Cases.fractional_year_table) = Some s /\
    parsed_at Demo.parse_number s i = Some n /\
    F64.to_int_exact (num_to_float n) = None.
Proof.
  assert (H : type_coerce Demo.parse_number Cases.fractional_year_table
              = Raise TypeError) by (vm_compute; reflexivity).
  split; [exact fractional_year_table_wf|].
  split; [exact (fun k t _ => fractional_year_columns_raw k t)|].
  split; [exact (fun k t _ => fractional_year_columns_raw k t)|]. split; [exact H|].
  split; [exact (fun c s i n _ A P _ => fractional_year_within_int64 c s i n A P)|].
  destruct (type_coerce_fails_on_fractional_calendar Demo.parse_number
              Cases.fractional_year_table TypeError fractional_year_table_wf
              (fun k t _ => fractional_year_columns_raw k t)
              (fun k t _ => fractional_year_columns_raw k t) H)
    as ((c & s & i & n & Hc & A & P & _ & Z0) & _).
  exists c, s, i, n. split; [exact Hc|]. split; [exact A|].
  split; [exact P | exact Z0].
Defined.

Lemma coerced_missing_year_table_wf :
  wf_frame Cases.coerced_missing_year_table.
Proof. wf_table. Qed.

Lemma year_month_raises_iff_missing_witness :
  wf_frame Cases.coerced_missing_year_table /\
  assoc "year" (cols Cases.coerced_missing_year_table)
  = Some (NullableInt [Some 2023%Z; None]) /\
  assoc "month" (cols Cases.coerced_missing_year_table)
  = Some (NullableInt [Some 1%Z; Some 2%Z]) /\
  derive_year_month Demo.to_datetime Cases.coerced_missing_year_table
  = Raise ValueError.
Proof.
  split; [exact coerced_missing_year_table_wf|].
  do 2 (split; [reflexivity|]).
  apply (proj1 (year_month_raises_iff_missing Demo.to_datetime
                  Cases.coerced_missing_year_table
                  [Some 2023%Z; None] [Some 1%Z; Some 2%Z]
                  coerced_missing_year_table_wf eq_refl eq_refl)).
  exists 1. left. reflexivity.
Defined.



Lemma year_month_key_follows_year_month_witness :
  (forall texts, length (Demo.to_datetime texts) = length texts) /\
  wf_frame (rename_columns Demo.scenario_table) /\
  assoc "year" (cols (rename_columns Demo.scenario_table))
  = Some (Int64 [2023; 2023]%Z) /\
  assoc "month" (cols (rename_columns Demo.scenario_table))
  = Some (Int64 [1; 2]%Z) /\
  astype_int (Int64 [2023; 2023]%Z) = Ok [2023; 2023]%Z /\
  astype_int (Int64 [1; 2]%Z) = Ok [1; 2]%Z /\
  exists v,
    derive_year_month Demo.to_datetime (rename_columns Demo.scenario_table)
    = Ok (setitem "year_month_key" (Object (option_map strftime_Ym <$> v))
            (setitem "year_month" (Datetime v)
               (rename_columns Demo.scenario_table))) /\
    length v = 2.
Proof.
  split; [exact demo_to_datetime_length|]. split; [exact scenario_table_wf|].
  do 4 (split; [reflexivity|]).
  destruct (year_month_key_follows_year_month Demo.to_datetime
              demo_to_datetime_length (rename_columns Demo.scenario_table)
              (Int64 [2023; 2023]%Z) (Int64 [1; 2]%Z) [2023; 2023]%Z [1; 2]%Z
              scenario_table_wf eq_refl eq_refl eq_refl eq_refl)
    as (v & _ & L & E & _).
  exists v. split; [exact E | exact L].
Defined.

Lemma quality_count_within_rows_witness :
  wf_frame Demo.counts_table /\
  quality_check Demo.counts_table
  = Ok (setitem "cause_counts_exceed_delayed_flag" (Boolean [false; true])
          Demo.counts_table,
        [("rows_where_cause_counts_exceed_delayed"%string, 1%Z)]) /\
  (("rows_where_cause_counts_exceed_delayed"%string, 1%Z)
   ∈ [("rows_where_cause_counts_exceed_delayed"%string, 1%Z)]) /\
  (0 <= 1 <= Z.of_nat (nrows Demo.counts_table))%Z.
Proof.
  assert (H : quality_check Demo.counts_table
              = Ok (setitem "cause_counts_exceed_delayed_flag"
                      (Boolean [false; true]) Demo.counts_table,
                    [("rows_where_cause_counts_exceed_delayed"%string, 1%Z)]))
    by (vm_compute; reflexivity).
  assert (Hin : ("rows_where_cause_counts_exceed_delayed"%string, 1%Z)
                ∈ [("rows_where_cause_counts_exceed_delayed"%string, 1%Z)])
    by in_list.
  split; [exact counts_table_wf|]. split; [exact H|]. split; [exact Hin|].
  destruct (quality_count_within_rows Demo.counts_table _ _ _ _
              counts_table_wf H Hin) as (flags & _ & _ & _ & B).
  exact B.
Defined.

Lemma quality_check_skipped_iff_count_absent_witness :
  wf_frame Demo.rate_only_table /\
  ("arr_del15"%string ∈ cause_ct_cols ++ ["arr_del15"%string]) /\
  ("arr_del15"%string ∉ columns Demo.rate_only_table) /\
  quality_check Demo.rate_only_table = Ok (Demo.rate_only_table, []).
Proof.
  assert (H1 : "arr_del15"%string ∈ cause_ct_cols ++ ["arr_del15"%string])
    by (unfold cause_ct_cols; simpl; in_list).
  assert (H2 : "arr_del15"%string ∉ columns Demo.rate_only_table)
    by (intros H; vm_compute in H; split_in H; discriminate).
  split; [exact rate_only_table_wf|]. split; [exact H1|]. split; [exact H2|].
  apply (proj1 (quality_check_skipped_iff_count_absent Demo.rate_only_table
                  rate_only_table_wf)).
  exists "arr_del15"%string. split; [exact H1 | exact H2].
Defined.

Lemma clean_keeps_columns_in_place_witness :
  wf_frame (rename_columns Demo.scenario_table) /\
  exists df chk,
    clean Demo.parse_number Demo.to_datetime Demo.scenario_table = Ok (df, chk) /\
    nrows df = 2 /\
    exists new, columns df = (to_snake <$> columns Demo.scenario_table) ++ new.
Proof.
  split; [exact scenario_table_wf|].
  destruct (clean Demo.parse_number Demo.to_datetime Demo.scenario_table)
    as [[df chk]|e] eqn:E; [|vm_compute in E; discriminate E].
  exists df, chk. split; [reflexivity|].
  destruct (clean_keeps_columns_in_place Demo.parse_number Demo.to_datetime
              Demo.scenario_table df chk scenario_table_wf E)
    as (N & (new & C & _) & _).
  split; [exact N|]. exists new. exact C.
Defined.

Lemma scenario_renamed_columns_raw (k : string) (t : series) :
  k ∈ count_cols ++ delay_min_cols ->
  assoc k (cols (rename_columns Demo.scenario_table)) = Some t ->
  is_raw t = true.
Proof.
  intros Hk. unfold count_cols, delay_min_cols in Hk. simpl in Hk.
  split_in Hk; subst; vm_compute; intros [= <-]; reflexivity.
Qed.

Lemma cleaned_counts_hold_numbers_witness :
  wf_frame (rename_columns Demo.scenario_table) /\
  (forall k x, k ∈ count_cols ++ delay_min_cols ->
     assoc k (cols (rename_columns Demo.scenario_table)) = Some x ->
     is_raw x = true) /\
  ("arr_delay"%string ∈ count_cols ++ delay_min_cols) /\
  exists df chk s,
    clean Demo.parse_number Demo.to_datetime Demo.scenario_table = Ok (df, chk) /\
    assoc "arr_delay" (cols df) = Some s /\ holds_numbers s.
Proof.
  assert (H1 : "arr_delay"%string ∈ count_cols ++ delay_min_cols)
    by (unfold count_cols, delay_min_cols; simpl; in_list).
  split; [exact scenario_table_wf|].
  split; [exact scenario_renamed_columns_raw|]. split; [exact H1|].
  destruct (clean Demo.parse_number Demo.to_datetime Demo.scenario_table)
    as [[df chk]|e] eqn:E; [|vm_compute in E; discriminate E].
  destruct (assoc "arr_delay" (cols df)) as [s|] eqn:A.
  - exists df, chk, s. split; [reflexivity|]. split; [exact A|].
    exact (proj1 (cleaned_counts_hold_numbers Demo.parse_number Demo.to_datetime
                    Demo.scenario_table df chk "arr_delay" s
                    scenario_table_wf scenario_renamed_columns_raw E H1 A)).
  - exfalso. vm_compute in E. injection E as <- _. vm_compute in A.
    discriminate A.
Defined.

Lemma scenario_labels_ascii :
  Forall (fun l => all_chars is_ascii l = true) (columns Demo.scenario_table).
Proof. repeat constructor. Qed.

Lemma cleaned_labels_are_snake_case_witness :
  wf_frame (rename_columns Demo.scenario_table) /\
  Forall (fun l => all_chars is_ascii l = true) (columns Demo.scenario_table) /\
  exists df chk,
    clean Demo.parse_number Demo.to_datetime Demo.scenario_table = Ok (df, chk) /\
    ("delayed_rate"%string ∈ columns df) /\
    all_chars is_snake_char "delayed_rate" = true.
Proof.
  split; [exact scenario_table_wf|]. split; [exact scenario_labels_ascii|].
  destruct (clean Demo.parse_number Demo.to_datetime Demo.scenario_table)
    as [[df chk]|e] eqn:E; [|vm_compute in E; discriminate E].
  assert (Hin : "delayed_rate"%string ∈ columns df).
  { vm_compute in E. injection E as <- _. vm_compute. in_list. }
  exists df, chk. split; [reflexivity|]. split; [exact Hin|].
  exact (cleaned_labels_are_snake_case Demo.parse_number Demo.to_datetime
           Demo.scenario_table df chk "delayed_rate"
           scenario_table_wf scenario_labels_ascii E Hin).
Defined.

Lemma sample_draws_distinct_rows_witness :
  (forall g n, Permutation (fst (Demo.rng_permutation g n)) (seq 0 n)) /\
  wf_frame Demo.counts_table /\ 1 <= nrows Demo.counts_table /\
  exists (idx : list nat) smp,
    sample Demo.rng Demo.rng_seed Demo.rng_permutation 1 (Some 42%Z)
      Demo.counts_table 0 = (Ok smp, 0) /\
    NoDup idx /\ length idx = 1 /\ nrows smp = 1.
Proof.
  assert (H : 1 <= nrows Demo.counts_table) by (simpl; lia).
  split; [exact demo_rotation_shuffles|]. split; [exact counts_table_wf|].
  split; [exact H|].
  destruct (sample_draws_distinct_rows Demo.rng Demo.rng_seed
              Demo.rng_permutation demo_rotation_shuffles 42%Z 1
              Demo.counts_table 0 counts_table_wf H)
    as (idx & smp & E & ND & L & _ & N & _).
  exists idx, smp. split; [exact E|]. split; [exact ND|].
  split; [exact L | exact N].
Defined.

Lemma small_table_sample_is_reshuffle_witness :
  (forall texts, length (Demo.to_datetime texts) = length texts) /\
  (forall g n, Permutation (fst (Demo.rng_permutation g n)) (seq 0 n)) /\
  wf_frame (rename_columns Demo.scenario_table) /\
  nrows Demo.scenario_table <= 500 /\
  exists df chk a,
    clean Demo.parse_number Demo.to_datetime Demo.scenario_table = Ok (df, chk) /\
    run Demo.parse_number Demo.to_datetime Demo.round_ndigits Demo.rng
      Demo.rng_seed Demo.rng_permutation Demo.scenario_table 0 = (Ok a, 0) /\
    cleaned a = df /\ nrows (sampled a) = nrows df.
Proof.
  assert (H : nrows Demo.scenario_table <= 500) by (simpl; lia).
  split; [exact demo_to_datetime_length|].
  split; [exact demo_rotation_shuffles|]. split; [exact scenario_table_wf|].
  split; [exact H|].
  destruct (clean Demo.parse_number Demo.to_datetime Demo.scenario_table)
    as [[df chk]|e] eqn:E; [|vm_compute in E; discriminate E].
  destruct (small_table_sample_is_reshuffle Demo.parse_number Demo.to_datetime
              demo_to_datetime_length Demo.round_ndigits Demo.rng
              Demo.rng_seed Demo.rng_permutation demo_rotation_shuffles
              Demo.scenario_table df chk 0 scenario_table_wf E H)
    as (a & R & C & N & _).
  exists df, chk, a. split; [reflexivity|]. split; [exact R|].
  split; [exact C | exact N].
Defined.

Lemma data_dictionary_sorted_by_label_witness :
  wf_frame Demo.counts_table /\
  labels_ascend (d_column <$> data_dictionary Demo.round_ndigits Demo.counts_table)
  = true /\
  length (data_dictionary Demo.round_ndigits Demo.counts_table) = 9.
Proof.
  split; [exact counts_table_wf|].
  destruct (data_dictionary_sorted_by_label Demo.round_ndigits
              Demo.counts_table counts_table_wf) as (S & _ & _ & L).
  split; [exact S | exact L].
Defined.

Lemma dictionary_example_is_first_present_cell_witness :
  wf_frame Demo.rerun_table /\
  Forall (fun r => exists x, d_example r = Some x)
         (data_dictionary Demo.round_ndigits Demo.rerun_table).
Proof.
  split; [exact rerun_table_wf|].
  eapply Forall_impl;
    [exact (dictionary_example_is_first_present_cell Demo.round_ndigits
              Demo.rerun_table rerun_table_wf)|].
  intros r (c & s & Hin & _ & _ & Hex). simpl in Hin.
  destruct (d_example r) as [x|]; [by exists x|]. exfalso.
  split_in Hin; injection Hin as -> ->; simpl in Hex; inversion Hex;
    discriminate.
Defined.

Lemma enrich_idempotent_witness :
  wf_frame Demo.counts_table /\
  exists out chk,
    enrich Demo.to_datetime Demo.counts_table = Ok (out, chk) /\
    enrich Demo.to_datetime out = Ok (out, chk).
Proof.
  split; [exact counts_table_wf|].
  destruct (enrich Demo.to_datetime Demo.counts_table)
    as [[out chk]|e] eqn:E; [|vm_compute in E; discriminate E].
  exists out, chk. split; [reflexivity|].
  exact (enrich_idempotent Demo.to_datetime Demo.counts_table out chk
           counts_table_wf E).
Defined.
